(** * Watch Together: session coordinator and adaptive synchronisation

    A shallow embedding of the two core parts of the extension:

    - [AdaptiveSync]: the [AdaptiveSyncController] class (latency
      estimation, latency compensation, drift classification);
    - [Background]: the background session of [popup.ts] (operation lock,
      connection manager, outbound queue, relay message router).

    A JavaScript number is the rational it denotes ([Q]).  Where the
    rounding of double arithmetic decides which way the code goes - the
    drift classification - and in the latency average, every operation is
    followed by [Double.round], the rounding of IEEE 754 binary64 to
    nearest, ties to even; elsewhere the arithmetic is exact.  Wall-clock
    readings of [Date.now()] inside the background session are integers
    ([Z], milliseconds).  The clock is an explicit argument wherever the
    source reads [Date.now()]. *)

From Stdlib Require Import ZArith QArith Qabs Qminmax Qround Qpower Lqa Lia.
From Stdlib Require Import String Ascii Bool List.
From Stdlib Require Import Sorted Permutation.
Import ListNotations.

(* ===================================================================== *)
(** * Double arithmetic *)
(* ===================================================================== *)

(** The finite doubles are the rationals [m * 2 ^ e] with [|m| < 2 ^ 53] and
    [e >= -1074].  An operation of the source on finite doubles returns the
    double nearest to the exact result, ties to even: [Double.round] of it.
    Overflow to an infinity is left out: no exponent is too large. *)
Module Double.

Local Open Scope Q_scope.

(** [floor (log2 q)] for a positive [q]. *)
Definition ilog2 (q : Q) : Z :=
  let k := (Z.log2 (Qnum q) - Z.log2 (Zpos (Qden q)))%Z in
  if Qle_bool (2 ^ k) q then k else (k - 1)%Z.

(** The exponent of the last place: 53 significant bits, and no exponent
    below that of the subnormal numbers. *)
Definition fexp (q : Q) : Z := Z.max (ilog2 q - 52) (-1074).

(** Rounding to the nearest integer, ties to even. *)
Definition rne (q : Q) : Z :=
  let f := Qfloor q in
  match Qcompare (q - inject_Z f) (1 # 2) with
  | Lt => f
  | Gt => (f + 1)%Z
  | Eq => if Z.even f then f else (f + 1)%Z
  end.

Definition roundPos (q : Q) : Q :=
  Qred (inject_Z (rne (q / 2 ^ fexp q)) * 2 ^ fexp q).

(** The double nearest to [q], ties to even.  A decimal literal of the
    source denotes [round] of its decimal value. *)
Definition round (q : Q) : Q :=
  match Qcompare q 0 with
  | Eq => 0
  | Gt => roundPos q
  | Lt => - roundPos (- q)
  end.

(** [x + y], [x - y], [x * y] and [x / y] on doubles. *)
Definition add (x y : Q) : Q := round (x + y).
Definition sub (x y : Q) : Q := round (x - y).
Definition mul (x y : Q) : Q := round (x * y).
Definition div (x y : Q) : Q := round (x / y).

End Double.

(* ===================================================================== *)
(** * Adaptive sync controller *)
(* ===================================================================== *)

Module AdaptiveSync.

Local Open Scope Q_scope.

(** ** Comparisons on numbers, as booleans *)

Definition Qltb (x y : Q) : bool :=
  (Qnum x * QDen y <? Qnum y * QDen x)%Z.

Definition Qgtb (x y : Q) : bool := Qltb y x.

(** ** Configuration *)

Record AdaptiveSyncConfig : Set := mkConfig {
  smallDriftThreshold : Q;
  mediumDriftThreshold : Q;
  largeDriftThreshold : Q;
  minPlaybackRate : Q;
  maxPlaybackRate : Q;
  correctionFactor : Q;
  maxLatencyCompensation : Q;
  minLatencyCompensation : Q
}.

Definition DEFAULT_SYNC_CONFIG : AdaptiveSyncConfig := {|
  smallDriftThreshold := 300;
  mediumDriftThreshold := 1500;
  largeDriftThreshold := 5000;
  minPlaybackRate := Double.round (9 # 10);
  maxPlaybackRate := Double.round (11 # 10);
  correctionFactor := Double.round (4 # 10);
  maxLatencyCompensation := 2000;
  minLatencyCompensation := 10
|}.

Inductive SyncAction : Set :=
| none
| adjust_speed (rate : Q)
| smooth_seek (targetTime duration : Q)
| hard_seek (targetTime : Q).

(** ** Controller state

    The fields read or written by the latency and drift computations.  The
    timer handles ([speedResetTimeout], [smoothSeekInterval]) only serve the
    video-element methods and are not part of this model. *)

Record AdaptiveSyncController : Set := mkController {
  config : AdaptiveSyncConfig;
  originalPlaybackRate : Q;
  isAdjustingSpeed : bool;
  clockOffset : Q;
  clockOffsetSamples : list Q;
  latencySamples : list Q
}.

Definition maxClockSamples : nat := 10.
Definition maxLatencySamples : nat := 20.

(** [new AdaptiveSyncController(config)] *)
Definition newController (cfg : AdaptiveSyncConfig) : AdaptiveSyncController := {|
  config := cfg;
  originalPlaybackRate := 1;
  isAdjustingSpeed := false;
  clockOffset := 0;
  clockOffsetSamples := [];
  latencySamples := []
|}.

Definition set_clock (off : Q) (samples : list Q) (c : AdaptiveSyncController)
  : AdaptiveSyncController :=
  {| config := config c;
     originalPlaybackRate := originalPlaybackRate c;
     isAdjustingSpeed := isAdjustingSpeed c;
     clockOffset := off;
     clockOffsetSamples := samples;
     latencySamples := latencySamples c |}.

Definition set_latencySamples (samples : list Q) (c : AdaptiveSyncController)
  : AdaptiveSyncController :=
  {| config := config c;
     originalPlaybackRate := originalPlaybackRate c;
     isAdjustingSpeed := isAdjustingSpeed c;
     clockOffset := clockOffset c;
     clockOffsetSamples := clockOffsetSamples c;
     latencySamples := samples |}.

(** [arr.push(x); if (arr.length > cap) arr.shift();] *)
Definition push_bounded (cap : nat) (x : Q) (arr : list Q) : list Q :=
  let arr' := (arr ++ [x])%list in
  if (cap <? length arr')%nat then tl arr' else arr'.

(** [[...arr].sort((a, b) => a - b)]: ascending and stable. *)
Fixpoint insert_sorted (x : Q) (l : list Q) : list Q :=
  match l with
  | [] => [x]
  | y :: l' => if Qle_bool x y then x :: l else y :: insert_sorted x l'
  end.

Fixpoint sort_ascending (l : list Q) : list Q :=
  match l with
  | [] => []
  | x :: l' => insert_sorted x (sort_ascending l')
  end.

(** [updateClockOffset]: the window is never empty after the push, so the
    index [floor(length / 2)] is always in range. *)
Definition updateClockOffset (sample : Q) (c : AdaptiveSyncController)
  : AdaptiveSyncController :=
  let samples := push_bounded maxClockSamples sample (clockOffsetSamples c) in
  let sorted := sort_ascending samples in
  set_clock (nth (Nat.div (length sorted) 2) sorted 0) samples c.

Definition recordLatency (latency : Q) (c : AdaptiveSyncController)
  : AdaptiveSyncController :=
  set_latencySamples (push_bounded maxLatencySamples latency (latencySamples c)) c.

(** [getAverageLatency()]: the sum and the quotient in double arithmetic. *)
Definition getAverageLatency (c : AdaptiveSyncController) : Q :=
  match latencySamples c with
  | [] => 0
  | _ =>
      let sum := fold_left Double.add (latencySamples c) 0 in
      Double.div sum (inject_Z (Z.of_nat (length (latencySamples c))))
  end.

(** [calculateLatency(eventTimestamp)], with [now] the value of [Date.now()].
    Returns the clamped latency and the updated controller. *)
Definition calculateLatency (now eventTimestamp : Q) (c : AdaptiveSyncController)
  : Q * AdaptiveSyncController :=
  let rawLatency := now - eventTimestamp in
  let c1 :=
    if Qltb rawLatency (-(100)) then updateClockOffset rawLatency c
    else if Qgtb rawLatency (maxLatencyCompensation (config c))
         then updateClockOffset (rawLatency - 200) c
         else c in
  let adjustedLatency := rawLatency - clockOffset c1 in
  let clampedLatency :=
    Qmax 0 (Qmin adjustedLatency (maxLatencyCompensation (config c1))) in
  (clampedLatency, recordLatency clampedLatency c1).

(** [compensateForLatency(targetTime, eventTimestamp, isPlaying)] *)
Definition compensateForLatency (now targetTime eventTimestamp : Q)
    (isPlaying : bool) (c : AdaptiveSyncController)
  : Q * AdaptiveSyncController :=
  let '(latency, c1) := calculateLatency now eventTimestamp c in
  if Qltb latency (minLatencyCompensation (config c1)) || negb isPlaying
  then (targetTime, c1)
  else
    let compensation := latency / 1000 in
    (targetTime + compensation, c1).

(** [calculateSyncAction(currentTime, targetTime, isPlaying)], in double
    arithmetic. *)
Definition calculateSyncAction (cfg : AdaptiveSyncConfig)
    (currentTime targetTime : Q) (isPlaying : bool) : SyncAction :=
  let drift := Double.sub targetTime currentTime in
  let absDrift := Double.mul (Qabs drift) 1000 in
  if negb isPlaying || Qltb absDrift 30 then none
  else if Qgtb absDrift (largeDriftThreshold cfg) then hard_seek targetTime
  else if Qgtb absDrift (mediumDriftThreshold cfg) then
    smooth_seek targetTime (Qmin 400 (Double.div absDrift 4))
  else if Qgtb absDrift (smallDriftThreshold cfg) then
    let rate :=
      if Qgtb drift 0
      then Qmin (maxPlaybackRate cfg)
                (Double.add 1 (Double.mul (Double.div absDrift 1000)
                                          (correctionFactor cfg)))
      else Qmax (minPlaybackRate cfg)
                (Double.sub 1 (Double.mul (Double.div absDrift 1000)
                                          (correctionFactor cfg))) in
    adjust_speed rate
  else
    let microRate :=
      if Qgtb drift 0
      then Qmin (Double.round (105 # 100))
                (Double.add 1 (Double.mul (Double.div absDrift 1000)
                                          (Double.round (15 # 100))))
      else Qmax (Double.round (95 # 100))
                (Double.sub 1 (Double.mul (Double.div absDrift 1000)
                                          (Double.round (15 # 100)))) in
    adjust_speed microRate.

(** [calculateCompensatedSyncAction] *)
Definition calculateCompensatedSyncAction (now currentTime targetTime eventTimestamp : Q)
    (isPlaying : bool) (c : AdaptiveSyncController)
  : SyncAction * AdaptiveSyncController :=
  let '(compensatedTarget, c1) :=
    compensateForLatency now targetTime eventTimestamp isPlaying c in
  (calculateSyncAction (config c1) currentTime compensatedTarget isPlaying, c1).

(** [reset()] *)
Definition reset (c : AdaptiveSyncController) : AdaptiveSyncController :=
  newController (config c).

(** The drift magnitude in milliseconds as the code computes it: the double
    [Math.abs(targetTime - currentTime) * 1000]. *)
Definition driftMs (currentTime targetTime : Q) : Q :=
  Double.mul (Qabs (Double.sub targetTime currentTime)) 1000.

(** ** Speed adjustment and smooth seek

    The methods that act on a video element.  The element is the pair of
    properties they read and write; a timer handle is the positive integer
    [setTimeout] or [setInterval] returned, given as an argument where the
    source asks for one; [performance.now()] is the argument [now].  Each
    method returns the controller, the video, and the timer calls it made,
    in order. *)

Module HTMLVideoElement.
Record t : Set := mk {
  playbackRate : Q;
  currentTime : Q
}.
End HTMLVideoElement.

(** [speedResetTimeout] and [smoothSeekInterval] ([None] for [null]). *)
Record Handles : Set := mkHandles {
  speedResetTimeout : option positive;
  smoothSeekInterval : option positive
}.

(** The controller object: its fields and its two handles. *)
Record TimedController : Set := mkTimed {
  fields : AdaptiveSyncController;
  handles : Handles
}.

Inductive TimerCall : Set :=
| clearTimeout (handle : positive)
| setTimeout_resetSpeed (handle : positive) (delay : Q)
| clearInterval (handle : positive)
| setInterval_seekStep (handle : positive) (period : Q)
| setTimeout_seekSafety (delay : Q)
| resolve.

Record Step : Set := mkStep {
  this : TimedController;
  video : HTMLVideoElement.t;
  calls : list TimerCall
}.

Definition set_adjusting (original : Q) (adjusting : bool)
    (c : AdaptiveSyncController) : AdaptiveSyncController :=
  {| config := config c;
     originalPlaybackRate := original;
     isAdjustingSpeed := adjusting;
     clockOffset := clockOffset c;
     clockOffsetSamples := clockOffsetSamples c;
     latencySamples := latencySamples c |}.

(** [applySpeedAdjustment(video, rate)]; [handle] is what [setTimeout]
    returns. *)
Definition applySpeedAdjustment (handle : positive) (v : HTMLVideoElement.t)
    (rate : Q) (ctl : TimedController) : Step :=
  let c1 :=
    if negb (isAdjustingSpeed (fields ctl))
    then set_adjusting (HTMLVideoElement.playbackRate v) true (fields ctl)
    else fields ctl in
  let v1 := HTMLVideoElement.mk rate (HTMLVideoElement.currentTime v) in
  let cleared :=
    match speedResetTimeout (handles ctl) with
    | Some old => [clearTimeout old]
    | None => []
    end in
  mkStep (mkTimed c1 (mkHandles (Some handle) (smoothSeekInterval (handles ctl))))
         v1
         (cleared ++ [setTimeout_resetSpeed handle 2000]).

(** [resetSpeed(video)] *)
Definition resetSpeed (v : HTMLVideoElement.t) (ctl : TimedController) : Step :=
  let '(v1, c1) :=
    if isAdjustingSpeed (fields ctl)
    then (HTMLVideoElement.mk (originalPlaybackRate (fields ctl))
                              (HTMLVideoElement.currentTime v),
          set_adjusting (originalPlaybackRate (fields ctl)) false (fields ctl))
    else (v, fields ctl) in
  match speedResetTimeout (handles ctl) with
  | Some old =>
      mkStep (mkTimed c1 (mkHandles None (smoothSeekInterval (handles ctl))))
             v1 [clearTimeout old]
  | None => mkStep (mkTimed c1 (handles ctl)) v1 []
  end.

(** What the callbacks of one [smoothSeek] call close over. *)
Record SeekClosure : Set := mkSeek {
  startTime : Q;
  startTs : Q;
  diff : Q;
  seekTarget : Q;
  seekDuration : Q
}.

(** [smoothSeek(video, targetTime, duration)]: the body of the promise
    executor.  It returns the closure of its two callbacks beside the
    step. *)
Definition smoothSeek (handle : positive) (now : Q) (v : HTMLVideoElement.t)
    (targetTime duration : Q) (ctl : TimedController) : SeekClosure * Step :=
  let cleared :=
    match smoothSeekInterval (handles ctl) with
    | Some old => [clearInterval old]
    | None => []
    end in
  let start := HTMLVideoElement.currentTime v in
  (mkSeek start now (targetTime - start) targetTime duration,
   mkStep (mkTimed (fields ctl)
                   (mkHandles (speedResetTimeout (handles ctl)) (Some handle)))
          v
          (cleared ++ [setInterval_seekStep handle 16;
                       setTimeout_seekSafety (duration + 100)])).

(** [1 - (1 - progress) * (1 - progress)] at
    [progress = Math.min(1, elapsed / duration)]. *)
Definition seekProgress (k : SeekClosure) (now : Q) : Q :=
  Qmin 1 ((now - startTs k) / seekDuration k).

Definition easeOutQuad (progress : Q) : Q :=
  1 - (1 - progress) * (1 - progress).

(** The interval callback of [smoothSeek], run at time [now]. *)
Definition smoothSeekStep (k : SeekClosure) (now : Q) (v : HTMLVideoElement.t)
    (ctl : TimedController) : Step :=
  let progress := seekProgress k now in
  let eased := easeOutQuad progress in
  let v1 := HTMLVideoElement.mk (HTMLVideoElement.playbackRate v)
                                (startTime k + diff k * eased) in
  if Qle_bool 1 progress then
    match smoothSeekInterval (handles ctl) with
    | Some h =>
        mkStep (mkTimed (fields ctl)
                        (mkHandles (speedResetTimeout (handles ctl)) None))
               v1 [clearInterval h; resolve]
    | None => mkStep ctl v1 [resolve]
    end
  else mkStep ctl v1 [].

(** The safety timeout of [smoothSeek]. *)
Definition smoothSeekSafety (k : SeekClosure) (v : HTMLVideoElement.t)
    (ctl : TimedController) : Step :=
  match smoothSeekInterval (handles ctl) with
  | Some h =>
      mkStep (mkTimed (fields ctl)
                      (mkHandles (speedResetTimeout (handles ctl)) None))
             (HTMLVideoElement.mk (HTMLVideoElement.playbackRate v) (seekTarget k))
             [clearInterval h; resolve]
  | None => mkStep ctl v []
  end.

(** [destroy()] *)
Definition destroy (ctl : TimedController) : TimedController * list TimerCall :=
  let c1 :=
    match speedResetTimeout (handles ctl) with
    | Some h => [clearTimeout h]
    | None => []
    end in
  let c2 :=
    match smoothSeekInterval (handles ctl) with
    | Some h => [clearInterval h]
    | None => []
    end in
  (mkTimed (fields ctl) (mkHandles None None), (c1 ++ c2)%list).

(** A run of speed adjustments on one video: each rate with the handle its
    timeout got. *)
Fixpoint applySpeedAdjustments (adjustments : list (positive * Q))
    (v : HTMLVideoElement.t) (ctl : TimedController) : Step :=
  match adjustments with
  | [] => mkStep ctl v []
  | (handle, rate) :: rest =>
      let s1 := applySpeedAdjustment handle v rate ctl in
      let s2 := applySpeedAdjustments rest (video s1) (this s1) in
      mkStep (this s2) (video s2) (calls s1 ++ calls s2)
  end.

(** The timeouts a trace leaves pending: set and not cleared since. *)
Fixpoint pendingResetTimeouts (pending : list positive) (cs : list TimerCall)
  : list positive :=
  match cs with
  | [] => pending
  | clearTimeout h :: cs' =>
      pendingResetTimeouts (filter (fun p => negb (Pos.eqb p h)) pending) cs'
  | setTimeout_resetSpeed h _ :: cs' => pendingResetTimeouts (pending ++ [h]) cs'
  | _ :: cs' => pendingResetTimeouts pending cs'
  end.

(** The interval of one [smoothSeek] firing at the given times: its callback
    runs as long as the controller still holds that interval's handle. *)
Fixpoint runSeekSteps (handle : positive) (k : SeekClosure) (times : list Q)
    (v : HTMLVideoElement.t) (ctl : TimedController) : Step :=
  match times with
  | [] => mkStep ctl v []
  | now :: rest =>
      match smoothSeekInterval (handles ctl) with
      | Some h =>
          if Pos.eqb h handle then
            let s1 := smoothSeekStep k now v ctl in
            let s2 := runSeekSteps handle k rest (video s1) (this s1) in
            mkStep (this s2) (video s2) (calls s1 ++ calls s2)
          else mkStep ctl v []
      | None => mkStep ctl v []
      end
  end.

(** Every recorded latency lies in [[0, maxLatencyCompensation]]. *)
Definition samplesWithin (c : AdaptiveSyncController) : Prop :=
  Forall (fun x => 0 <= x /\ x <= maxLatencyCompensation (config c))
         (latencySamples c).

(** The timeouts held in the handle field. *)
Definition heldResetTimeout (ctl : TimedController) : list positive :=
  match speedResetTimeout (handles ctl) with
  | Some h => [h]
  | None => []
  end.

(** ** Sample states *)

(** A controller that has seen traffic: both windows are full, the clock
    offset is the median of its window. *)
Definition seasonedController : AdaptiveSyncController := {|
  config := DEFAULT_SYNC_CONFIG;
  originalPlaybackRate := 1;
  isAdjustingSpeed := false;
  clockOffset := -(128);
  clockOffsetSamples :=
    [-(120); -(130); -(110); -(150); -(140); -(125); -(135); -(115); -(145); -(128)];
  latencySamples :=
    [40; 55; 2000; 61; 48; 0; 39; 75; 120; 44;
     52; 47; 1999 # 2; 58; 63; 41; 2000; 50; 45; 60]
|}.

(** A configuration with a wider speed range. *)
Definition wideConfig : AdaptiveSyncConfig :=
  mkConfig 300 1500 5000 (1 # 2) 2 (1 # 2) 2000 10.

(** Two seeks on a video at 10 s: the first, to 12 s over 400 ms, starts at
    0 and its interval fires at 16, 32 and 400 ms; the second, to 20 s over
    400 ms, starts at 450 ms and its interval fires at 466 and 482 ms; then,
    at 500 ms, the safety timeout of the first seek fires. *)
Definition freshTimed : TimedController :=
  mkTimed (newController DEFAULT_SYNC_CONFIG) (mkHandles None None).

Definition seekRun1 : SeekClosure * Step :=
  smoothSeek 1 0 (HTMLVideoElement.mk 1 10) 12 400 freshTimed.

Definition afterTicks1 : Step :=
  runSeekSteps 1 (fst seekRun1) [16; 32; 400]
    (video (snd seekRun1)) (this (snd seekRun1)).

Definition seekRun2 : SeekClosure * Step :=
  smoothSeek 2 450 (video afterTicks1) 20 400 (this afterTicks1).

Definition afterTicks2 : Step :=
  runSeekSteps 2 (fst seekRun2) [466; 482]
    (video (snd seekRun2)) (this (snd seekRun2)).

Definition afterSafety1 : Step :=
  smoothSeekSafety (fst seekRun1) (video afterTicks2) (this afterTicks2).

End AdaptiveSync.

(* ===================================================================== *)
(** * Background session (popup.ts) *)
(* ===================================================================== *)

Module Background.

Local Open Scope Z_scope.

(** ** Protocol types (shared/events.ts) *)

Inductive SyncEventType : Set := PLAY | PAUSE | SEEK | AD_STARTED | AD_ENDED.

Inductive Platform : Set := youtube | netflix | crunchyroll.

Module SyncEvent.
Record t : Set := mk {
  type : SyncEventType;
  time : Q;
  timestamp : Z;
  videoId : option string
}.
End SyncEvent.

Module NavigationEvent.
Record t : Set := mk {
  url : string;
  platform : Platform;
  timestamp : Z
}.
End NavigationEvent.

Module UserInfo.
Record t : Set := mk {
  oderId : string;
  name : string;
  canControl : bool;
  isHost : bool
}.
End UserInfo.

(** Client -> server messages.  An optional field ([userName?]) is an
    [option]. *)
Module ClientMessage.
Inductive t : Set :=
| CREATE_ROOM (userId : string) (userName : option string)
| JOIN_ROOM (roomId userId : string) (userName : option string)
| LEAVE_ROOM (roomId userId : string)
| SYNC_EVENT (roomId userId : string) (event : SyncEvent.t)
| NAVIGATE (roomId userId : string) (navigation : NavigationEvent.t)
| REQUEST_STATE (roomId userId : string)
| STATE_RESPONSE (roomId userId : string) (isPlaying : bool) (currentTime : Q)
| KICK_USER (roomId userId targetUserId : string)
| SET_PERMISSION (roomId userId targetUserId : string) (canControl : bool)
| SET_NAME (userId name : string)
| GET_USERS (roomId userId : string)
| HEARTBEAT (userId : string)
| JOINER_READY (roomId userId : string).

(** The [type] discriminator of the message. *)
Definition type (m : t) : string :=
  match m with
  | CREATE_ROOM _ _ => "CREATE_ROOM"
  | JOIN_ROOM _ _ _ => "JOIN_ROOM"
  | LEAVE_ROOM _ _ => "LEAVE_ROOM"
  | SYNC_EVENT _ _ _ => "SYNC_EVENT"
  | NAVIGATE _ _ _ => "NAVIGATE"
  | REQUEST_STATE _ _ => "REQUEST_STATE"
  | STATE_RESPONSE _ _ _ _ => "STATE_RESPONSE"
  | KICK_USER _ _ _ => "KICK_USER"
  | SET_PERMISSION _ _ _ _ => "SET_PERMISSION"
  | SET_NAME _ _ => "SET_NAME"
  | GET_USERS _ _ => "GET_USERS"
  | HEARTBEAT _ => "HEARTBEAT"
  | JOINER_READY _ _ => "JOINER_READY"
  end%string.

Definition Q_eq_dec (a b : Q) : {a = b} + {a <> b}.
Proof. decide equality; [apply Pos.eq_dec | apply Z.eq_dec]. Defined.

Definition eq_dec (a b : t) : {a = b} + {a <> b}.
Proof.
  repeat decide equality;
    try apply string_dec; try apply Q_eq_dec;
    try apply Z.eq_dec; try apply Pos.eq_dec.
Defined.

(** [JSON.stringify(a) === JSON.stringify(b)]: a message value stands for
    its serialisation (fields in declaration order), so two messages
    serialise alike exactly when they are the same value. *)
Definition same_json (a b : t) : bool :=
  if eq_dec a b then true else false.
End ClientMessage.

(** Server -> client messages. *)
Module ServerMessage.
Inductive t : Set :=
| ROOM_CREATED (roomId : string) (isHost : bool) (oderId : string)
| ROOM_JOINED (roomId : string) (userCount : Z) (isHost : bool)
    (users : list UserInfo.t) (oderId : string)
| ROOM_LEFT (roomId : string)
| SYNC_EVENT (roomId oderId : string) (event : SyncEvent.t)
| NAVIGATE (roomId oderId : string) (navigation : NavigationEvent.t)
| STATE_REQUEST (roomId requesterId : string)
| STATE_UPDATE (roomId : string) (isPlaying : bool) (currentTime : Q)
| USER_JOINED (roomId oderId userName : string) (userCount : Z)
    (users : list UserInfo.t)
| USER_LEFT (roomId oderId : string) (userCount : Z)
    (newHostId : option string) (users : list UserInfo.t)
| USER_KICKED (roomId oderId reason : string)
| USERS_LIST (roomId : string) (users : list UserInfo.t)
| PERMISSION_CHANGED (roomId oderId : string) (canControl : bool)
| ERROR (code message : string)
| HEARTBEAT_ACK
| JOINER_READY_NOTIFICATION (roomId joinerUserId : string).
End ServerMessage.

Definition HEARTBEAT_INTERVAL_MS : Z := 30000.
Definition RECONNECT_DELAY_MS : Z := 3000.
Definition MAX_RECONNECT_ATTEMPTS : nat := 5.

(** ** Global state of the background script *)

(** [WebSocket.readyState] *)
Inductive ReadyState : Set := CONNECTING | OPEN | CLOSING | CLOSED.

Definition ReadyState_eqb (a b : ReadyState) : bool :=
  match a, b with
  | CONNECTING, CONNECTING | OPEN, OPEN | CLOSING, CLOSING | CLOSED, CLOSED => true
  | _, _ => false
  end.

(** [session]: the socket is kept as its ready state ([None] for [null]);
    [heartbeatInterval] records whether an interval handle is held. *)
Record SessionState : Set := mkSession {
  oderId : string;
  socket : option ReadyState;
  roomId : option string;
  isHost : bool;
  userCount : Z;
  users : list UserInfo.t;
  connected : bool;
  reconnectAttempts : nat;
  heartbeatInterval : bool;
  userName : string;
  canControl : bool;
  isReconnecting : bool;
  lastSuccessfulConnection : Z;
  pendingMessages : list ClientMessage.t;
  connectionId : string;
  currentUrl : option string;
  currentPlatform : option Platform
}.

Definition set_oderId (v : string) (s : SessionState) : SessionState :=
  mkSession v (socket s) (roomId s) (isHost s) (userCount s) (users s)
    (connected s) (reconnectAttempts s) (heartbeatInterval s) (userName s)
    (canControl s) (isReconnecting s) (lastSuccessfulConnection s)
    (pendingMessages s) (connectionId s) (currentUrl s) (currentPlatform s).

Definition set_socket (v : option ReadyState) (s : SessionState) : SessionState :=
  mkSession (oderId s) v (roomId s) (isHost s) (userCount s) (users s)
    (connected s) (reconnectAttempts s) (heartbeatInterval s) (userName s)
    (canControl s) (isReconnecting s) (lastSuccessfulConnection s)
    (pendingMessages s) (connectionId s) (currentUrl s) (currentPlatform s).

Definition set_roomId (v : option string) (s : SessionState) : SessionState :=
  mkSession (oderId s) (socket s) v (isHost s) (userCount s) (users s)
    (connected s) (reconnectAttempts s) (heartbeatInterval s) (userName s)
    (canControl s) (isReconnecting s) (lastSuccessfulConnection s)
    (pendingMessages s) (connectionId s) (currentUrl s) (currentPlatform s).

Definition set_isHost (v : bool) (s : SessionState) : SessionState :=
  mkSession (oderId s) (socket s) (roomId s) v (userCount s) (users s)
    (connected s) (reconnectAttempts s) (heartbeatInterval s) (userName s)
    (canControl s) (isReconnecting s) (lastSuccessfulConnection s)
    (pendingMessages s) (connectionId s) (currentUrl s) (currentPlatform s).

Definition set_userCount (v : Z) (s : SessionState) : SessionState :=
  mkSession (oderId s) (socket s) (roomId s) (isHost s) v (users s)
    (connected s) (reconnectAttempts s) (heartbeatInterval s) (userName s)
    (canControl s) (isReconnecting s) (lastSuccessfulConnection s)
    (pendingMessages s) (connectionId s) (currentUrl s) (currentPlatform s).

Definition set_users (v : list UserInfo.t) (s : SessionState) : SessionState :=
  mkSession (oderId s) (socket s) (roomId s) (isHost s) (userCount s) v
    (connected s) (reconnectAttempts s) (heartbeatInterval s) (userName s)
    (canControl s) (isReconnecting s) (lastSuccessfulConnection s)
    (pendingMessages s) (connectionId s) (currentUrl s) (currentPlatform s).

Definition set_connected (v : bool) (s : SessionState) : SessionState :=
  mkSession (oderId s) (socket s) (roomId s) (isHost s) (userCount s)
    (users s) v (reconnectAttempts s) (heartbeatInterval s) (userName s)
    (canControl s) (isReconnecting s) (lastSuccessfulConnection s)
    (pendingMessages s) (connectionId s) (currentUrl s) (currentPlatform s).

Definition set_reconnectAttempts (v : nat) (s : SessionState) : SessionState :=
  mkSession (oderId s) (socket s) (roomId s) (isHost s) (userCount s)
    (users s) (connected s) v (heartbeatInterval s) (userName s)
    (canControl s) (isReconnecting s) (lastSuccessfulConnection s)
    (pendingMessages s) (connectionId s) (currentUrl s) (currentPlatform s).

Definition set_heartbeatInterval (v : bool) (s : SessionState) : SessionState :=
  mkSession (oderId s) (socket s) (roomId s) (isHost s) (userCount s)
    (users s) (connected s) (reconnectAttempts s) v (userName s)
    (canControl s) (isReconnecting s) (lastSuccessfulConnection s)
    (pendingMessages s) (connectionId s) (currentUrl s) (currentPlatform s).

Definition set_canControl (v : bool) (s : SessionState) : SessionState :=
  mkSession (oderId s) (socket s) (roomId s) (isHost s) (userCount s)
    (users s) (connected s) (reconnectAttempts s) (heartbeatInterval s)
    (userName s) v (isReconnecting s) (lastSuccessfulConnection s)
    (pendingMessages s) (connectionId s) (currentUrl s) (currentPlatform s).

Definition set_isReconnecting (v : bool) (s : SessionState) : SessionState :=
  mkSession (oderId s) (socket s) (roomId s) (isHost s) (userCount s)
    (users s) (connected s) (reconnectAttempts s) (heartbeatInterval s)
    (userName s) (canControl s) v (lastSuccessfulConnection s)
    (pendingMessages s) (connectionId s) (currentUrl s) (currentPlatform s).

Definition set_lastSuccessfulConnection (v : Z) (s : SessionState) : SessionState :=
  mkSession (oderId s) (socket s) (roomId s) (isHost s) (userCount s)
    (users s) (connected s) (reconnectAttempts s) (heartbeatInterval s)
    (userName s) (canControl s) (isReconnecting s) v (pendingMessages s)
    (connectionId s) (currentUrl s) (currentPlatform s).

Definition set_pendingMessages (v : list ClientMessage.t) (s : SessionState) : SessionState :=
  mkSession (oderId s) (socket s) (roomId s) (isHost s) (userCount s)
    (users s) (connected s) (reconnectAttempts s) (heartbeatInterval s)
    (userName s) (canControl s) (isReconnecting s)
    (lastSuccessfulConnection s) v (connectionId s) (currentUrl s)
    (currentPlatform s).

Definition set_currentUrl (v : option string) (s : SessionState) : SessionState :=
  mkSession (oderId s) (socket s) (roomId s) (isHost s) (userCount s)
    (users s) (connected s) (reconnectAttempts s) (heartbeatInterval s)
    (userName s) (canControl s) (isReconnecting s)
    (lastSuccessfulConnection s) (pendingMessages s) (connectionId s) v
    (currentPlatform s).

Definition set_currentPlatform (v : option Platform) (s : SessionState) : SessionState :=
  mkSession (oderId s) (socket s) (roomId s) (isHost s) (userCount s)
    (users s) (connected s) (reconnectAttempts s) (heartbeatInterval s)
    (userName s) (canControl s) (isReconnecting s)
    (lastSuccessfulConnection s) (pendingMessages s) (connectionId s)
    (currentUrl s) v.

(** The session as the script creates it; the generated identifiers are
    arguments. *)
Definition initialSession (generatedUserId randomUUID : string) : SessionState := {|
  oderId := generatedUserId;
  socket := None;
  roomId := None;
  isHost := false;
  userCount := 0;
  users := [];
  connected := false;
  reconnectAttempts := 0;
  heartbeatInterval := false;
  userName := EmptyString;
  canControl := true;
  isReconnecting := false;
  lastSuccessfulConnection := 0;
  pendingMessages := [];
  connectionId := randomUUID;
  currentUrl := None;
  currentPlatform := None
|}.

Module TabState.
Record t : Set := mk {
  tabId : nat;
  visible : bool;
  platform : option Platform;
  hasAdapter : bool;
  lastActivity : Z
}.
End TabState.

Inductive OperationType : Set := OP_CREATE_ROOM | OP_JOIN_ROOM | OP_LEAVE_ROOM.

Module PendingOperation.
Record t : Set := mk {
  type : OperationType;
  timestamp : Z;
  roomId : option string
}.
End PendingOperation.

(** The module-level variables: [session], [activeTabs], [tabStates],
    [pendingOperation]. *)
Record Globals : Set := mkGlobals {
  session : SessionState;
  activeTabs : list nat;
  tabStates : list TabState.t;
  pendingOperation : option PendingOperation.t
}.

Definition initialGlobals (generatedUserId randomUUID : string) : Globals := {|
  session := initialSession generatedUserId randomUUID;
  activeTabs := [];
  tabStates := [];
  pendingOperation := None
|}.

(** ** Notifications to tabs and the popup *)

Module StatusPayload.
Record t : Set := mk {
  connected : bool;
  roomId : option string;
  isHost : bool;
  userCount : Z;
  users : list UserInfo.t;
  userId : string;
  canControl : bool;
  syncStatus : string
}.
End StatusPayload.

Inductive ConnectionStatus : Set :=
| reconnecting (attempt maxAttempts : nat)
| failed (message : string).

Module TabMessage.
Inductive t : Set :=
| STATUS_UPDATE (payload : StatusPayload.t)
| CONNECTION_STATUS (payload : ConnectionStatus)
| APPLY_SYNC (payload : SyncEvent.t)
| NAVIGATE (payload : NavigationEvent.t)
| START_PLAYBACK_FOR_JOINER (joinerUserId : string)
| KICKED (reason : string)
| ERROR (code message : string).
End TabMessage.

(** ** Effects

    What a handler does to the outside world, in program order.  A call of
    an asynchronous function of the script is recorded as a [Call_] effect:
    its body runs after the handler has returned. *)
Inductive Effect : Set :=
| SocketSend (m : ClientMessage.t)
| SocketClose (code : Z)
| NewWebSocket
| ClearConnectionTimeout
| SetTimeoutConnect (delay : Z)
| SetIntervalHeartbeat (interval : Z)
| ClearIntervalHeartbeat
| TabsSendMessage (tabId : nat) (m : TabMessage.t)
| RuntimeSendMessage (m : TabMessage.t)
| StorageRemove (keys : list string)
| Call_forwardToAllTabs (m : TabMessage.t)
| Call_requestPlayerState
| Call_saveSessionState.

(** ** The monad of handlers: global state and an effect trace *)

Record Outcome (A : Type) : Type := mkOutcome {
  value : A;
  globals : Globals;
  effects : list Effect
}.
Arguments mkOutcome {A}.
Arguments value {A}.
Arguments globals {A}.
Arguments effects {A}.

Definition M (A : Type) : Type := Globals -> Outcome A.

Definition ret {A} (a : A) : M A := fun g => mkOutcome a g [].

Definition bind {A B} (m : M A) (f : A -> M B) : M B :=
  fun g =>
    let r1 := m g in
    let r2 := f (value r1) (globals r1) in
    mkOutcome (value r2) (globals r2) (effects r1 ++ effects r2).

Declare Scope handler_scope.
Delimit Scope handler_scope with handler.
Notation "x <- c ;; k" := (bind c (fun x => k))
  (at level 61, c at next level, right associativity) : handler_scope.
Notation "c ;; k" := (bind c (fun _ => k))
  (at level 61, right associativity) : handler_scope.
Local Open Scope handler_scope.

Definition get : M Globals := fun g => mkOutcome g g [].
Definition getSession : M SessionState := fun g => mkOutcome (session g) g [].
Definition emit (e : Effect) : M unit := fun g => mkOutcome tt g [e].

Definition updateSession (f : SessionState -> SessionState) : M unit :=
  fun g => mkOutcome tt
    (mkGlobals (f (session g)) (activeTabs g) (tabStates g) (pendingOperation g)) [].

Definition setPendingOperation (p : option PendingOperation.t) : M unit :=
  fun g => mkOutcome tt
    (mkGlobals (session g) (activeTabs g) (tabStates g) p) [].

Definition setTabs (tabs : list nat) (states : list TabState.t) : M unit :=
  fun g => mkOutcome tt (mkGlobals (session g) tabs states (pendingOperation g)) [].

(** [for (const x of xs) body(x)] *)
Fixpoint forEach {A} (xs : list A) (body : A -> M unit) : M unit :=
  match xs with
  | [] => ret tt
  | x :: xs' => body x ;; forEach xs' body
  end.

Definition when (b : bool) (m : M unit) : M unit := if b then m else ret tt.

(** ** Helpers for JavaScript idioms *)

(** Truthiness of a [string | null]: [null] and the empty string are falsy. *)
Definition truthy (o : option string) : bool :=
  match o with
  | Some str => negb (str =? "")%string
  | None => false
  end.

(** [str.includes(pat)] *)
Fixpoint includes (str pat : string) : bool :=
  prefix pat str ||
  match str with
  | EmptyString => false
  | String _ rest => includes rest pat
  end.

(** [users.find(u => u.oderId === id)] *)
Definition findUser (id : string) (us : list UserInfo.t) : option UserInfo.t :=
  find (fun u => (UserInfo.oderId u =? id)%string) us.

(** [session.socket?.readyState === state] *)
Definition socketIs (state : ReadyState) (s : SessionState) : bool :=
  match socket s with
  | Some st => ReadyState_eqb st state
  | None => false
  end.

(** The four assignments that clear the room:
    [roomId = null; isHost = false; userCount = 0; users = []]. *)
Definition clearRoomState (s : SessionState) : SessionState :=
  set_users [] (set_userCount 0 (set_isHost false (set_roomId None s))).

(** ** Operation lock *)

Definition acquireRoomLock (now : Z) (operation : PendingOperation.t) : M bool :=
  g <- get ;;
  match pendingOperation g with
  | Some pending =>
      let age := now - PendingOperation.timestamp pending in
      if age >? 5000 then
        setPendingOperation None ;;
        setPendingOperation (Some operation) ;;
        ret true
      else ret false
  | None =>
      setPendingOperation (Some operation) ;;
      ret true
  end.

Definition releaseRoomLock : M unit := setPendingOperation None.

(** ** Status broadcast and heartbeat *)

Definition currentStatus (s : SessionState) : StatusPayload.t := {|
  StatusPayload.connected := connected s;
  StatusPayload.roomId := roomId s;
  StatusPayload.isHost := isHost s;
  StatusPayload.userCount := userCount s;
  StatusPayload.users := users s;
  StatusPayload.userId := oderId s;
  StatusPayload.canControl := canControl s;
  StatusPayload.syncStatus :=
    (if connected s then (if truthy (roomId s) then "OK" else "DISCONNECTED")
     else "DISCONNECTED")%string
|}.

Definition broadcastStatusToAllTabs : M unit :=
  g <- get ;;
  let status := currentStatus (session g) in
  forEach (activeTabs g)
    (fun tabId => emit (TabsSendMessage tabId (TabMessage.STATUS_UPDATE status))) ;;
  emit (RuntimeSendMessage (TabMessage.STATUS_UPDATE status)).

Definition stopHeartbeat : M unit :=
  s <- getSession ;;
  when (heartbeatInterval s)
    (emit ClearIntervalHeartbeat ;;
     updateSession (set_heartbeatInterval false)).

Definition startHeartbeat : M unit :=
  stopHeartbeat ;;
  emit (SetIntervalHeartbeat HEARTBEAT_INTERVAL_MS) ;;
  updateSession (set_heartbeatInterval true).

(** ** Connection manager *)

(** [Math.min(RECONNECT_DELAY_MS * Math.pow(2, attempts - 1), 30000)] *)
Definition reconnectDelay (attempts : nat) : Z :=
  Z.min (RECONNECT_DELAY_MS * 2 ^ (Z.of_nat attempts - 1)) 30000.

Definition handleConnectionFailure (reason : string) : M unit :=
  updateSession (set_connected false) ;;
  updateSession (set_socket None) ;;
  stopHeartbeat ;;
  s <- getSession ;;
  when (truthy (roomId s) && (reconnectAttempts s <? MAX_RECONNECT_ATTEMPTS)%nat)
    (updateSession (fun s => set_reconnectAttempts (S (reconnectAttempts s)) s) ;;
     updateSession (set_isReconnecting true) ;;
     s <- getSession ;;
     let delay := reconnectDelay (reconnectAttempts s) in
     emit (SetTimeoutConnect delay)) ;;
  broadcastStatusToAllTabs.

(** [shouldQueueMessage] *)
Definition shouldQueueMessage (message : ClientMessage.t) : bool :=
  if ((ClientMessage.type message =? "HEARTBEAT") ||
      (ClientMessage.type message =? "STATE_RESPONSE"))%string
  then false
  else true.

(** [queueMessage] *)
Definition queueMessage (message : ClientMessage.t) : M unit :=
  s <- getSession ;;
  let isDuplicate :=
    existsb (fun m =>
               (ClientMessage.type m =? ClientMessage.type message)%string &&
               ClientMessage.same_json m message)
            (pendingMessages s) in
  when (negb isDuplicate)
    (updateSession (fun s => set_pendingMessages (pendingMessages s ++ [message]) s)) ;;
  s <- getSession ;;
  when (50 <? length (pendingMessages s))%nat
    (updateSession (fun s => set_pendingMessages (tl (pendingMessages s)) s)).

Section Environment.

(** What the environment decides: whether [socket.send] throws on a
    message, and whether [new WebSocket(url)] throws. *)
Variable socketSendThrows : ClientMessage.t -> bool.
Variable newWebSocketThrows : bool.

(** [connect]: the handlers registered on the new socket are [onopen],
    [onclose] below and [handleServerMessage]. *)
Definition connect : M unit :=
  s <- getSession ;;
  if socketIs OPEN s then ret tt
  else if socketIs CONNECTING s then ret tt
  else if newWebSocketThrows
    then handleConnectionFailure "Failed to initialize connection"
    else updateSession (set_socket (Some CONNECTING)) ;;
         emit NewWebSocket.

(** [sendMessage] *)
Definition sendMessage (message : ClientMessage.t) : M unit :=
  s <- getSession ;;
  if socketIs OPEN s then
    if socketSendThrows message then
      when (isReconnecting s && shouldQueueMessage message)
        (queueMessage message)
    else emit (SocketSend message)
  else
    if isReconnecting s && shouldQueueMessage message then
      queueMessage message
    else if negb (connected s) && negb (isReconnecting s) then
      connect ;;
      when (shouldQueueMessage message) (queueMessage message)
    else ret tt.

(** [flushPendingMessages] *)
Definition flushPendingMessages : M unit :=
  s <- getSession ;;
  if (length (pendingMessages s) =? 0)%nat then ret tt
  else
    let messages := pendingMessages s in
    updateSession (set_pendingMessages []) ;;
    forEach messages sendMessage.

(** [disconnect] *)
Definition disconnect : M unit :=
  s <- getSession ;;
  when (match socket s with Some _ => true | None => false end)
    (emit (SocketClose 1000) ;;
     updateSession (set_socket None)) ;;
  updateSession (set_connected false) ;;
  updateSession clearRoomState ;;
  stopHeartbeat ;;
  broadcastStatusToAllTabs.

(** [session.socket.onopen], with [now] the value of [Date.now()]. *)
Definition onopen (now : Z) : M unit :=
  emit ClearConnectionTimeout ;;
  updateSession (set_connected true) ;;
  updateSession (set_reconnectAttempts 0%nat) ;;
  updateSession (set_isReconnecting false) ;;
  updateSession (set_lastSuccessfulConnection now) ;;
  flushPendingMessages ;;
  s <- getSession ;;
  match roomId s with
  | Some room =>
      when (truthy (roomId s) && isReconnecting s)
        (sendMessage (ClientMessage.JOIN_ROOM room (oderId s) (Some (userName s))))
  | None => ret tt
  end ;;
  startHeartbeat ;;
  broadcastStatusToAllTabs.

(** What a run of [sendMessage] over [messages] puts on the wire while the
    session is connected and not reconnecting: on an open socket, the messages
    on which [send] does not throw; otherwise nothing. *)
Definition transmitted (s : SessionState) (messages : list ClientMessage.t)
  : list ClientMessage.t :=
  if socketIs OPEN s
  then filter (fun m => negb (socketSendThrows m)) messages
  else [].

End Environment.

(** [session.socket.onclose], with [code] the close code of the event. *)
Definition onclose (code : Z) : M unit :=
  emit ClearConnectionTimeout ;;
  updateSession (set_connected false) ;;
  updateSession (set_socket None) ;;
  stopHeartbeat ;;
  broadcastStatusToAllTabs ;;
  s <- getSession ;;
  if (code =? 1000) || negb (truthy (roomId s)) then ret tt
  else if (reconnectAttempts s <? MAX_RECONNECT_ATTEMPTS)%nat then
    updateSession (fun s => set_reconnectAttempts (S (reconnectAttempts s)) s) ;;
    updateSession (set_isReconnecting true) ;;
    s <- getSession ;;
    let delay := reconnectDelay (reconnectAttempts s) in
    emit (Call_forwardToAllTabs
            (TabMessage.CONNECTION_STATUS
               (reconnecting (reconnectAttempts s) MAX_RECONNECT_ATTEMPTS))) ;;
    emit (SetTimeoutConnect delay)
  else
    updateSession (set_isReconnecting false) ;;
    emit (Call_forwardToAllTabs
            (TabMessage.CONNECTION_STATUS
               (failed "Could not reconnect to server. Please reload the page."))) ;;
    updateSession clearRoomState ;;
    broadcastStatusToAllTabs.

(** ** Message router *)

(** [handleServerMessage], with [now] the value of [Date.now()].  The source
    lists [JOINER_READY_NOTIFICATION] twice; a [switch] runs the first
    matching case, which is the one given here. *)
Definition handleServerMessage (now : Z) (message : ServerMessage.t) : M unit :=
  match message with
  | ServerMessage.ROOM_CREATED room host id =>
      updateSession (set_oderId id) ;;
      updateSession (set_roomId (Some room)) ;;
      updateSession (set_isHost host) ;;
      updateSession (set_userCount 1) ;;
      updateSession (fun s =>
        set_users [ {| UserInfo.oderId := oderId s;
                       UserInfo.name :=
                         (if (userName s =? "")%string then "You" else userName s)%string;
                       UserInfo.canControl := true;
                       UserInfo.isHost := true |} ] s) ;;
      releaseRoomLock ;;
      emit Call_saveSessionState ;;
      broadcastStatusToAllTabs
  | ServerMessage.ROOM_JOINED room count host us id =>
      updateSession (set_oderId id) ;;
      updateSession (set_roomId (Some room)) ;;
      updateSession (set_isHost host) ;;
      updateSession (set_userCount count) ;;
      updateSession (set_users us) ;;
      match findUser id us with
      | Some myUser => updateSession (set_canControl (UserInfo.canControl myUser))
      | None => ret tt
      end ;;
      releaseRoomLock ;;
      emit Call_saveSessionState ;;
      broadcastStatusToAllTabs
  | ServerMessage.ROOM_LEFT _ =>
      updateSession clearRoomState ;;
      releaseRoomLock ;;
      emit (StorageRemove ["lastRoomId"; "lastConnectionTime"]%string) ;;
      broadcastStatusToAllTabs
  | ServerMessage.SYNC_EVENT _ id event =>
      s <- getSession ;;
      if (id =? oderId s)%string then ret tt
      else emit (Call_forwardToAllTabs (TabMessage.APPLY_SYNC event))
  | ServerMessage.NAVIGATE _ id navigation =>
      s <- getSession ;;
      if (id =? oderId s)%string then ret tt
      else
        updateSession (set_currentUrl (Some (NavigationEvent.url navigation))) ;;
        updateSession (set_currentPlatform (Some (NavigationEvent.platform navigation))) ;;
        emit (Call_forwardToAllTabs (TabMessage.NAVIGATE navigation))
  | ServerMessage.STATE_REQUEST _ _ =>
      emit Call_requestPlayerState
  | ServerMessage.JOINER_READY_NOTIFICATION _ joiner =>
      emit (Call_forwardToAllTabs (TabMessage.START_PLAYBACK_FOR_JOINER joiner))
  | ServerMessage.STATE_UPDATE _ playing currentTime =>
      let syncEvent := {| SyncEvent.type := if playing then PLAY else PAUSE;
                          SyncEvent.time := currentTime;
                          SyncEvent.timestamp := now;
                          SyncEvent.videoId := None |} in
      emit (Call_forwardToAllTabs (TabMessage.APPLY_SYNC syncEvent))
  | ServerMessage.USER_JOINED _ _ _ count us =>
      updateSession (set_userCount count) ;;
      updateSession (set_users us) ;;
      broadcastStatusToAllTabs ;;
      s <- getSession ;;
      when (isHost s) (emit Call_requestPlayerState)
  | ServerMessage.USER_LEFT _ _ count newHostId us =>
      updateSession (set_userCount count) ;;
      updateSession (set_users us) ;;
      s <- getSession ;;
      match newHostId with
      | Some newHost =>
          when (newHost =? oderId s)%string (updateSession (set_isHost true))
      | None => ret tt
      end ;;
      broadcastStatusToAllTabs
  | ServerMessage.USER_KICKED _ id reason =>
      s <- getSession ;;
      if (id =? oderId s)%string then
        updateSession clearRoomState ;;
        broadcastStatusToAllTabs ;;
        emit (Call_forwardToAllTabs (TabMessage.KICKED reason))
      else ret tt
  | ServerMessage.USERS_LIST _ us =>
      updateSession (set_users us) ;;
      s <- getSession ;;
      match findUser (oderId s) us with
      | Some me =>
          updateSession (set_canControl (UserInfo.canControl me)) ;;
          updateSession (set_isHost (UserInfo.isHost me))
      | None => ret tt
      end ;;
      broadcastStatusToAllTabs
  | ServerMessage.PERMISSION_CHANGED _ id allowed =>
      s <- getSession ;;
      when (id =? oderId s)%string (updateSession (set_canControl allowed)) ;;
      broadcastStatusToAllTabs
  | ServerMessage.ERROR code message =>
      releaseRoomLock ;;
      when ((code =? "ROOM_NOT_FOUND")%string || includes message "does not exist")
        (updateSession clearRoomState ;;
         broadcastStatusToAllTabs) ;;
      emit (Call_forwardToAllTabs (TabMessage.ERROR code message))
  | ServerMessage.HEARTBEAT_ACK => ret tt
  end.

(** ** The asynchronous [forwardToAllTabs]

    Its body, run to completion on the globals it finds:
    [tabsSendMessageRejects tabId] says whether [chrome.tabs.sendMessage]
    to that tab rejects (the tab is gone).  A send is attempted to every
    active tab, the dead ones are then removed, and the message is sent to
    the other extension contexts. *)
Definition forwardToAllTabs (tabsSendMessageRejects : nat -> bool)
    (message : TabMessage.t) : M unit :=
  g <- get ;;
  forEach (activeTabs g) (fun tabId => emit (TabsSendMessage tabId message)) ;;
  let deadTabs := filter tabsSendMessageRejects (activeTabs g) in
  let isDead := fun tabId => existsb (Nat.eqb tabId) deadTabs in
  g <- get ;;
  setTabs (filter (fun tabId => negb (isDead tabId)) (activeTabs g))
          (filter (fun st => negb (isDead (TabState.tabId st))) (tabStates g)) ;;
  emit (RuntimeSendMessage message).

(** ** Tab registry *)

(** Truthiness of a tab id ([number | undefined]): [undefined] and 0 are
    falsy. *)
Definition truthyTab (tabId : option nat) : bool :=
  match tabId with
  | Some (S _) => true
  | _ => false
  end.

(** [activeTabs.add(tabId)]: a [Set] keeps insertion order and no
    repetition. *)
Definition setAdd (tabId : nat) (tabs : list nat) : list nat :=
  if existsb (Nat.eqb tabId) tabs then tabs else tabs ++ [tabId].

(** [activeTabs.delete(tabId)] *)
Definition setDelete (tabId : nat) (tabs : list nat) : list nat :=
  filter (fun t => negb (Nat.eqb t tabId)) tabs.

(** [tabStates.has(tabId)] *)
Definition mapHas (tabId : nat) (states : list TabState.t) : bool :=
  existsb (fun st => Nat.eqb (TabState.tabId st) tabId) states.

(** [tabStates.set(tabId, state)]: an existing key keeps its place. *)
Fixpoint mapSet (state : TabState.t) (states : list TabState.t)
  : list TabState.t :=
  match states with
  | [] => [state]
  | st :: rest =>
      if Nat.eqb (TabState.tabId st) (TabState.tabId state)
      then state :: rest
      else st :: mapSet state rest
  end.

(** [tabStates.delete(tabId)] *)
Definition mapDelete (tabId : nat) (states : list TabState.t) : list TabState.t :=
  filter (fun st => negb (Nat.eqb (TabState.tabId st) tabId)) states.

(** The in-place update of the state object [tabStates.get(tabId)]. *)
Definition mapUpdate (tabId : nat) (f : TabState.t -> TabState.t)
    (states : list TabState.t) : list TabState.t :=
  map (fun st => if Nat.eqb (TabState.tabId st) tabId then f st else st) states.

(** [.sort((a, b) => b.lastActivity - a.lastActivity)]: most recent first,
    stable. *)
Fixpoint insertByActivity (x : TabState.t) (l : list TabState.t)
  : list TabState.t :=
  match l with
  | [] => [x]
  | y :: l' =>
      if (TabState.lastActivity y <=? TabState.lastActivity x)%Z
      then x :: l
      else y :: insertByActivity x l'
  end.

Fixpoint sortByActivity (l : list TabState.t) : list TabState.t :=
  match l with
  | [] => []
  | x :: l' => insertByActivity x (sortByActivity l')
  end.

(** [getPrimaryTab] *)
Definition getPrimaryTab (states : list TabState.t) : option nat :=
  let visibleTabs :=
    sortByActivity
      (filter (fun st => TabState.visible st && TabState.hasAdapter st) states) in
  match visibleTabs with
  | first :: _ => Some (TabState.tabId first)
  | [] =>
      let tabsWithAdapter :=
        sortByActivity (filter (fun st => TabState.hasAdapter st) states) in
      match tabsWithAdapter with
      | first :: _ => Some (TabState.tabId first)
      | [] => None
      end
  end.

(** ** Requests from the popup and the content scripts *)

Definition set_userName (v : string) (s : SessionState) : SessionState :=
  mkSession (oderId s) (socket s) (roomId s) (isHost s) (userCount s) (users s)
    (connected s) (reconnectAttempts s) (heartbeatInterval s) v
    (canControl s) (isReconnecting s) (lastSuccessfulConnection s)
    (pendingMessages s) (connectionId s) (currentUrl s) (currentPlatform s).

(** A JavaScript number as a request payload may carry it. *)
Inductive JsNumber : Set :=
| Finite (q : Q)
| NaN
| PosInfinity
| NegInfinity.

(** The payload of [PLAYER_EVENT] as it arrives: [type] may be missing, and
    [time] may be something that is not a number ([None]). *)
Module RawSyncEvent.
Record t : Set := mk {
  type : option SyncEventType;
  time : option JsNumber;
  timestamp : Z;
  videoId : option string
}.
End RawSyncEvent.

(** The payload of [NAVIGATION_EVENT] as it arrives. *)
Module RawNavigation.
Record t : Set := mk {
  url : option string;
  platform : option Platform;
  timestamp : Z
}.
End RawNavigation.

(** The messages [handleMessage] knows, with their payloads; [UNKNOWN] is
    any other [type]. *)
Module Request.
Inductive t : Set :=
| CONNECT
| DISCONNECT
| CREATE_ROOM (userName : option string)
| JOIN_ROOM (roomId : option string) (userName : option string)
| AUTO_JOIN_ROOM (roomId : option string)
| LEAVE_ROOM
| PLAYER_EVENT (payload : option RawSyncEvent.t)
| NAVIGATION_EVENT (payload : option RawNavigation.t)
| FORCE_SYNC
| JOINER_READY
| OPEN_POPUP
| KICK_USER (targetUserId : string)
| SET_PERMISSION (targetUserId : string) (canControl : bool)
| SET_NAME (name : string)
| GET_USERS
| GET_STATUS
| REGISTER_TAB
| TAB_VISIBILITY (visible : bool)
| ADAPTER_STATUS (hasAdapter : bool) (platform : Platform)
| UPDATE_CURRENT_URL (url : option string) (platform : option Platform)
| UNKNOWN (type : string).
End Request.

(** What is passed to [sendResponse]; [later] when the answer is left to an
    asynchronous call. *)
Module Response.
Inductive t : Set :=
| success
| success_users (users : list UserInfo.t)
| success_status (status : StatusPayload.t)
| failure (error : string)
| later.
End Response.

(** The message a deferred send will build, from the session of that
    moment. *)
Inductive Deferred : Set :=
| doCreate
| doJoin (targetRoomId : string).

(** The callbacks a request handler registers. *)
Inductive Scheduled : Set :=
| setInterval_checkConnection (action : Deferred) (period : Z)
| setTimeout_connectDeadline (delay : Z)
| then_autoJoin (targetRoomId : string)
| then_forceSync
| call_openPopup.

(** The outcome of a request for its sender: the response and the callbacks
    left behind. *)
Record Reply : Set := mkReply {
  response : Response.t;
  scheduled : list Scheduled
}.

Definition respond (r : Response.t) : M Reply := ret (mkReply r []).

Section Requests.

(** Beside the socket's behaviour, the two library calls whose results the
    handler depends on: [String.prototype.toUpperCase] and whether
    [new URL(url)] accepts a string. *)
Variable socketSendThrows : ClientMessage.t -> bool.
Variable newWebSocketThrows : bool.
Variable toUpperCase : string -> string.
Variable validURL : string -> bool.

(** The block [sendMessage(leaveMsg); roomId = null; ...] that leaves the
    current room, when there is one. *)
Definition leaveCurrentRoom : M unit :=
  s <- getSession ;;
  match roomId s with
  | Some room =>
      when (truthy (roomId s))
        (sendMessage socketSendThrows newWebSocketThrows
           (ClientMessage.LEAVE_ROOM room (oderId s)) ;;
         updateSession clearRoomState)
  | None => ret tt
  end.

(** The closures [doCreate] and [doJoin]. *)
Definition runDeferred (action : Deferred) : M unit :=
  s <- getSession ;;
  match action with
  | doCreate =>
      sendMessage socketSendThrows newWebSocketThrows
        (ClientMessage.CREATE_ROOM (oderId s) (Some (userName s)))
  | doJoin target =>
      sendMessage socketSendThrows newWebSocketThrows
        (ClientMessage.JOIN_ROOM target (oderId s) (Some (userName s)))
  end.

(** [if (!session.connected) { connect(); setInterval(...); setTimeout(...) }
    else { action() }], then the success response. *)
Definition sendWhenConnected (action : Deferred) : M Reply :=
  s <- getSession ;;
  if negb (connected s) then
    connect newWebSocketThrows ;;
    ret (mkReply Response.success
           [setInterval_checkConnection action 100;
            setTimeout_connectDeadline 10000])
  else
    runDeferred action ;;
    respond Response.success.

(** The interval callback [checkConnection]: it returns whether it cleared
    its interval. *)
Definition checkConnection (action : Deferred) : M bool :=
  s <- getSession ;;
  if connected s then runDeferred action ;; ret true
  else ret false.

(** The 10 s timeout beside it. *)
Definition connectDeadline : M unit :=
  s <- getSession ;;
  when (negb (connected s)) releaseRoomLock.

(** [handleMessage(tabId, message, sendResponse)], with [now] the value of
    [Date.now()].  The source lists [JOINER_READY] twice; the first case is
    the one a [switch] runs. *)
Definition handleMessage (now : Z) (tabId : option nat) (message : Request.t)
  : M Reply :=
  match message with
  | Request.CONNECT =>
      connect newWebSocketThrows ;;
      respond Response.success
  | Request.DISCONNECT =>
      disconnect ;;
      respond Response.success
  | Request.CREATE_ROOM name =>
      locked <- acquireRoomLock now (PendingOperation.mk OP_CREATE_ROOM now None) ;;
      if negb locked
      then respond (Response.failure "Another room operation is in progress")
      else
        match name with
        | Some n => when (truthy name) (updateSession (set_userName n))
        | None => ret tt
        end ;;
        leaveCurrentRoom ;;
        sendWhenConnected doCreate
  | Request.JOIN_ROOM room name =>
      match room with
      | None => respond (Response.failure "Room ID required")
      | Some r =>
          if negb (truthy room)
          then respond (Response.failure "Room ID required")
          else
            let targetRoomId := toUpperCase r in
            locked <- acquireRoomLock now
                        (PendingOperation.mk OP_JOIN_ROOM now (Some targetRoomId)) ;;
            if negb locked
            then respond (Response.failure "Another room operation is in progress")
            else
              s <- getSession ;;
              if match roomId s with
                 | Some current => (current =? targetRoomId)%string
                 | None => false
                 end
              then releaseRoomLock ;; respond Response.success
              else
                match name with
                | Some n => when (truthy name) (updateSession (set_userName n))
                | None => ret tt
                end ;;
                leaveCurrentRoom ;;
                sendWhenConnected (doJoin targetRoomId)
      end
  | Request.AUTO_JOIN_ROOM room =>
      match room with
      | None => respond (Response.failure "Room ID required")
      | Some r =>
          if negb (truthy room)
          then respond (Response.failure "Room ID required")
          else
            let targetRoomId := toUpperCase r in
            locked <- acquireRoomLock now
                        (PendingOperation.mk OP_JOIN_ROOM now (Some targetRoomId)) ;;
            if negb locked
            then respond (Response.failure "Another room operation is in progress")
            else
              s <- getSession ;;
              if match roomId s with
                 | Some current => (current =? targetRoomId)%string
                 | None => false
                 end
              then releaseRoomLock ;; respond Response.success
              else ret (mkReply Response.success [then_autoJoin targetRoomId])
      end
  | Request.LEAVE_ROOM =>
      s <- getSession ;;
      when (truthy (roomId s))
        (leaveCurrentRoom ;;
         broadcastStatusToAllTabs) ;;
      respond Response.success
  | Request.PLAYER_EVENT payload =>
      s <- getSession ;;
      match roomId s with
      | None => respond (Response.failure "Not in a room")
      | Some room =>
          if negb (truthy (roomId s))
          then respond (Response.failure "Not in a room")
          else if negb (canControl s)
          then respond (Response.failure "No control permission")
          else
            match payload with
            | Some (RawSyncEvent.mk (Some type) (Some time) timestamp videoId) =>
                match time with
                | Finite q =>
                    if AdaptiveSync.Qltb q 0
                    then respond (Response.failure "Invalid time value")
                    else
                      sendMessage socketSendThrows newWebSocketThrows
                        (ClientMessage.SYNC_EVENT room (oderId s)
                           (SyncEvent.mk type q timestamp videoId)) ;;
                      respond Response.success
                | _ => respond (Response.failure "Invalid time value")
                end
            | _ => respond (Response.failure "Invalid event data")
            end
      end
  | Request.NAVIGATION_EVENT payload =>
      s <- getSession ;;
      match roomId s with
      | None => respond (Response.failure "Not in a room")
      | Some room =>
          if negb (truthy (roomId s))
          then respond (Response.failure "Not in a room")
          else if negb (canControl s)
          then respond (Response.failure "No control permission")
          else
            match payload with
            | Some (RawNavigation.mk (Some url) (Some platform) timestamp) =>
                if negb (truthy (Some url))
                then respond (Response.failure "Invalid navigation data")
                else if negb (validURL url)
                then respond (Response.failure "Invalid URL")
                else
                  updateSession (set_currentUrl (Some url)) ;;
                  updateSession (set_currentPlatform (Some platform)) ;;
                  sendMessage socketSendThrows newWebSocketThrows
                    (ClientMessage.NAVIGATE room (oderId s)
                       (NavigationEvent.mk url platform timestamp)) ;;
                  respond Response.success
            | _ => respond (Response.failure "Invalid navigation data")
            end
      end
  | Request.FORCE_SYNC =>
      s <- getSession ;;
      if negb (truthy (roomId s))
      then respond (Response.failure "Not in a room")
      else if negb (canControl s)
      then respond (Response.failure "No control permission")
      else ret (mkReply Response.later [then_forceSync])
  | Request.JOINER_READY =>
      s <- getSession ;;
      match roomId s with
      | Some room =>
          when (truthy (roomId s))
            (sendMessage socketSendThrows newWebSocketThrows
               (ClientMessage.JOINER_READY room (oderId s)))
      | None => ret tt
      end ;;
      respond Response.success
  | Request.OPEN_POPUP =>
      ret (mkReply Response.success [call_openPopup])
  | Request.KICK_USER target =>
      s <- getSession ;;
      match roomId s with
      | Some room =>
          when (truthy (roomId s) && isHost s)
            (sendMessage socketSendThrows newWebSocketThrows
               (ClientMessage.KICK_USER room (oderId s) target))
      | None => ret tt
      end ;;
      respond Response.success
  | Request.SET_PERMISSION target allowed =>
      s <- getSession ;;
      match roomId s with
      | Some room =>
          when (truthy (roomId s) && isHost s)
            (sendMessage socketSendThrows newWebSocketThrows
               (ClientMessage.SET_PERMISSION room (oderId s) target allowed))
      | None => ret tt
      end ;;
      respond Response.success
  | Request.SET_NAME name =>
      updateSession (set_userName name) ;;
      s <- getSession ;;
      when (connected s)
        (sendMessage socketSendThrows newWebSocketThrows
           (ClientMessage.SET_NAME (oderId s) name)) ;;
      respond Response.success
  | Request.GET_USERS =>
      s <- getSession ;;
      match roomId s with
      | Some room =>
          when (truthy (roomId s))
            (sendMessage socketSendThrows newWebSocketThrows
               (ClientMessage.GET_USERS room (oderId s)))
      | None => ret tt
      end ;;
      s <- getSession ;;
      respond (Response.success_users (users s))
  | Request.GET_STATUS =>
      s <- getSession ;;
      respond (Response.success_status (currentStatus s))
  | Request.REGISTER_TAB =>
      match tabId with
      | Some tab =>
          when (truthyTab tabId)
            (g <- get ;;
             setTabs (setAdd tab (activeTabs g))
                     (mapSet (TabState.mk tab true None false now) (tabStates g)))
      | None => ret tt
      end ;;
      respond Response.success
  | Request.TAB_VISIBILITY visible =>
      match tabId with
      | Some tab =>
          g <- get ;;
          when (truthyTab tabId && mapHas tab (tabStates g))
            (setTabs (activeTabs g)
               (mapUpdate tab
                  (fun st => TabState.mk (TabState.tabId st) visible
                               (TabState.platform st) (TabState.hasAdapter st) now)
                  (tabStates g)))
      | None => ret tt
      end ;;
      respond Response.success
  | Request.ADAPTER_STATUS adapter platform =>
      match tabId with
      | Some tab =>
          g <- get ;;
          when (truthyTab tabId && mapHas tab (tabStates g))
            (setTabs (activeTabs g)
               (mapUpdate tab
                  (fun st => TabState.mk (TabState.tabId st) (TabState.visible st)
                               (Some platform) adapter now)
                  (tabStates g)))
      | None => ret tt
      end ;;
      respond Response.success
  | Request.UPDATE_CURRENT_URL url platform =>
      match url, platform with
      | Some u, Some p =>
          when (truthy url)
            (updateSession (set_currentUrl (Some u)) ;;
             updateSession (set_currentPlatform (Some p)))
      | _, _ => ret tt
      end ;;
      respond Response.success
  | Request.UNKNOWN type =>
      respond (Response.failure ("Unknown message type: " ++ type)%string)
  end.

(** The [chrome.runtime.onMessage] listener; [sender] is [sender.tab?.id]. *)
Definition onMessage (now : Z) (sender : option nat) (message : Request.t)
  : M Reply :=
  match sender with
  | Some tab =>
      when (truthyTab sender)
        (g <- get ;; setTabs (setAdd tab (activeTabs g)) (tabStates g))
  | None => ret tt
  end ;;
  handleMessage now sender message.

(** [isSupportedPlatform(url)] *)
Definition isSupportedPlatform (url : option string) : bool :=
  match url with
  | None => false
  | Some u =>
      if negb (truthy url) then false
      else
        (includes u "youtube.com" ||
         includes u "netflix.com" ||
         includes u "crunchyroll.com" ||
         includes u "vimeo.com" ||
         includes u "dailymotion.com" ||
         includes u "animedigitalnetwork.fr" ||
         includes u "anime-sama.si" ||
         includes u "twitch.tv" ||
         includes u "disneyplus.com" ||
         includes u "primevideo.com" ||
         includes u "amazon.com/" && includes u "video" ||
         includes u "max.com")%string
  end.

(** [checkAndLeaveRoom], up to its first [await]: it returns the room whose
    departure the rest of the function announces to every tab. *)
Definition checkAndLeaveRoom : M (option string) :=
  g <- get ;;
  match roomId (session g) with
  | Some room =>
      if (length (activeTabs g) =? 0)%nat && truthy (roomId (session g)) then
        sendMessage socketSendThrows newWebSocketThrows
          (ClientMessage.LEAVE_ROOM room (oderId (session g))) ;;
        updateSession clearRoomState ;;
        broadcastStatusToAllTabs ;;
        ret (Some room)
      else ret None
  | None => ret None
  end.

(** The [chrome.tabs.onRemoved] listener. *)
Definition onRemoved (tabId : nat) : M (option string) :=
  g <- get ;;
  let wasActive := existsb (Nat.eqb tabId) (activeTabs g) in
  setTabs (setDelete tabId (activeTabs g)) (mapDelete tabId (tabStates g)) ;;
  if wasActive then checkAndLeaveRoom else ret None.

(** The [chrome.tabs.onUpdated] listener: [changedUrl] is [changeInfo.url],
    [tabUrl] is [tab.url]. *)
Definition onUpdated (tabId : nat) (changedUrl tabUrl : option string)
  : M (option string) :=
  if truthy changedUrl then
    g <- get ;;
    let wasActive := existsb (Nat.eqb tabId) (activeTabs g) in
    let isSupported := isSupportedPlatform tabUrl in
    if wasActive && negb isSupported then
      setTabs (setDelete tabId (activeTabs g)) (tabStates g) ;;
      checkAndLeaveRoom
    else if negb wasActive && isSupported then
      setTabs (setAdd tabId (activeTabs g)) (tabStates g) ;;
      ret None
    else ret None
  else ret None.

End Requests.

(** ** The callbacks the script registers

    The entry points through which the browser runs the code modelled
    above.  An [onmessage] frame that does not parse is dropped ([None]);
    the reconnect timer runs [connect]; the heartbeat interval sends a
    [HEARTBEAT]; [forwardToAllTabs] is the body of the asynchronous call.
    Not among them: the timer that gives up on a socket still connecting
    after 10 s, the continuation of [AUTO_JOIN_ROOM] once the stored name
    is read, and the bodies of [forceSync], [requestPlayerState],
    [loadStoredSession] and [saveSessionState]. *)
Inductive EntryPoint : Set :=
| socket_onopen (now : Z)
| socket_onclose (code : Z)
| socket_onmessage (now : Z) (message : option ServerMessage.t)
| timer_reconnect
| timer_heartbeat
| runtime_onMessage (now : Z) (sender : option nat) (message : Request.t)
| timer_checkConnection (action : Deferred)
| timer_connectDeadline
| tabs_onRemoved (tabId : nat)
| tabs_onUpdated (tabId : nat) (changedUrl tabUrl : option string)
| async_forwardToAllTabs (message : TabMessage.t).

Section Entries.

Variable socketSendThrows : ClientMessage.t -> bool.
Variable newWebSocketThrows : bool.
Variable toUpperCase : string -> string.
Variable validURL : string -> bool.
Variable tabsSendMessageRejects : nat -> bool.

Definition enter (entry : EntryPoint) : M unit :=
  match entry with
  | socket_onopen now => onopen socketSendThrows newWebSocketThrows now
  | socket_onclose code => onclose code
  | socket_onmessage now (Some message) => handleServerMessage now message
  | socket_onmessage now None => ret tt
  | timer_reconnect => connect newWebSocketThrows
  | timer_heartbeat =>
      s <- getSession ;;
      sendMessage socketSendThrows newWebSocketThrows
        (ClientMessage.HEARTBEAT (oderId s))
  | runtime_onMessage now sender message =>
      onMessage socketSendThrows newWebSocketThrows toUpperCase validURL
        now sender message ;;
      ret tt
  | timer_checkConnection action =>
      checkConnection socketSendThrows newWebSocketThrows action ;;
      ret tt
  | timer_connectDeadline => connectDeadline
  | tabs_onRemoved tabId =>
      onRemoved socketSendThrows newWebSocketThrows tabId ;;
      ret tt
  | tabs_onUpdated tabId changedUrl tabUrl =>
      onUpdated socketSendThrows newWebSocketThrows tabId changedUrl tabUrl ;;
      ret tt
  | async_forwardToAllTabs message =>
      forwardToAllTabs tabsSendMessageRejects message
  end.

(** The globals after a sequence of callbacks, each entered on the state
    the previous one left. *)
Fixpoint enterAll (entries : list EntryPoint) (g : Globals) : Globals :=
  match entries with
  | [] => g
  | entry :: rest => enterAll rest (globals (enter entry g))
  end.

End Entries.

(** The effects a handler run leaves, by kind. *)

Definition sentToSocket (es : list Effect) : list ClientMessage.t :=
  flat_map (fun e => match e with SocketSend m => [m] | _ => [] end) es.

Definition scheduledReconnects (es : list Effect) : list Z :=
  flat_map (fun e => match e with SetTimeoutConnect d => [d] | _ => [] end) es.

Definition forwarded (es : list Effect) : list TabMessage.t :=
  flat_map (fun e => match e with Call_forwardToAllTabs m => [m] | _ => [] end) es.

Definition isFailedNotification (m : TabMessage.t) : bool :=
  match m with
  | TabMessage.CONNECTION_STATUS (failed _) => true
  | _ => false
  end.

Definition isJoinRoom (m : ClientMessage.t) : bool :=
  match m with
  | ClientMessage.JOIN_ROOM _ _ _ => true
  | _ => false
  end.

(** The session's own flags agree with the local participant's entry of the
    member list. *)
Definition flagsFromMemberList (s : SessionState) : Prop :=
  forall me,
    findUser (oderId s) (users s) = Some me ->
    isHost s = UserInfo.isHost me /\ canControl s = UserInfo.canControl me.

(** The outbound queue holds at most 50 messages, all of them durable, none
    of them twice. *)
Definition queueInvariant (q : list ClientMessage.t) : Prop :=
  (length q <= 50)%nat /\
  Forall (fun m => shouldQueueMessage m = true) q /\
  NoDup q.

(** A handler keeps a relation [R] between the globals it starts from and
    those it leaves, and its trace satisfies [T]. *)
Definition keeps {A} (R : Globals -> Globals -> Prop) (T : list Effect -> Prop)
    (m : M A) : Prop :=
  forall g, R g (globals (m g)) /\ T (effects (m g)).

(** What lets a frame be followed through a handler one step at a time:
    the relation is a preorder, and the condition on traces holds of the
    empty trace and of concatenations. *)
Class Frame (R : Globals -> Globals -> Prop) (T : list Effect -> Prop) : Prop := {
  frame_refl : forall g, R g g;
  frame_trans : forall g1 g2 g3, R g1 g2 -> R g2 g3 -> R g1 g3;
  frame_nil : T [];
  frame_app : forall es1 es2, T es1 -> T es2 -> T (es1 ++ es2)
}.

(** The globals agree on what belongs to the connection manager and the tab
    registry. *)
Definition sameConnection (g g' : Globals) : Prop :=
  socket (session g') = socket (session g) /\
  connected (session g') = connected (session g) /\
  isReconnecting (session g') = isReconnecting (session g) /\
  reconnectAttempts (session g') = reconnectAttempts (session g) /\
  heartbeatInterval (session g') = heartbeatInterval (session g) /\
  lastSuccessfulConnection (session g') = lastSuccessfulConnection (session g) /\
  pendingMessages (session g') = pendingMessages (session g) /\
  userName (session g') = userName (session g) /\
  activeTabs g' = activeTabs g /\
  tabStates g' = tabStates g.

(** A trace with no write to the socket and no reconnect timer. *)
Definition offTheWire (es : list Effect) : Prop :=
  sentToSocket es = [] /\ scheduledReconnects es = [].

(** The three facts the connection manager keeps about the session: the
    outbound queue is well formed, the attempt counter does not pass its
    cap, and the heartbeat interval is held exactly while the session is
    marked connected. *)
Definition sessionInvariant (g : Globals) : Prop :=
  queueInvariant (pendingMessages (session g)) /\
  (reconnectAttempts (session g) <= MAX_RECONNECT_ATTEMPTS)%nat /\
  heartbeatInterval (session g) = connected (session g).

(** ** Sample states *)

(** A guest in room ABCD1234 on an open socket, with two tabs. *)
Definition guestEntry : UserInfo.t :=
  UserInfo.mk "user_1" "Ada" true false.

Definition hostEntry : UserInfo.t :=
  UserInfo.mk "user_0" "Bob" true true.

Definition guestSession : SessionState :=
  set_connected true
    (set_socket (Some OPEN)
       (set_users [hostEntry; guestEntry]
          (set_userCount 2
             (set_roomId (Some "ABCD1234"%string)
                (initialSession "user_1" "c-1"))))).

Definition guestGlobals : Globals :=
  mkGlobals guestSession [3%nat; 8%nat] [] None.

(** The same guest after the socket dropped once: no socket, a reconnect
    under way. *)
Definition droppedSession : SessionState :=
  set_isReconnecting true
    (set_reconnectAttempts 1
       (set_connected false (set_socket None guestSession))).

(** Fifty different durable messages. *)
Definition fullQueue : list ClientMessage.t :=
  map (fun k => ClientMessage.KICK_USER "ABCD1234" "user_1"
                  (String (ascii_of_nat k) EmptyString))
      (seq 0 50).

Definition droppedGlobals (queue : list ClientMessage.t) : Globals :=
  mkGlobals (set_pendingMessages queue droppedSession) [3%nat; 8%nat] [] None.

(** A join request issued at time 1000 and not yet answered. *)
Definition lockedGlobals : Globals :=
  mkGlobals (initialSession "user_1" "c-1") [] []
    (Some (PendingOperation.mk OP_JOIN_ROOM 1000 (Some "ABCD1234"%string))).

(** The moment the replacement socket opens: the session is still in the
    room and still marked as reconnecting, nothing is queued. *)
Definition reopenedGlobals : Globals :=
  mkGlobals (set_socket (Some OPEN) droppedSession) [3%nat; 8%nat] [] None.

(** The replacement socket is open while a name change is still queued. *)
Definition reopenedWithQueue : Globals :=
  mkGlobals
    (set_pendingMessages [ClientMessage.SET_NAME "user_1" "Ada"]%string
       (session reopenedGlobals))
    [3%nat; 8%nat] [] None.

End Background.

(* ===================================================================== *)
(** * Properties of double arithmetic *)
(* ===================================================================== *)

(** ** Rounding to the nearest double is monotone *)

Section Rounding.

Import Double.
Local Open Scope Q_scope.

Lemma pow2_pos (k : Z) : 0 < 2 ^ k.
Proof. apply Qpower_0_lt. reflexivity. Qed.

Lemma pow2_le (a b : Z) : (a <= b)%Z -> 2 ^ a <= 2 ^ b.
Proof. intro H. apply Qpower_le_compat_l; [exact H | discriminate]. Qed.

Lemma pow2_lt_inv (a b : Z) : 2 ^ a < 2 ^ b -> (a < b)%Z.
Proof. intro H. apply (Qpower_lt_compat_l_inv 2); [exact H | reflexivity]. Qed.

Lemma pow2_Z (k : Z) : (0 <= k)%Z -> inject_Z (2 ^ k) == 2 ^ k.
Proof. intro H. apply (Zpower_Qpower 2 k H). Qed.

Lemma pow2_minus (a b : Z) : 2 ^ (a - b) == 2 ^ a / 2 ^ b.
Proof. apply Qpower_minus. discriminate. Qed.

Lemma ilog2_spec (q : Q) :
  0 < q -> 2 ^ ilog2 q <= q /\ q < 2 ^ (ilog2 q + 1).
Proof.
  intro Hq. unfold ilog2.
  set (n := Qnum q). set (d := Zpos (Qden q)).
  assert (0 < n)%Z as Hn by (unfold Qlt in Hq; cbn in Hq; subst n; lia).
  set (a := Z.log2 n). set (b := Z.log2 d).
  destruct (Z.log2_spec n Hn) as [Ha1 Ha2]. fold a in Ha1, Ha2.
  destruct (Z.log2_spec d ltac:(subst d; lia)) as [Hb1 Hb2]. fold b in Hb1, Hb2.
  assert (0 <= a)%Z as Ha0 by apply Z.log2_nonneg.
  assert (0 <= b)%Z as Hb0 by apply Z.log2_nonneg.
  assert (q * inject_Z d == inject_Z n) as Hqd.
  { subst n d. destruct q as [qn qd]. cbn [Qnum Qden].
    rewrite (Qmake_Qdiv qn qd). field. discriminate. }
  (* the integer bounds, as rationals *)
  assert (2 ^ a <= inject_Z n) as A1.
  { rewrite <- pow2_Z by exact Ha0. rewrite <- Zle_Qle. exact Ha1. }
  assert (inject_Z n < 2 ^ (a + 1)) as A2.
  { rewrite <- pow2_Z by lia. rewrite <- Zlt_Qlt. unfold Z.succ in Ha2. exact Ha2. }
  assert (2 ^ b <= inject_Z d) as B1.
  { rewrite <- pow2_Z by exact Hb0. rewrite <- Zle_Qle. exact Hb1. }
  assert (inject_Z d < 2 ^ (b + 1)) as B2.
  { rewrite <- pow2_Z by lia. rewrite <- Zlt_Qlt. unfold Z.succ in Hb2. exact Hb2. }
  assert (2 ^ (a - b - 1) < q) as Hlow.
  { replace (a - b - 1)%Z with (a - (b + 1))%Z by ring. rewrite pow2_minus.
    apply Qlt_shift_div_r; [apply pow2_pos |].
    apply Qle_lt_trans with (inject_Z n); [exact A1 |]. rewrite <- Hqd.
    apply Qmult_lt_l; assumption. }
  assert (q < 2 ^ (a - b + 1)) as Hhigh.
  { replace (a - b + 1)%Z with ((a + 1) - b)%Z by ring. rewrite pow2_minus.
    apply Qlt_shift_div_l; [apply pow2_pos |].
    apply Qle_lt_trans with (inject_Z n); [| exact A2]. rewrite <- Hqd.
    apply Qmult_le_l; assumption. }
  cbv zeta.
  destruct (Qle_bool (2 ^ (a - b)) q) eqn:E.
  - apply Qle_bool_iff in E. split; assumption.
  - assert (q < 2 ^ (a - b)) as Hlt.
    { apply Qnot_le_lt. intro C. apply Qle_bool_iff in C. congruence. }
    replace (a - b - 1 + 1)%Z with (a - b)%Z by ring.
    split; [apply Qlt_le_weak; exact Hlow | exact Hlt].
Qed.

Lemma ilog2_mono (x y : Q) : 0 < x -> x <= y -> (ilog2 x <= ilog2 y)%Z.
Proof.
  intros Hx Hxy.
  destruct (ilog2_spec x Hx) as [Hx1 _].
  destruct (ilog2_spec y ltac:(lra)) as [_ Hy2].
  assert (2 ^ ilog2 x < 2 ^ (ilog2 y + 1)) as H by lra.
  apply pow2_lt_inv in H. lia.
Qed.

Lemma fexp_mono (x y : Q) : 0 < x -> x <= y -> (fexp x <= fexp y)%Z.
Proof.
  intros Hx Hxy. unfold fexp. pose proof (ilog2_mono x y Hx Hxy). lia.
Qed.

Lemma rne_range (q : Q) : (Qfloor q <= rne q <= Qfloor q + 1)%Z.
Proof.
  unfold rne. destruct (Qcompare _ _); [destruct (Z.even _) | |]; lia.
Qed.

Lemma rne_mono (x y : Q) : x <= y -> (rne x <= rne y)%Z.
Proof.
  intro Hxy.
  pose proof (Qfloor_resp_le x y Hxy) as Hf.
  pose proof (rne_range x) as Rx. pose proof (rne_range y) as Ry.
  destruct (Z.eq_dec (Qfloor x) (Qfloor y)) as [E | NE]; [| lia].
  unfold rne in *. rewrite <- E in *.
  destruct (Qcompare_spec (x - inject_Z (Qfloor x)) (1 # 2)) as [Hx | Hx | Hx];
    destruct (Qcompare_spec (y - inject_Z (Qfloor x)) (1 # 2)) as [Hy | Hy | Hy];
    try lia; try lra; destruct (Z.even (Qfloor x)); lia.
Qed.

Lemma rne_Z (z : Z) : rne (inject_Z z) = z.
Proof.
  unfold rne. rewrite Qfloor_Z.
  destruct (Qcompare_spec (inject_Z z - inject_Z z) (1 # 2)) as [H | H | H];
    [lra | reflexivity | lra].
Qed.

Lemma rne_le_Z (q : Q) (z : Z) : q <= inject_Z z -> (rne q <= z)%Z.
Proof. intro H. rewrite <- (rne_Z z). apply rne_mono. exact H. Qed.

Lemma rne_ge_Z (q : Q) (z : Z) : inject_Z z <= q -> (z <= rne q)%Z.
Proof. intro H. rewrite <- (rne_Z z). apply rne_mono. exact H. Qed.

Lemma roundPos_eq (q : Q) :
  roundPos q == inject_Z (rne (q / 2 ^ fexp q)) * 2 ^ fexp q.
Proof. unfold roundPos. apply Qred_correct. Qed.

(** A multiple of [2 ^ j], with [j] at least the exponent of [q], is not
    crossed by rounding [q]. *)
Lemma roundPos_pivot (q : Q) (k j : Z) :
  (fexp q <= j)%Z ->
  (q <= inject_Z k * 2 ^ j -> roundPos q <= inject_Z k * 2 ^ j) /\
  (inject_Z k * 2 ^ j <= q -> inject_Z k * 2 ^ j <= roundPos q).
Proof.
  intro Hj. set (e := fexp q) in *.
  assert (inject_Z k * 2 ^ j == inject_Z (k * 2 ^ (j - e)) * 2 ^ e) as Ep.
  { rewrite inject_Z_mult, pow2_Z by lia. rewrite pow2_minus.
    field. intro C. pose proof (pow2_pos e). lra. }
  pose proof (pow2_pos e) as He.
  rewrite roundPos_eq. fold e. rewrite Ep. split; intro H.
  - apply Qmult_le_compat_r; [| lra]. rewrite <- Zle_Qle. apply rne_le_Z.
    apply Qle_shift_div_r; assumption.
  - apply Qmult_le_compat_r; [| lra]. rewrite <- Zle_Qle. apply rne_ge_Z.
    apply Qle_shift_div_l; assumption.
Qed.

Lemma roundPos_nonneg (q : Q) : 0 < q -> 0 <= roundPos q.
Proof.
  intro Hq.
  destruct (roundPos_pivot q 0 (fexp q) ltac:(lia)) as [_ H].
  assert (inject_Z 0 * 2 ^ fexp q == 0) as E by ring.
  rewrite E in H. apply H. lra.
Qed.

Lemma roundPos_mono (x y : Q) : 0 < x -> x <= y -> roundPos x <= roundPos y.
Proof.
  intros Hx Hxy.
  pose proof (fexp_mono x y Hx Hxy) as He.
  destruct (Z.eq_dec (fexp x) (fexp y)) as [E | NE].
  - rewrite !roundPos_eq. rewrite E.
    pose proof (pow2_pos (fexp y)) as Hp.
    apply Qmult_le_compat_r; [| lra]. rewrite <- Zle_Qle. apply rne_mono.
    apply Qle_shift_div_l; [exact Hp |].
    assert (x / 2 ^ fexp y * 2 ^ fexp y == x) as Ex by (field; lra).
    rewrite Ex. exact Hxy.
  - assert (fexp x < fexp y)%Z as Hlt by lia.
    assert (fexp y = ilog2 y - 52)%Z as Ey by (unfold fexp in *; lia).
    assert (ilog2 x + 1 <= ilog2 y)%Z as Hi by (unfold fexp in *; lia).
    destruct (ilog2_spec x Hx) as [_ Hx2].
    destruct (ilog2_spec y ltac:(lra)) as [Hy1 _].
    pose proof (pow2_le _ _ Hi) as Hpow.
    assert (inject_Z 1 * 2 ^ ilog2 y == 2 ^ ilog2 y) as E1 by ring.
    destruct (roundPos_pivot x 1 (ilog2 y) ltac:(lia)) as [Hxp _].
    destruct (roundPos_pivot y 1 (ilog2 y) ltac:(lia)) as [_ Hyp].
    rewrite E1 in Hxp, Hyp.
    apply Qle_trans with (2 ^ ilog2 y); [apply Hxp; lra | apply Hyp; exact Hy1].
Qed.

Lemma round_nonneg (q : Q) : 0 <= q -> 0 <= round q.
Proof.
  intro Hq. unfold round.
  destruct (Qcompare_spec q 0) as [H | H | H]; [lra | lra |].
  apply roundPos_nonneg. exact H.
Qed.

Lemma round_nonpos (q : Q) : q <= 0 -> round q <= 0.
Proof.
  intro Hq. unfold round.
  destruct (Qcompare_spec q 0) as [H | H | H]; [lra | | lra].
  pose proof (roundPos_nonneg (- q) ltac:(lra)). lra.
Qed.

(** Rounding is monotone. *)
Lemma round_mono (x y : Q) : x <= y -> round x <= round y.
Proof.
  intro Hxy.
  destruct (Qlt_le_dec 0 x) as [Hx | Hx].
  - unfold round.
    destruct (Qcompare_spec x 0) as [H | H | H]; [lra | lra |].
    destruct (Qcompare_spec y 0) as [H' | H' | H']; [lra | lra |].
    apply roundPos_mono; assumption.
  - destruct (Qlt_le_dec 0 y) as [Hy | Hy].
    + apply Qle_trans with 0; [apply round_nonpos | apply round_nonneg]; lra.
    + destruct (Qlt_le_dec y 0) as [Hy' | Hy'].
      * unfold round.
        destruct (Qcompare_spec x 0) as [H | H | H]; [lra | | lra].
        destruct (Qcompare_spec y 0) as [H' | H' | H']; [lra | | lra].
        pose proof (roundPos_mono (- y) (- x) ltac:(lra) ltac:(lra)). lra.
      * assert (round y == 0) as E.
        { unfold round. destruct (Qcompare_spec y 0) as [H | H | H];
            [reflexivity | lra | lra]. }
        rewrite E. apply round_nonpos. lra.
Qed.

Lemma round_zero (q : Q) : q == 0 -> round q == 0.
Proof.
  intro H. apply Qle_antisym; [apply round_nonpos | apply round_nonneg]; lra.
Qed.

Lemma add_mono (x y y' : Q) : y <= y' -> add x y <= add x y'.
Proof. intro H. apply round_mono. lra. Qed.

Lemma sub_mono (x y y' : Q) : y <= y' -> sub x y' <= sub x y.
Proof. intro H. apply round_mono. lra. Qed.

Lemma mul_mono (u u' k : Q) : 0 <= k -> u <= u' -> mul u k <= mul u' k.
Proof. intros Hk H. apply round_mono. apply Qmult_le_compat_r; assumption. Qed.

Lemma div_mono (d d' n : Q) : 0 < n -> d <= d' -> div d n <= div d' n.
Proof.
  intros Hn H. apply round_mono.
  apply Qle_shift_div_l; [exact Hn |].
  assert (d / n * n == d) as E by (field; lra). rewrite E. exact H.
Qed.

(** The model on known values: the doubles written 0.1 and 1/3, the sum
    0.1 + 0.2, a tie that goes to the even neighbour, and the smallest
    subnormal number. *)
Example round_known_values :
  round (1 # 10) = 3602879701896397 # 36028797018963968 /\
  div 1 3 = 6004799503160661 # 18014398509481984 /\
  add (round (1 # 10)) (round (2 # 10)) = 1351079888211149 # 4503599627370496 /\
  round (inject_Z (2 ^ 53 + 1)) = inject_Z (2 ^ 53) /\
  round (inject_Z (2 ^ 53 + 3)) = inject_Z (2 ^ 53 + 4) /\
  round (3 # 2 ^ 1076) = 1 # 2 ^ 1074 /\
  round (1 # 2 ^ 1075) = 0.
Proof. repeat split; vm_compute; reflexivity. Qed.

End Rounding.

(* ===================================================================== *)
(** * Properties of the adaptive sync controller *)
(* ===================================================================== *)

Section DriftClassification.

Import AdaptiveSync.
Local Open Scope Q_scope.

Lemma Qltb_spec (x y : Q) : reflect (x < y) (Qltb x y).
Proof.
  apply iff_reflect. unfold Qltb, Qlt.
  symmetry. apply Z.ltb_lt.
Qed.

Lemma Qltb_lt (x y : Q) : x < y -> Qltb x y = true.
Proof. intros H. destruct (Qltb_spec x y); [reflexivity | contradiction]. Qed.

Lemma Qltb_ge (x y : Q) : y <= x -> Qltb x y = false.
Proof.
  intros H. destruct (Qltb_spec x y) as [Hlt | _]; [| reflexivity].
  exfalso. apply (Qlt_not_le _ _ Hlt H).
Qed.

(** The correction [(absDrift / 1000) * k], as the code computes it. *)
Local Abbreviation scaled d k := (Double.mul (Double.div d 1000) k).

Lemma scaled_mono (d d' k : Q) : 0 <= k -> d <= d' -> scaled d k <= scaled d' k.
Proof.
  intros Hk H. apply mul_mono; [exact Hk |]. apply div_mono; [reflexivity | exact H].
Qed.

(** A drift that counts is not zero, and the computed difference has the
    sign of the exact one. *)
Lemma drift_sign (c t : Q) :
  30 <= driftMs c t ->
  (0 < t - c -> Qltb 0 (Double.sub t c) = true) /\
  (t - c < 0 -> Qltb 0 (Double.sub t c) = false) /\
  ~ t - c == 0.
Proof.
  intro Hd. unfold driftMs in Hd.
  assert (~ Double.sub t c == 0) as Hne.
  { intro E.
    assert (Double.mul (Qabs (Double.sub t c)) 1000 <= 0) as C.
    { apply round_nonpos. rewrite E. cbn. lra. }
    lra. }
  split; [| split].
  - intro H. apply Qltb_lt.
    pose proof (round_nonneg (t - c) ltac:(lra)) as H0.
    fold (Double.sub t c) in H0.
    destruct (Qle_lt_or_eq _ _ H0) as [Hlt | E]; [exact Hlt |].
    exfalso. apply Hne. symmetry. exact E.
  - intro H. apply Qltb_ge.
    apply (round_nonpos (t - c)). lra.
  - intro E. apply Hne. apply round_zero. exact E.
Qed.

(** The two rate formulas: on the side of 1 that the drift names, within
    the cap. *)
Lemma rate_sign_and_bounds (lo hi k d : Q) (behind : bool) :
  lo < 1 -> 1 < hi -> 0 <= k ->
  1 < Double.add 1 (scaled 30 k) ->
  Double.sub 1 (scaled 30 k) < 1 ->
  30 <= d ->
  let rate := if behind
              then Qmin hi (Double.add 1 (scaled d k))
              else Qmax lo (Double.sub 1 (scaled d k)) in
  lo <= rate /\ rate <= hi /\ (if behind then 1 < rate else rate < 1).
Proof.
  intros Hlo Hhi Hk Hup Hdown Hd rate. subst rate.
  pose proof (scaled_mono 30 d k Hk Hd) as Hy.
  destruct behind.
  - pose proof (add_mono 1 _ _ Hy) as Hx.
    set (x := Double.add 1 (scaled d k)) in *.
    destruct (Q.min_spec hi x) as [[_ E] | [_ E]];
      pose proof (Q.le_min_l hi x); rewrite E in *; repeat split; lra.
  - pose proof (sub_mono 1 _ _ Hy) as Hx.
    set (x := Double.sub 1 (scaled d k)) in *.
    destruct (Q.max_spec lo x) as [[_ E] | [_ E]];
      pose proof (Q.le_max_l lo x); rewrite E in *; repeat split; lra.
Qed.

(** Up to 300 ms the fine correction stays within 0.05 of 1: the caps
    [1.05] and [0.95] are not reached. *)
Lemma micro_rate_within (d : Q) (behind : bool) :
  30 <= d -> d <= 300 ->
  let rate := if behind
              then Qmin (Double.round (105 # 100))
                        (Double.add 1 (scaled d (Double.round (15 # 100))))
              else Qmax (Double.round (95 # 100))
                        (Double.sub 1 (scaled d (Double.round (15 # 100)))) in
  95 # 100 <= rate /\ rate <= 105 # 100.
Proof.
  intros Hlo Hhi rate. subst rate.
  assert (0 <= Double.round (15 # 100)) as Hk by (vm_compute; discriminate).
  pose proof (scaled_mono d 300 _ Hk Hhi) as Hy.
  pose proof (scaled_mono 30 d _ Hk Hlo) as Hy'.
  assert (Double.add 1 (scaled 300 (Double.round (15 # 100))) <= 105 # 100) as Hup
    by (vm_compute; discriminate).
  assert (95 # 100 <= Double.sub 1 (scaled 300 (Double.round (15 # 100)))) as Hdown
    by (vm_compute; discriminate).
  assert (1 <= Double.add 1 (scaled 30 (Double.round (15 # 100)))) as Hup'
    by (vm_compute; discriminate).
  assert (Double.sub 1 (scaled 30 (Double.round (15 # 100))) <= 1) as Hdown'
    by (vm_compute; discriminate).
  assert (1 <= Double.round (105 # 100)) as Hcap by (vm_compute; discriminate).
  assert (Double.round (95 # 100) <= 1) as Hfloor by (vm_compute; discriminate).
  destruct behind.
  - pose proof (add_mono 1 _ _ Hy) as Hx. pose proof (add_mono 1 _ _ Hy') as Hx'.
    set (x := Double.add 1 (scaled d _)) in *.
    destruct (Q.min_spec (Double.round (105 # 100)) x) as [[H E] | [H E]];
      rewrite E; split; lra.
  - pose proof (sub_mono 1 _ _ Hy) as Hx. pose proof (sub_mono 1 _ _ Hy') as Hx'.
    set (x := Double.sub 1 (scaled d _)) in *.
    destruct (Q.max_spec (Double.round (95 # 100)) x) as [[H E] | [H E]];
      rewrite E; split; lra.
Qed.

(** The decision of [calculateSyncAction] while playing, as it branches under a
    configuration. *)
Lemma calculateSyncAction_playing (cfg : AdaptiveSyncConfig) (c t : Q) :
  calculateSyncAction cfg c t true =
  let d := driftMs c t in
  let behind := Qltb 0 (Double.sub t c) in
  if Qltb d 30 then none
  else if Qltb (largeDriftThreshold cfg) d then hard_seek t
  else if Qltb (mediumDriftThreshold cfg) d then
    smooth_seek t (Qmin 400 (Double.div d 4))
  else if Qltb (smallDriftThreshold cfg) d then
    adjust_speed
      (if behind
       then Qmin (maxPlaybackRate cfg) (Double.add 1 (scaled d (correctionFactor cfg)))
       else Qmax (minPlaybackRate cfg) (Double.sub 1 (scaled d (correctionFactor cfg))))
  else
    adjust_speed
      (if behind
       then Qmin (Double.round (105 # 100))
                 (Double.add 1 (scaled d (Double.round (15 # 100))))
       else Qmax (Double.round (95 # 100))
                 (Double.sub 1 (scaled d (Double.round (15 # 100))))).
Proof. reflexivity. Qed.

Let cfg := DEFAULT_SYNC_CONFIG.

Lemma band_none (c t : Q) :
  driftMs c t < 30 -> calculateSyncAction cfg c t true = none.
Proof.
  intros H. rewrite calculateSyncAction_playing. cbv zeta.
  rewrite (Qltb_lt _ _ H). reflexivity.
Qed.

Lemma band_hard_seek (c t : Q) :
  5000 < driftMs c t -> calculateSyncAction cfg c t true = hard_seek t.
Proof.
  intros H. rewrite calculateSyncAction_playing. cbv zeta.
  rewrite Qltb_ge by lra.
  unfold cfg; cbn [largeDriftThreshold DEFAULT_SYNC_CONFIG].
  rewrite (Qltb_lt _ _ H). reflexivity.
Qed.

Lemma band_smooth_seek (c t : Q) :
  1500 < driftMs c t -> driftMs c t <= 5000 ->
  calculateSyncAction cfg c t true =
  smooth_seek t (Qmin 400 (Double.div (driftMs c t) 4)).
Proof.
  intros Hlo Hhi. rewrite calculateSyncAction_playing. cbv zeta.
  rewrite Qltb_ge by lra.
  unfold cfg;
    cbn [largeDriftThreshold mediumDriftThreshold DEFAULT_SYNC_CONFIG].
  rewrite (Qltb_ge _ _ Hhi), (Qltb_lt _ _ Hlo). reflexivity.
Qed.

Lemma band_adjust_speed (c t : Q) :
  300 < driftMs c t -> driftMs c t <= 1500 ->
  calculateSyncAction cfg c t true =
  adjust_speed
    (if Qltb 0 (Double.sub t c)
     then Qmin (maxPlaybackRate cfg)
               (Double.add 1 (scaled (driftMs c t) (correctionFactor cfg)))
     else Qmax (minPlaybackRate cfg)
               (Double.sub 1 (scaled (driftMs c t) (correctionFactor cfg)))).
Proof.
  intros Hlo Hhi. rewrite calculateSyncAction_playing. cbv zeta.
  rewrite Qltb_ge by lra.
  unfold cfg at 1 2 3;
    cbn [largeDriftThreshold mediumDriftThreshold smallDriftThreshold
         DEFAULT_SYNC_CONFIG].
  rewrite (Qltb_ge 5000) by lra.
  rewrite (Qltb_ge _ _ Hhi), (Qltb_lt _ _ Hlo). reflexivity.
Qed.

Lemma band_micro_adjust (c t : Q) :
  30 <= driftMs c t -> driftMs c t <= 300 ->
  calculateSyncAction cfg c t true =
  adjust_speed
    (if Qltb 0 (Double.sub t c)
     then Qmin (Double.round (105 # 100))
               (Double.add 1 (scaled (driftMs c t) (Double.round (15 # 100))))
     else Qmax (Double.round (95 # 100))
               (Double.sub 1 (scaled (driftMs c t) (Double.round (15 # 100))))).
Proof.
  intros Hlo Hhi. rewrite calculateSyncAction_playing. cbv zeta.
  rewrite (Qltb_ge _ _ Hlo).
  unfold cfg;
    cbn [largeDriftThreshold mediumDriftThreshold smallDriftThreshold
         DEFAULT_SYNC_CONFIG].
  rewrite (Qltb_ge 5000), (Qltb_ge 1500) by lra.
  rewrite (Qltb_ge _ _ Hhi). reflexivity.
Qed.

(** The rate of the default configuration above 300 ms. *)
Lemma default_rate (d : Q) (behind : bool) :
  30 <= d ->
  let rate := if behind
              then Qmin (maxPlaybackRate cfg)
                        (Double.add 1 (scaled d (correctionFactor cfg)))
              else Qmax (minPlaybackRate cfg)
                        (Double.sub 1 (scaled d (correctionFactor cfg))) in
  minPlaybackRate cfg <= rate /\ rate <= maxPlaybackRate cfg /\
  (if behind then 1 < rate else rate < 1).
Proof.
  intro Hd.
  apply rate_sign_and_bounds; try exact Hd;
    first [ vm_compute; reflexivity | vm_compute; discriminate ].
Qed.

(** The rate of the fine correction. *)
Lemma micro_rate (d : Q) (behind : bool) :
  30 <= d ->
  let rate := if behind
              then Qmin (Double.round (105 # 100))
                        (Double.add 1 (scaled d (Double.round (15 # 100))))
              else Qmax (Double.round (95 # 100))
                        (Double.sub 1 (scaled d (Double.round (15 # 100)))) in
  Double.round (95 # 100) <= rate /\ rate <= Double.round (105 # 100) /\
  (if behind then 1 < rate else rate < 1).
Proof.
  intro Hd.
  apply rate_sign_and_bounds; try exact Hd;
    first [ vm_compute; reflexivity | vm_compute; discriminate ].
Qed.

(** C1, as the code has it.  Let [d] be the double the code computes for
    [Math.abs(targetTime - currentTime) * 1000].  With the default
    configuration, [calculateSyncAction] while playing returns [none] when
    [d < 30]; [adjust_speed] with [|rate - 1| <= 0.05] when [30 <= d < 300];
    [adjust_speed] with [minPlaybackRate <= rate <= maxPlaybackRate] (the
    doubles 0.9 and 1.1) when [300 <= d <= 1500]; [smooth_seek] to the target
    with a duration of at most 400 ms when [1500 < d <= 5000]; [hard_seek] to
    the target when [d > 5000].  Whenever [adjust_speed] is returned,
    [rate - 1] has the sign of [targetTime - currentTime]. *)
Theorem calculateSyncAction_bands (c t : Q) :
  let d := driftMs c t in
  let a := calculateSyncAction DEFAULT_SYNC_CONFIG c t true in
  (d < 30 -> a = none) /\
  (30 <= d /\ d < 300 ->
   exists rate, a = adjust_speed rate /\ Qabs (rate - 1) <= 5 # 100) /\
  (300 <= d /\ d <= 1500 ->
   exists rate, a = adjust_speed rate /\
                minPlaybackRate DEFAULT_SYNC_CONFIG <= rate /\
                rate <= maxPlaybackRate DEFAULT_SYNC_CONFIG) /\
  (1500 < d /\ d <= 5000 ->
   exists duration, a = smooth_seek t duration /\ duration <= 400) /\
  (5000 < d -> a = hard_seek t) /\
  (forall rate, a = adjust_speed rate ->
   (0 < t - c /\ 0 < rate - 1) \/ (t - c < 0 /\ rate - 1 < 0)).
Proof.
  intros d a. subst d a. fold cfg.
  split; [apply band_none |].
  split.
  { intros [Hlo Hhi]. eexists. split; [apply band_micro_adjust; lra |].
    destruct (micro_rate_within (driftMs c t) (Qltb 0 (Double.sub t c))
                Hlo ltac:(lra)) as [H1 H2].
    apply Qabs_Qle_condition. split; lra. }
  split.
  { intros [Hlo Hhi].
    destruct (Qlt_le_dec 300 (driftMs c t)) as [Hgt | Hle].
    - eexists. split; [apply band_adjust_speed; lra |].
      destruct (default_rate (driftMs c t) (Qltb 0 (Double.sub t c)) ltac:(lra))
        as (H1 & H2 & _).
      split; assumption.
    - eexists. split; [apply band_micro_adjust; lra |].
      destruct (micro_rate_within (driftMs c t) (Qltb 0 (Double.sub t c))
                  ltac:(lra) Hle) as [H1 H2].
      assert (minPlaybackRate cfg <= 95 # 100) as Hmin by (vm_compute; discriminate).
      assert (105 # 100 <= maxPlaybackRate cfg) as Hmax by (vm_compute; discriminate).
      split; lra. }
  split.
  { intros [Hlo Hhi]. eexists. split; [apply band_smooth_seek; lra |].
    apply Q.le_min_l. }
  split; [apply band_hard_seek |].
  intros rate Ha.
  destruct (Qlt_le_dec (driftMs c t) 30) as [H30 | H30].
  { rewrite band_none in Ha by assumption. discriminate. }
  destruct (drift_sign c t H30) as (Hbehind & Hahead & Hne).
  assert (forall r : Q,
            (if Qltb 0 (Double.sub t c) then 1 < r else r < 1) ->
            (0 < t - c /\ 0 < r - 1) \/ (t - c < 0 /\ r - 1 < 0)) as Hside.
  { intros r Hr.
    destruct (Q_dec (t - c) 0) as [[Hneg | Hpos] | Hzero]; [| | contradiction].
    - rewrite (Hahead Hneg) in Hr. right. split; lra.
    - rewrite (Hbehind Hpos) in Hr. left. split; lra. }
  destruct (Qlt_le_dec 5000 (driftMs c t)) as [H5000 | H5000].
  { rewrite band_hard_seek in Ha by assumption. discriminate. }
  destruct (Qlt_le_dec 1500 (driftMs c t)) as [H1500 | H1500].
  { rewrite band_smooth_seek in Ha by assumption. discriminate. }
  destruct (Qlt_le_dec 300 (driftMs c t)) as [H300 | H300].
  - rewrite band_adjust_speed in Ha by assumption.
    injection Ha as <-. apply Hside.
    apply (default_rate (driftMs c t) (Qltb 0 (Double.sub t c)) H30).
  - rewrite band_micro_adjust in Ha by assumption.
    injection Ha as <-. apply Hside.
    apply (micro_rate (driftMs c t) (Qltb 0 (Double.sub t c)) H30).
Qed.

(** An instance in each band, on doubles: 20 ms, 150 ms, 500 ms, 3 s and
    10 s behind a position of 10 s. *)
Lemma calculateSyncAction_bands_witness :
  calculateSyncAction DEFAULT_SYNC_CONFIG 10 (Double.round (1002 # 100)) true = none /\
  (exists rate,
     calculateSyncAction DEFAULT_SYNC_CONFIG 10 (Double.round (1015 # 100)) true
     = adjust_speed rate /\ Qabs (rate - 1) <= 5 # 100) /\
  (exists rate,
     calculateSyncAction DEFAULT_SYNC_CONFIG 10 (Double.round (105 # 10)) true
     = adjust_speed rate /\
     minPlaybackRate DEFAULT_SYNC_CONFIG <= rate /\
     rate <= maxPlaybackRate DEFAULT_SYNC_CONFIG) /\
  (exists duration, calculateSyncAction DEFAULT_SYNC_CONFIG 10 13 true
                    = smooth_seek 13 duration /\ duration <= 400) /\
  calculateSyncAction DEFAULT_SYNC_CONFIG 10 20 true = hard_seek 20.
Proof.
  split; [| split; [| split; [| split]]].
  - apply (proj1 (calculateSyncAction_bands 10 (Double.round (1002 # 100)))).
    vm_compute. reflexivity.
  - apply (proj1 (proj2 (calculateSyncAction_bands 10 (Double.round (1015 # 100))))).
    split; vm_compute; [discriminate | reflexivity].
  - apply (proj1 (proj2 (proj2 (calculateSyncAction_bands 10 (Double.round (105 # 10)))))).
    split; vm_compute; discriminate.
  - apply (proj1 (proj2 (proj2 (proj2 (calculateSyncAction_bands 10 13))))).
    split; vm_compute; [reflexivity | discriminate].
  - apply (proj1 (proj2 (proj2 (proj2 (proj2 (calculateSyncAction_bands 10 20)))))).
    vm_compute. reflexivity.
Defined.

(** At the edges the rounding of the product decides: the doubles written
    0.03, 5.03 - 0.03 and 1.51 - 0.01 are not the decimals, yet the computed
    drifts are exactly 30, 5000 and 1500 ms. *)
Example calculateSyncAction_at_the_edges :
  driftMs 0 (Double.round (3 # 100)) = 30 /\
  (exists rate, calculateSyncAction DEFAULT_SYNC_CONFIG
                  0 (Double.round (3 # 100)) true = adjust_speed rate) /\
  driftMs (Double.round (3 # 100)) (Double.round (503 # 100)) = 5000 /\
  (exists duration,
     calculateSyncAction DEFAULT_SYNC_CONFIG
       (Double.round (3 # 100)) (Double.round (503 # 100)) true
     = smooth_seek (Double.round (503 # 100)) duration) /\
  driftMs (Double.round (1 # 100)) (Double.round (151 # 100)) = 1500 /\
  (exists rate, calculateSyncAction DEFAULT_SYNC_CONFIG
                  (Double.round (1 # 100)) (Double.round (151 # 100)) true
                = adjust_speed rate).
Proof.
  repeat split; try (vm_compute; reflexivity); eexists; vm_compute; reflexivity.
Qed.

(** C1 as stated fails at the band edges: the thresholds are compared with
    [>], so a drift of exactly 5000 ms is smoothed, not hard-sought (and a
    drift of exactly 1500 ms is a speed adjustment). *)
Lemma calculateSyncAction_bands_as_stated_fail :
  ~ (forall c t : Q,
       let d := driftMs c t in
       let a := calculateSyncAction DEFAULT_SYNC_CONFIG c t true in
       (d < 30 -> a = none) /\
       (30 <= d /\ d < 300 ->
        exists rate, a = adjust_speed rate /\ Qabs (rate - 1) <= 5 # 100) /\
       (300 <= d /\ d < 1500 ->
        exists rate, a = adjust_speed rate /\
                     minPlaybackRate DEFAULT_SYNC_CONFIG <= rate /\
                     rate <= maxPlaybackRate DEFAULT_SYNC_CONFIG) /\
       (1500 <= d /\ d < 5000 ->
        exists target duration, a = smooth_seek target duration /\ duration <= 400) /\
       (5000 <= d -> exists target, a = hard_seek target) /\
       (forall rate, a = adjust_speed rate ->
        (0 < t - c /\ 0 < rate - 1) \/ (t - c < 0 /\ rate - 1 < 0))).
Proof.
  intros H.
  destruct (H 0 5) as (_ & _ & _ & _ & Hhard & _).
  destruct Hhard as [target Htarget].
  - vm_compute. discriminate.
  - vm_compute in Htarget. discriminate.
Qed.

End DriftClassification.

Section LatencyCompensation.

Import AdaptiveSync.
Local Open Scope Q_scope.

(** [compensateForLatency] in terms of the latency that [calculateLatency]
    reports. *)
Lemma compensateForLatency_unfold (now t ts : Q) (playing : bool)
    (ctl : AdaptiveSyncController) :
  fst (compensateForLatency now t ts playing ctl) =
  let r := calculateLatency now ts ctl in
  if Qltb (fst r) (minLatencyCompensation (config (snd r))) || negb playing
  then t
  else t + fst r / 1000.
Proof.
  unfold compensateForLatency.
  destruct (calculateLatency now ts ctl) as [latency c1]. cbn [fst snd].
  destruct (Qltb latency (minLatencyCompensation (config c1)) || negb playing);
    reflexivity.
Qed.

(** No method changes the configuration. *)
Lemma calculateLatency_config (now ts : Q) (ctl : AdaptiveSyncController) :
  config (snd (calculateLatency now ts ctl)) = config ctl.
Proof.
  unfold calculateLatency. cbn [snd].
  destruct (Qltb (now - ts) (- (100))); [reflexivity |].
  destruct (Qgtb (now - ts) (maxLatencyCompensation (config ctl))); reflexivity.
Qed.

(** A raw latency inside [0, maxLatencyCompensation] is reported as it is
    when the clock offset is zero; the offset estimator is not fed. *)
Lemma calculateLatency_in_window (now L : Q) (ctl : AdaptiveSyncController) :
  clockOffset ctl == 0 ->
  0 <= L -> L <= maxLatencyCompensation (config ctl) ->
  fst (calculateLatency now (now - L) ctl) == L.
Proof.
  intros Hoff Hlo Hhi. unfold calculateLatency. cbn [fst].
  rewrite Qltb_ge by lra.
  unfold Qgtb. rewrite Qltb_ge by lra.
  cbv beta iota zeta.
  set (adjusted := now - (now - L) - clockOffset ctl).
  assert (adjusted == L) as Hadj by (unfold adjusted; lra).
  destruct (Q.min_spec adjusted (maxLatencyCompensation (config ctl)))
    as [[Hmin Emin] | [Hmin Emin]];
  destruct (Q.max_spec 0 (Qmin adjusted (maxLatencyCompensation (config ctl))))
    as [[Hmax Emax] | [Hmax Emax]]; lra.
Qed.

(** C3.  For a controller with the default configuration whose clock-offset
    window is empty and whose clock offset is 0: an event sent [L]
    milliseconds ago, with [10 <= L <= 2000], is compensated to
    [t + L / 1000] while playing; and while not playing the target time comes
    back unchanged, whatever the timestamp. *)
Theorem compensateForLatency_spec (now t : Q) (ctl : AdaptiveSyncController) :
  config ctl = DEFAULT_SYNC_CONFIG ->
  clockOffsetSamples ctl = [] ->
  clockOffset ctl == 0 ->
  (forall L : Q,
     minLatencyCompensation DEFAULT_SYNC_CONFIG <= L ->
     L <= maxLatencyCompensation DEFAULT_SYNC_CONFIG ->
     fst (compensateForLatency now t (now - L) true ctl) == t + L / 1000) /\
  (forall ts : Q, fst (compensateForLatency now t ts false ctl) = t).
Proof.
  intros Hcfg _ Hoff. split.
  - intros L Hlo Hhi. cbn in Hlo, Hhi.
    rewrite compensateForLatency_unfold. cbv zeta.
    rewrite calculateLatency_config, Hcfg.
    cbn [minLatencyCompensation DEFAULT_SYNC_CONFIG negb].
    assert (fst (calculateLatency now (now - L) ctl) == L) as E.
    { apply calculateLatency_in_window; [assumption | lra |].
      rewrite Hcfg. exact Hhi. }
    rewrite Qltb_ge by lra. cbn [orb].
    rewrite E. reflexivity.
  - intros ts. rewrite compensateForLatency_unfold. cbv zeta.
    cbn [negb]. rewrite orb_true_r. reflexivity.
Qed.

(** A fresh controller and a 200 ms old event. *)
Lemma compensateForLatency_spec_witness :
  fst (compensateForLatency 1000 10 (1000 - 200) true
         (newController DEFAULT_SYNC_CONFIG)) == 10 + 200 / 1000 /\
  fst (compensateForLatency 1000 10 800 false
         (newController DEFAULT_SYNC_CONFIG)) = 10.
Proof.
  destruct (compensateForLatency_spec 1000 10 (newController DEFAULT_SYNC_CONFIG))
    as [Hplaying Hpaused]; [reflexivity | reflexivity | reflexivity |].
  split.
  - apply Hplaying; vm_compute; discriminate.
  - apply Hpaused.
Defined.

End LatencyCompensation.

(* ===================================================================== *)
(** * Properties of the background session *)
(* ===================================================================== *)

(** ** Running handlers: the equations of the monad *)

Section HandlerEquations.

Import Background.

Context {A B : Type}.

Lemma bind_value (m : M A) (f : A -> M B) (g : Globals) :
  value (bind m f g) = value (f (value (m g)) (globals (m g))).
Proof. reflexivity. Qed.

Lemma bind_globals (m : M A) (f : A -> M B) (g : Globals) :
  globals (bind m f g) = globals (f (value (m g)) (globals (m g))).
Proof. reflexivity. Qed.

Lemma bind_effects (m : M A) (f : A -> M B) (g : Globals) :
  effects (bind m f g) = effects (m g) ++ effects (f (value (m g)) (globals (m g))).
Proof. reflexivity. Qed.

Lemma ret_globals (a : A) (g : Globals) : globals (ret a g) = g.
Proof. reflexivity. Qed.

Lemma ret_effects (a : A) (g : Globals) : effects (ret a g) = [].
Proof. reflexivity. Qed.

Lemma ret_value (a : A) (g : Globals) : value (ret a g) = a.
Proof. reflexivity. Qed.

End HandlerEquations.

Section PrimitiveEquations.

Import Background.

Lemma emit_globals (e : Effect) (g : Globals) : globals (emit e g) = g.
Proof. reflexivity. Qed.

Lemma emit_effects (e : Effect) (g : Globals) : effects (emit e g) = [e].
Proof. reflexivity. Qed.

Lemma getSession_value (g : Globals) : value (getSession g) = session g.
Proof. reflexivity. Qed.

Lemma getSession_globals (g : Globals) : globals (getSession g) = g.
Proof. reflexivity. Qed.

Lemma getSession_effects (g : Globals) : effects (getSession g) = [].
Proof. reflexivity. Qed.

Lemma get_value (g : Globals) : value (get g) = g.
Proof. reflexivity. Qed.

Lemma get_globals (g : Globals) : globals (get g) = g.
Proof. reflexivity. Qed.

Lemma get_effects (g : Globals) : effects (get g) = [].
Proof. reflexivity. Qed.

Lemma updateSession_globals (f : SessionState -> SessionState) (g : Globals) :
  globals (updateSession f g) =
  mkGlobals (f (session g)) (activeTabs g) (tabStates g) (pendingOperation g).
Proof. reflexivity. Qed.

Lemma updateSession_effects (f : SessionState -> SessionState) (g : Globals) :
  effects (updateSession f g) = [].
Proof. reflexivity. Qed.

Lemma setPendingOperation_globals (p : option PendingOperation.t) (g : Globals) :
  globals (setPendingOperation p g) =
  mkGlobals (session g) (activeTabs g) (tabStates g) p.
Proof. reflexivity. Qed.

Lemma setPendingOperation_effects (p : option PendingOperation.t) (g : Globals) :
  effects (setPendingOperation p g) = [].
Proof. reflexivity. Qed.

Lemma when_true (m : M unit) : when true m = m.
Proof. reflexivity. Qed.

Lemma when_false (m : M unit) : when false m = ret tt.
Proof. reflexivity. Qed.

End PrimitiveEquations.

Create Rewrite HintDb handler.

#[global] Hint Rewrite
  @bind_value @bind_globals @bind_effects @ret_globals @ret_effects @ret_value
  emit_globals emit_effects
  getSession_value getSession_globals getSession_effects
  get_value get_globals get_effects
  updateSession_globals updateSession_effects
  setPendingOperation_globals setPendingOperation_effects
  when_true when_false
  : handler.

(** One step of symbolic execution: push the projections through the binds,
    then compute the record fields. *)
Ltac run_handler :=
  repeat (progress (autorewrite with handler; cbv beta));
  cbn [Background.session Background.activeTabs Background.tabStates
       Background.pendingOperation
       Background.oderId Background.socket Background.roomId Background.isHost
       Background.userCount Background.users Background.connected
       Background.reconnectAttempts Background.heartbeatInterval
       Background.userName Background.canControl Background.isReconnecting
       Background.lastSuccessfulConnection Background.pendingMessages
       Background.connectionId Background.currentUrl Background.currentPlatform
       Background.set_oderId Background.set_socket Background.set_roomId
       Background.set_isHost Background.set_userCount Background.set_users
       Background.set_connected Background.set_reconnectAttempts
       Background.set_heartbeatInterval Background.set_canControl
       Background.set_isReconnecting Background.set_lastSuccessfulConnection
       Background.set_pendingMessages Background.set_currentUrl
       Background.set_currentPlatform Background.clearRoomState
       app].

(** ** Strings: [includes] finds exactly the substrings *)

Section Substrings.

Import Background.
Local Open Scope string_scope.

Lemma prefix_iff (p str : string) :
  prefix p str = true <-> exists post, str = p ++ post.
Proof.
  revert str. induction p as [| a p IH]; intros str.
  - destruct str; cbn; split; eauto.
  - destruct str as [| b str]; cbn.
    + split; [discriminate | intros [post E]; discriminate].
    + destruct (ascii_dec a b) as [-> | Hne].
      * rewrite IH. split; intros [post E]; exists post.
        -- now rewrite E.
        -- now injection E.
      * split; [discriminate |].
        intros [post E]. injection E as E1 _. congruence.
Qed.

Lemma includes_iff (str pat : string) :
  includes str pat = true <-> exists pre post, str = pre ++ pat ++ post.
Proof.
  induction str as [| a str IH]; cbn [includes].
  - rewrite orb_false_r, prefix_iff. split.
    + intros [post E]. exists "", post. exact E.
    + intros (pre & post & E). destruct pre; [eauto | discriminate].
  - rewrite orb_true_iff, prefix_iff, IH. split.
    + intros [[post E] | (pre & post & E)].
      * exists "", post. exact E.
      * exists (String a pre), post. cbn. now rewrite E.
    + intros (pre & post & E). destruct pre as [| b pre].
      * left. exists post. exact E.
      * right. cbn in E. injection E as _ E. eauto.
Qed.

End Substrings.

(** ** Operation lock *)

Section OperationLock.

Import Background.
Local Open Scope Z_scope.

(** C5.  [acquireRoomLock] refuses and changes nothing while a lock is held
    whose age is at most 5000 ms; it installs the operation and returns
    [true] when no lock is held or the held one is older than 5000 ms;
    [releaseRoomLock] clears the lock whatever its state, and releasing
    again changes nothing more. *)
Theorem acquireRoomLock_spec (now : Z) (op : PendingOperation.t) (g : Globals) :
  (forall held,
     pendingOperation g = Some held ->
     now - PendingOperation.timestamp held <= 5000 ->
     value (acquireRoomLock now op g) = false /\
     globals (acquireRoomLock now op g) = g) /\
  (pendingOperation g = None \/
   (exists held, pendingOperation g = Some held /\
                 5000 < now - PendingOperation.timestamp held) ->
   value (acquireRoomLock now op g) = true /\
   pendingOperation (globals (acquireRoomLock now op g)) = Some op /\
   session (globals (acquireRoomLock now op g)) = session g) /\
  (pendingOperation (globals (releaseRoomLock g)) = None /\
   session (globals (releaseRoomLock g)) = session g /\
   globals (releaseRoomLock (globals (releaseRoomLock g))) =
   globals (releaseRoomLock g)).
Proof.
  split; [| split].
  - intros held Hheld Hage. unfold acquireRoomLock, bind, get. cbn.
    rewrite Hheld.
    destruct (Z.gtb_spec (now - PendingOperation.timestamp held) 5000); [lia |].
    split; reflexivity.
  - intros [Hnone | (held & Hheld & Hage)];
      unfold acquireRoomLock, bind, get; cbn.
    + rewrite Hnone. cbn. repeat split.
    + rewrite Hheld.
      destruct (Z.gtb_spec (now - PendingOperation.timestamp held) 5000); [| lia].
      cbn. repeat split.
  - repeat split.
Qed.

(** A lock taken at time 1000: a second request at 4000 is refused, one at
    6001 replaces it. *)
Lemma acquireRoomLock_spec_witness :
  (value (acquireRoomLock 4000 (PendingOperation.mk OP_CREATE_ROOM 4000 None)
            lockedGlobals) = false /\
   globals (acquireRoomLock 4000 (PendingOperation.mk OP_CREATE_ROOM 4000 None)
              lockedGlobals) = lockedGlobals) /\
  (value (acquireRoomLock 6001 (PendingOperation.mk OP_CREATE_ROOM 6001 None)
            lockedGlobals) = true /\
   pendingOperation
     (globals (acquireRoomLock 6001 (PendingOperation.mk OP_CREATE_ROOM 6001 None)
                 lockedGlobals))
   = Some (PendingOperation.mk OP_CREATE_ROOM 6001 None) /\
   session (globals (acquireRoomLock 6001 (PendingOperation.mk OP_CREATE_ROOM 6001 None)
                       lockedGlobals))
   = session lockedGlobals).
Proof.
  split.
  - apply (proj1 (acquireRoomLock_spec 4000
                    (PendingOperation.mk OP_CREATE_ROOM 4000 None) lockedGlobals)
                 (PendingOperation.mk OP_JOIN_ROOM 1000 (Some "ABCD1234"%string)));
      [reflexivity | cbn; lia].
  - apply (proj1 (proj2 (acquireRoomLock_spec 6001
                    (PendingOperation.mk OP_CREATE_ROOM 6001 None) lockedGlobals))).
    right. exists (PendingOperation.mk OP_JOIN_ROOM 1000 (Some "ABCD1234"%string)).
    split; [reflexivity | cbn; lia].
Defined.

End OperationLock.

(** ** Message router *)

Section MessageRouter.

Import Background.
Local Open Scope string_scope.

(** [broadcastStatusToAllTabs] only sends. *)
Lemma forEach_emit_globals {A} (xs : list A) (f : A -> Effect) (g : Globals) :
  globals (forEach xs (fun x => emit (f x)) g) = g.
Proof.
  induction xs as [| x xs IH]; [reflexivity |].
  cbn [forEach]. unfold bind. cbn. exact IH.
Qed.

Lemma broadcastStatusToAllTabs_globals (g : Globals) :
  globals (broadcastStatusToAllTabs g) = g.
Proof.
  unfold broadcastStatusToAllTabs, bind, get. cbn.
  apply forEach_emit_globals.
Qed.

Lemma broadcastStatusToAllTabs_forwarded (g : Globals) :
  forwarded (effects (broadcastStatusToAllTabs g)) = [].
Proof.
  unfold broadcastStatusToAllTabs, bind, get. cbn.
  unfold forwarded. rewrite flat_map_app. cbn. rewrite app_nil_r.
  induction (activeTabs g) as [| tab tabs IH]; [reflexivity |].
  cbn [forEach]. unfold bind. cbn. exact IH.
Qed.

(** C9.  An [ERROR] from the relay always releases the operation lock; when
    its code is [ROOM_NOT_FOUND] or its text contains "does not exist", the
    room fields are cleared as well. *)
Theorem handleServerMessage_ERROR_releases (now : Z) (code message : string) (g : Globals) :
  let g' := globals (handleServerMessage now (ServerMessage.ERROR code message) g) in
  pendingOperation g' = None /\
  (code = "ROOM_NOT_FOUND" \/
   (exists pre post, message = pre ++ "does not exist" ++ post) ->
   roomId (session g') = None /\
   isHost (session g') = false /\
   userCount (session g') = 0%Z /\
   users (session g') = []).
Proof.
  intros g'. subst g'.
  unfold handleServerMessage, releaseRoomLock, when, bind, setPendingOperation.
  cbn [value globals].
  split.
  - destruct ((code =? "ROOM_NOT_FOUND") || includes message "does not exist");
      cbn -[broadcastStatusToAllTabs]; [| reflexivity].
    rewrite broadcastStatusToAllTabs_globals. reflexivity.
  - intros Hnotfound.
    assert ((code =? "ROOM_NOT_FOUND") || includes message "does not exist" = true)
      as ->.
    { apply orb_true_iff. destruct Hnotfound as [-> | Hsub].
      - left. apply String.eqb_refl.
      - right. apply includes_iff. exact Hsub. }
    cbn -[broadcastStatusToAllTabs].
    rewrite broadcastStatusToAllTabs_globals. cbn.
    repeat split.
Qed.

Lemma handleServerMessage_ERROR_releases_witness :
  pendingOperation
    (globals (handleServerMessage 0
                (ServerMessage.ERROR "ROOM_NOT_FOUND" "Room ABCD1234 does not exist")
                guestGlobals)) = None /\
  roomId (session
    (globals (handleServerMessage 0
                (ServerMessage.ERROR "ROOM_NOT_FOUND" "Room ABCD1234 does not exist")
                guestGlobals))) = None.
Proof.
  pose proof (handleServerMessage_ERROR_releases 0 "ROOM_NOT_FOUND"
                "Room ABCD1234 does not exist" guestGlobals) as [Hlock Hroom].
  split; [exact Hlock |].
  apply Hroom. left. reflexivity.
Defined.

(** C10.  An [ERROR] whose code is not [ROOM_NOT_FOUND] and whose text does
    not contain "does not exist" leaves the session and the tab registry as
    they were: only the operation lock changes, and it is cleared.  The error
    is passed on to the tabs. *)
Theorem handleServerMessage_ERROR_frame (now : Z) (code message : string)
    (g : Globals) :
  code <> "ROOM_NOT_FOUND" ->
  ~ (exists pre post, message = pre ++ "does not exist" ++ post) ->
  let r := handleServerMessage now (ServerMessage.ERROR code message) g in
  session (globals r) = session g /\
  activeTabs (globals r) = activeTabs g /\
  tabStates (globals r) = tabStates g /\
  pendingOperation (globals r) = None /\
  effects r = [Call_forwardToAllTabs (TabMessage.ERROR code message)].
Proof.
  intros Hcode Htext r. subst r.
  unfold handleServerMessage, releaseRoomLock, when, bind, setPendingOperation.
  cbn [value globals effects].
  assert ((code =? "ROOM_NOT_FOUND") || includes message "does not exist" = false)
    as ->.
  { apply orb_false_iff. split.
    - apply String.eqb_neq. exact Hcode.
    - apply not_true_is_false. intros Hinc. apply Htext.
      apply includes_iff. exact Hinc. }
  cbn. repeat split.
Qed.

Lemma handleServerMessage_ERROR_frame_witness :
  session (globals (handleServerMessage 0
             (ServerMessage.ERROR "ROOM_FULL" "Room is full") guestGlobals))
  = session guestGlobals /\
  pendingOperation (globals (handleServerMessage 0
             (ServerMessage.ERROR "ROOM_FULL" "Room is full") guestGlobals))
  = None.
Proof.
  destruct (handleServerMessage_ERROR_frame 0 "ROOM_FULL" "Room is full" guestGlobals)
    as (Hs & _ & _ & Hp & _).
  - discriminate.
  - intros Hsub. apply includes_iff in Hsub. vm_compute in Hsub. discriminate.
  - split; assumption.
Defined.

(** What a handler that only emits leaves behind. *)
Lemma forEach_emit_effects {A} (xs : list A) (f : A -> Effect) (g : Globals) :
  effects (forEach xs (fun x => emit (f x)) g) = map f xs.
Proof.
  induction xs as [| x xs IH]; [reflexivity |].
  cbn [forEach map]. unfold bind. cbn.
  f_equal. exact IH.
Qed.

(** The asynchronous forward attempts a send to every active tab. *)
Lemma forwardToAllTabs_reaches_all (rejects : nat -> bool) (m : TabMessage.t)
    (g : Globals) (tab : nat) :
  In tab (activeTabs g) ->
  In (TabsSendMessage tab m) (effects (forwardToAllTabs rejects m g)).
Proof.
  intros Htab. unfold forwardToAllTabs, bind, get.
  cbn [value globals effects app].
  apply in_or_app. left.
  rewrite forEach_emit_effects.
  apply (in_map (fun tabId => TabsSendMessage tabId m)). exact Htab.
Qed.

(** C8.  A relayed [SYNC_EVENT] or [NAVIGATE] that carries the local
    participant's id produces no notification at all; one that carries
    another id is handed to [forwardToAllTabs] (as [APPLY_SYNC], resp.
    [NAVIGATE]), which attempts a send to every active tab. *)
Theorem handleServerMessage_echo (now : Z) (room id : string) (g : Globals) :
  (id = oderId (session g) ->
   (forall event,
      effects (handleServerMessage now (ServerMessage.SYNC_EVENT room id event) g)
      = []) /\
   (forall navigation,
      effects (handleServerMessage now (ServerMessage.NAVIGATE room id navigation) g)
      = [])) /\
  (id <> oderId (session g) ->
   (forall event,
      let r := handleServerMessage now (ServerMessage.SYNC_EVENT room id event) g in
      effects r = [Call_forwardToAllTabs (TabMessage.APPLY_SYNC event)] /\
      forall rejects tab,
        In tab (activeTabs (globals r)) ->
        In (TabsSendMessage tab (TabMessage.APPLY_SYNC event))
           (effects (forwardToAllTabs rejects (TabMessage.APPLY_SYNC event)
                       (globals r)))) /\
   (forall navigation,
      let r := handleServerMessage now (ServerMessage.NAVIGATE room id navigation) g in
      effects r = [Call_forwardToAllTabs (TabMessage.NAVIGATE navigation)] /\
      forall rejects tab,
        In tab (activeTabs (globals r)) ->
        In (TabsSendMessage tab (TabMessage.NAVIGATE navigation))
           (effects (forwardToAllTabs rejects (TabMessage.NAVIGATE navigation)
                       (globals r))))).
Proof.
  split.
  - intros ->. split; intros x;
      unfold handleServerMessage, bind, getSession; cbn [value globals effects];
      rewrite String.eqb_refl; reflexivity.
  - intros Hother. apply String.eqb_neq in Hother.
    split; intros x r; subst r; split;
      try (intros rejects tab; apply forwardToAllTabs_reaches_all);
      unfold handleServerMessage, bind, getSession; cbn [value globals effects];
      rewrite Hother; reflexivity.
Qed.

Lemma handleServerMessage_echo_witness :
  effects (handleServerMessage 0
             (ServerMessage.SYNC_EVENT "ABCD1234" "user_1"
                (SyncEvent.mk PLAY 12 1000 None)) guestGlobals) = [] /\
  In (TabsSendMessage 8 (TabMessage.APPLY_SYNC (SyncEvent.mk PLAY 12 1000 None)))
     (effects (forwardToAllTabs (fun _ => false)
                 (TabMessage.APPLY_SYNC (SyncEvent.mk PLAY 12 1000 None))
                 (globals (handleServerMessage 0
                    (ServerMessage.SYNC_EVENT "ABCD1234" "user_0"
                       (SyncEvent.mk PLAY 12 1000 None)) guestGlobals)))).
Proof.
  split.
  - apply (proj1 (handleServerMessage_echo 0 "ABCD1234" "user_1" guestGlobals)).
    reflexivity.
  - apply (proj1 (proj2 (handleServerMessage_echo 0 "ABCD1234" "user_0" guestGlobals)
                    ltac:(discriminate))).
    vm_compute. right. left. reflexivity.
Defined.

(** C7, as the code has it.  [USER_JOINED], [USER_LEFT] and [USERS_LIST]
    replace the member list by the message's [users].  Only [USERS_LIST]
    takes [isHost] and [canControl] from the local participant's entry of
    that list (and leaves them alone when there is no such entry);
    [USER_JOINED] keeps both flags; [USER_LEFT] keeps [canControl] and sets
    [isHost] exactly when [newHostId] is the local id; [PERMISSION_CHANGED]
    keeps the member list and [isHost], and takes [canControl] from the
    message when its [oderId] is the local id. *)
Theorem handleServerMessage_membership (now : Z) (g : Globals) :
  (forall room id name count us,
     let s' := session (globals (handleServerMessage now
                 (ServerMessage.USER_JOINED room id name count us) g)) in
     users s' = us /\ userCount s' = count /\
     isHost s' = isHost (session g) /\ canControl s' = canControl (session g)) /\
  (forall room id count newHostId us,
     let s' := session (globals (handleServerMessage now
                 (ServerMessage.USER_LEFT room id count newHostId us) g)) in
     users s' = us /\ userCount s' = count /\
     canControl s' = canControl (session g) /\
     isHost s' = match newHostId with
                 | Some newHost =>
                     if newHost =? oderId (session g) then true
                     else isHost (session g)
                 | None => isHost (session g)
                 end) /\
  (forall room us,
     let s' := session (globals (handleServerMessage now
                 (ServerMessage.USERS_LIST room us) g)) in
     users s' = us /\
     match findUser (oderId (session g)) us with
     | Some me =>
         isHost s' = UserInfo.isHost me /\ canControl s' = UserInfo.canControl me
     | None =>
         isHost s' = isHost (session g) /\ canControl s' = canControl (session g)
     end) /\
  (forall room id allowed,
     let s' := session (globals (handleServerMessage now
                 (ServerMessage.PERMISSION_CHANGED room id allowed) g)) in
     users s' = users (session g) /\
     isHost s' = isHost (session g) /\
     canControl s' = if id =? oderId (session g) then allowed
                     else canControl (session g)).
Proof.
  split; [| split; [| split]].
  - intros room id name count us s'. subst s'.
    unfold handleServerMessage, when, bind, getSession, updateSession.
    cbn -[broadcastStatusToAllTabs].
    rewrite broadcastStatusToAllTabs_globals. cbn.
    destruct (isHost (session g)) eqn:Hhost; cbn; repeat split; assumption.
  - intros room id count newHostId us s'. subst s'.
    unfold handleServerMessage, when, bind, getSession, updateSession.
    cbn -[broadcastStatusToAllTabs String.eqb].
    rewrite broadcastStatusToAllTabs_globals.
    destruct newHostId as [newHost |]; cbn -[String.eqb]; [| repeat split].
    destruct (newHost =? oderId (session g)); cbn; repeat split.
  - intros room us s'. subst s'.
    unfold handleServerMessage, bind, getSession, updateSession.
    cbn -[broadcastStatusToAllTabs findUser].
    rewrite broadcastStatusToAllTabs_globals.
    destruct (findUser (oderId (session g)) us) as [me |]; cbn; repeat split.
  - intros room id allowed s'. subst s'.
    unfold handleServerMessage, when, bind, getSession, updateSession.
    cbn -[broadcastStatusToAllTabs String.eqb].
    rewrite broadcastStatusToAllTabs_globals.
    destruct (id =? oderId (session g)); cbn; repeat split.
Qed.

(** C7 as stated fails: after a [PERMISSION_CHANGED] for the local
    participant the member list is the old one and [canControl] is the
    message's, so the flag and the local entry of the list disagree. *)
Lemma handleServerMessage_membership_as_stated_fail :
  ~ (forall (now : Z) (g : Globals),
       (forall room id name count us,
          let s' := session (globals (handleServerMessage now
                      (ServerMessage.USER_JOINED room id name count us) g)) in
          users s' = us /\ flagsFromMemberList s') /\
       (forall room id count newHostId us,
          let s' := session (globals (handleServerMessage now
                      (ServerMessage.USER_LEFT room id count newHostId us) g)) in
          users s' = us /\ flagsFromMemberList s') /\
       (forall room us,
          let s' := session (globals (handleServerMessage now
                      (ServerMessage.USERS_LIST room us) g)) in
          users s' = us /\ flagsFromMemberList s') /\
       (forall room id allowed,
          let s' := session (globals (handleServerMessage now
                      (ServerMessage.PERMISSION_CHANGED room id allowed) g)) in
          flagsFromMemberList s')).
Proof.
  intros H.
  destruct (H 0%Z guestGlobals) as (_ & _ & _ & Hperm).
  specialize (Hperm "ABCD1234" "user_1" false guestEntry eq_refl).
  destruct Hperm as [_ Hcontrol]. vm_compute in Hcontrol. discriminate.
Qed.

End MessageRouter.

(** ** Connection manager: close and reconnect *)

Section Reconnect.

Import Background.
Local Open Scope Z_scope.

Lemma broadcastStatusToAllTabs_effects (g : Globals) :
  effects (broadcastStatusToAllTabs g) =
  map (fun tabId =>
         TabsSendMessage tabId (TabMessage.STATUS_UPDATE (currentStatus (session g))))
      (activeTabs g)
  ++ [RuntimeSendMessage (TabMessage.STATUS_UPDATE (currentStatus (session g)))].
Proof.
  unfold broadcastStatusToAllTabs, bind, get. cbn [value globals effects app].
  rewrite forEach_emit_effects. reflexivity.
Qed.

Lemma broadcastStatusToAllTabs_scheduled (g : Globals) :
  scheduledReconnects (effects (broadcastStatusToAllTabs g)) = [].
Proof.
  rewrite broadcastStatusToAllTabs_effects. unfold scheduledReconnects.
  rewrite flat_map_app. cbn. rewrite app_nil_r.
  induction (activeTabs g); [reflexivity | assumption].
Qed.

Lemma broadcastStatusToAllTabs_sent (g : Globals) :
  sentToSocket (effects (broadcastStatusToAllTabs g)) = [].
Proof.
  rewrite broadcastStatusToAllTabs_effects. unfold sentToSocket.
  rewrite flat_map_app. cbn. rewrite app_nil_r.
  induction (activeTabs g); [reflexivity | assumption].
Qed.

(** [stopHeartbeat] leaves the session with no interval handle, and nothing
    else changed. *)
Lemma stopHeartbeat_globals (g : Globals) :
  globals (stopHeartbeat g) =
  mkGlobals (set_heartbeatInterval false (session g))
            (activeTabs g) (tabStates g) (pendingOperation g).
Proof.
  destruct g as [s tabs states pending]. destruct s.
  unfold stopHeartbeat, bind, getSession, when. cbn.
  destruct heartbeatInterval0; reflexivity.
Qed.

Lemma stopHeartbeat_effects (g : Globals) :
  effects (stopHeartbeat g) =
  if heartbeatInterval (session g) then [ClearIntervalHeartbeat] else [].
Proof.
  unfold stopHeartbeat, bind, getSession, when. cbn.
  destruct (heartbeatInterval (session g)); reflexivity.
Qed.

(** The effect filters over the pieces of a trace. *)
Lemma scheduledReconnects_app (es1 es2 : list Effect) :
  scheduledReconnects (es1 ++ es2) = scheduledReconnects es1 ++ scheduledReconnects es2.
Proof. apply flat_map_app. Qed.

Lemma forwarded_app (es1 es2 : list Effect) :
  forwarded (es1 ++ es2) = forwarded es1 ++ forwarded es2.
Proof. apply flat_map_app. Qed.

Lemma sentToSocket_app (es1 es2 : list Effect) :
  sentToSocket (es1 ++ es2) = sentToSocket es1 ++ sentToSocket es2.
Proof. apply flat_map_app. Qed.

Lemma stopHeartbeat_scheduled (g : Globals) :
  scheduledReconnects (effects (stopHeartbeat g)) = [].
Proof.
  rewrite stopHeartbeat_effects. destruct (heartbeatInterval (session g)); reflexivity.
Qed.

Lemma stopHeartbeat_forwarded (g : Globals) :
  forwarded (effects (stopHeartbeat g)) = [].
Proof.
  rewrite stopHeartbeat_effects. destruct (heartbeatInterval (session g)); reflexivity.
Qed.

Lemma stopHeartbeat_sent (g : Globals) :
  sentToSocket (effects (stopHeartbeat g)) = [].
Proof.
  rewrite stopHeartbeat_effects. destruct (heartbeatInterval (session g)); reflexivity.
Qed.

End Reconnect.

Create Rewrite HintDb trace.

#[global] Hint Rewrite
  scheduledReconnects_app forwarded_app sentToSocket_app
  broadcastStatusToAllTabs_globals stopHeartbeat_globals
  broadcastStatusToAllTabs_scheduled broadcastStatusToAllTabs_forwarded
  broadcastStatusToAllTabs_sent
  stopHeartbeat_scheduled stopHeartbeat_forwarded stopHeartbeat_sent
  : trace.

(** Symbolic execution of a handler down to its stuck tests, with the
    traces of the status broadcast and of the heartbeat filtered out. *)
Ltac run_trace :=
  repeat (progress (run_handler; autorewrite with trace));
  change (Background.scheduledReconnects (?e :: ?es))
    with (Background.scheduledReconnects [e] ++ Background.scheduledReconnects es) in *;
  change (Background.forwarded (?e :: ?es))
    with (Background.forwarded [e] ++ Background.forwarded es) in *;
  repeat (progress (run_handler; autorewrite with trace)).

Section CloseAndReconnect.

Import Background.
Local Open Scope Z_scope.

(** A clean close, or a close outside a room, schedules nothing and notifies
    nothing beyond the status broadcast. *)
Lemma onclose_no_reconnect (code : Z) (g : Globals) :
  code = 1000 \/ truthy (roomId (session g)) = false ->
  scheduledReconnects (effects (onclose code g)) = [] /\
  forwarded (effects (onclose code g)) = [].
Proof.
  intros Hclean.
  assert ((code =? 1000) || negb (truthy (roomId (session g))) = true) as Htest.
  { apply orb_true_iff. destruct Hclean as [-> | ->]; [left | right]; reflexivity. }
  unfold onclose. run_trace. rewrite Htest. run_trace.
  split; reflexivity.
Qed.

(** An unclean close in a room, with attempts left: one reconnect is
    scheduled, after the delay of the attempt that is now counted. *)
Lemma onclose_schedules (code : Z) (g : Globals) :
  code <> 1000 ->
  truthy (roomId (session g)) = true ->
  (reconnectAttempts (session g) < MAX_RECONNECT_ATTEMPTS)%nat ->
  let r := onclose code g in
  scheduledReconnects (effects r) =
    [reconnectDelay (S (reconnectAttempts (session g)))] /\
  forwarded (effects r) =
    [TabMessage.CONNECTION_STATUS
       (reconnecting (S (reconnectAttempts (session g))) MAX_RECONNECT_ATTEMPTS)] /\
  reconnectAttempts (session (globals r)) = S (reconnectAttempts (session g)) /\
  isReconnecting (session (globals r)) = true /\
  roomId (session (globals r)) = roomId (session g).
Proof.
  intros Hcode Hroom Hleft r. subst r.
  apply Z.eqb_neq in Hcode. apply Nat.ltb_lt in Hleft.
  unfold onclose. run_trace.
  rewrite Hcode, Hroom. cbn [orb negb]. rewrite Hleft.
  run_trace. repeat split.
Qed.

(** An unclean close in a room with the attempts used up: the failure is
    announced once, nothing is scheduled, the room is cleared. *)
Lemma onclose_gives_up (code : Z) (g : Globals) :
  code <> 1000 ->
  truthy (roomId (session g)) = true ->
  (MAX_RECONNECT_ATTEMPTS <= reconnectAttempts (session g))%nat ->
  let r := onclose code g in
  scheduledReconnects (effects r) = [] /\
  forwarded (effects r) =
    [TabMessage.CONNECTION_STATUS
       (failed "Could not reconnect to server. Please reload the page.")] /\
  roomId (session (globals r)) = None /\
  isHost (session (globals r)) = false /\
  userCount (session (globals r)) = 0 /\
  users (session (globals r)) = [] /\
  isReconnecting (session (globals r)) = false.
Proof.
  intros Hcode Hroom Hleft r. subst r.
  apply Z.eqb_neq in Hcode. apply Nat.ltb_ge in Hleft.
  unfold onclose. run_trace.
  rewrite Hcode, Hroom. cbn [orb negb]. rewrite Hleft.
  run_trace. repeat split.
Qed.

(** C4.  A close with a code other than 1000 while the room id is set (truthy
    in the JavaScript sense) schedules one reconnect after
    [min(3000 * 2^(attempt-1), 30000)] ms, where [attempt] is the incremented
    counter, as long as fewer than 5 attempts were made: 3 s, 6 s, 12 s, 24 s
    and 30 s for attempts 1 to 5.  With the attempts used up it schedules
    nothing, clears [roomId], [isHost], [userCount] and [users], and emits the
    'failed' notification exactly once: a later close finds no room and emits
    none.  A close with code 1000, or with no room id, schedules nothing. *)
Theorem onclose_reconnect (code : Z) (g : Globals) :
  let r := onclose code g in
  let attempt := S (reconnectAttempts (session g)) in
  (code <> 1000 -> truthy (roomId (session g)) = true ->
   (attempt <= MAX_RECONNECT_ATTEMPTS)%nat ->
   scheduledReconnects (effects r) =
     [Z.min (3000 * 2 ^ (Z.of_nat attempt - 1)) 30000] /\
   reconnectAttempts (session (globals r)) = attempt /\
   roomId (session (globals r)) = roomId (session g) /\
   filter isFailedNotification (forwarded (effects r)) = []) /\
  (code <> 1000 -> truthy (roomId (session g)) = true ->
   (MAX_RECONNECT_ATTEMPTS < attempt)%nat ->
   scheduledReconnects (effects r) = [] /\
   filter isFailedNotification (forwarded (effects r)) =
     [TabMessage.CONNECTION_STATUS
        (failed "Could not reconnect to server. Please reload the page.")] /\
   roomId (session (globals r)) = None /\
   isHost (session (globals r)) = false /\
   userCount (session (globals r)) = 0 /\
   users (session (globals r)) = [] /\
   (forall code',
      scheduledReconnects (effects (onclose code' (globals r))) = [] /\
      filter isFailedNotification
        (forwarded (effects (onclose code' (globals r)))) = [])) /\
  (code = 1000 \/ truthy (roomId (session g)) = false ->
   scheduledReconnects (effects r) = [] /\
   filter isFailedNotification (forwarded (effects r)) = []) /\
  map reconnectDelay [1; 2; 3; 4; 5]%nat = [3000; 6000; 12000; 24000; 30000].
Proof.
  intros r attempt. subst r attempt.
  split; [| split; [| split]].
  - intros Hcode Hroom Hleft.
    destruct (onclose_schedules code g Hcode Hroom) as (Hs & Hf & Ha & _ & Hr);
      [lia |].
    rewrite Hs, Hf, Ha, Hr. repeat split.
  - intros Hcode Hroom Hleft.
    destruct (onclose_gives_up code g Hcode Hroom)
      as (Hs & Hf & Hr & Hh & Hc & Hu & _); [lia |].
    rewrite Hs, Hf, Hr, Hh, Hc, Hu. repeat split.
    + apply onclose_no_reconnect. right. rewrite Hr. reflexivity.
    + destruct (onclose_no_reconnect code' (globals (onclose code g)))
        as [_ ->]; [| reflexivity].
      right. rewrite Hr. reflexivity.
  - intros Hclean.
    destruct (onclose_no_reconnect code g Hclean) as [-> ->]. split; reflexivity.
  - reflexivity.
Qed.

(** A guest's socket drops (code 1006) on the second attempt; a host of
    nobody, out of attempts; a clean close. *)
Lemma onclose_reconnect_witness :
  scheduledReconnects
    (effects (onclose 1006
                (mkGlobals (set_reconnectAttempts 1 guestSession) [] [] None)))
  = [6000] /\
  filter isFailedNotification
    (forwarded
       (effects (onclose 1006
                   (mkGlobals (set_reconnectAttempts 5 guestSession) [] [] None))))
  = [TabMessage.CONNECTION_STATUS
       (failed "Could not reconnect to server. Please reload the page.")] /\
  scheduledReconnects (effects (onclose 1000 guestGlobals)) = [].
Proof.
  pose proof (onclose_reconnect 1006
                (mkGlobals (set_reconnectAttempts 1 guestSession) [] [] None))
    as (Hsecond & _).
  pose proof (onclose_reconnect 1006
                (mkGlobals (set_reconnectAttempts 5 guestSession) [] [] None))
    as (_ & Hlast & _).
  pose proof (onclose_reconnect 1000 guestGlobals) as (_ & _ & Hclean & _).
  specialize (Hsecond ltac:(discriminate) eq_refl ltac:(vm_compute; lia)).
  specialize (Hlast ltac:(discriminate) eq_refl ltac:(vm_compute; lia)).
  specialize (Hclean (or_introl eq_refl)).
  split; [exact (proj1 Hsecond) | split].
  - exact (proj1 (proj2 Hlast)).
  - exact (proj1 Hclean).
Defined.

(** The whole back-off of scenario 6, run on the sample guest: six unclean
    closes in a row schedule 3 s, 6 s, 12 s, 24 s and 30 s, then announce the
    failure and leave no room. *)
Example onclose_backoff_scenario :
  let run := (onclose 1006 ;; onclose 1006 ;; onclose 1006 ;;
              onclose 1006 ;; onclose 1006 ;; onclose 1006)%handler guestGlobals in
  scheduledReconnects (effects run) = [3000; 6000; 12000; 24000; 30000] /\
  filter isFailedNotification (forwarded (effects run)) =
    [TabMessage.CONNECTION_STATUS
       (failed "Could not reconnect to server. Please reload the page.")] /\
  roomId (session (globals run)) = None.
Proof. vm_compute. repeat split. Qed.

End CloseAndReconnect.

(** ** Outbound queue *)

Section PendingQueue.

Import Background.

(** A message is durable when [shouldQueueMessage] accepts it. *)
Lemma shouldQueueMessage_false_iff (m : ClientMessage.t) :
  shouldQueueMessage m = false <->
  (exists userId, m = ClientMessage.HEARTBEAT userId) \/
  (exists roomId userId isPlaying currentTime,
     m = ClientMessage.STATE_RESPONSE roomId userId isPlaying currentTime).
Proof.
  split.
  - destruct m; cbn; try discriminate; intros _; [right | left]; eauto.
  - intros [[userId ->] | (roomId & userId & isPlaying & currentTime & ->)];
      reflexivity.
Qed.

Lemma same_json_iff (a b : ClientMessage.t) :
  ClientMessage.same_json a b = true <-> a = b.
Proof.
  unfold ClientMessage.same_json.
  destruct (ClientMessage.eq_dec a b); split; congruence.
Qed.

(** The duplicate test of [queueMessage] is membership in the queue. *)
Lemma isDuplicate_iff (message : ClientMessage.t) (q : list ClientMessage.t) :
  existsb (fun m =>
             (ClientMessage.type m =? ClientMessage.type message)%string &&
             ClientMessage.same_json m message) q = true
  <-> In message q.
Proof.
  rewrite existsb_exists. split.
  - intros (m & Hin & Htest). apply andb_true_iff in Htest as [_ Hsame].
    apply same_json_iff in Hsame. now subst.
  - intros Hin. exists message. split; [exact Hin |].
    apply andb_true_iff. split; [apply String.eqb_refl | now apply same_json_iff].
Qed.

(** The queue after [queueMessage], and what else it leaves alone. *)
Lemma queueMessage_pending (message : ClientMessage.t) (g : Globals) :
  pendingMessages (session (globals (queueMessage message g))) =
  let q := pendingMessages (session g) in
  let q1 :=
    if existsb (fun m =>
                  (ClientMessage.type m =? ClientMessage.type message)%string &&
                  ClientMessage.same_json m message) q
    then q else q ++ [message] in
  if (50 <? length q1)%nat then tl q1 else q1.
Proof.
  unfold queueMessage. run_handler. cbv zeta.
  destruct (existsb _ (pendingMessages (session g))); cbn [negb]; run_handler.
  - destruct (50 <? length (pendingMessages (session g)))%nat; run_handler;
      reflexivity.
  - destruct (50 <? length (pendingMessages (session g) ++ [message]))%nat;
      run_handler; reflexivity.
Qed.

Lemma queueMessage_effects (message : ClientMessage.t) (g : Globals) :
  effects (queueMessage message g) = [].
Proof.
  unfold queueMessage. run_handler.
  destruct (existsb _ (pendingMessages (session g))); cbn [negb]; run_handler.
  - destruct (50 <? length (pendingMessages (session g)))%nat; run_handler;
      reflexivity.
  - destruct (50 <? length (pendingMessages (session g) ++ [message]))%nat;
      run_handler; reflexivity.
Qed.

Lemma tl_Forall {A} (P : A -> Prop) (l : list A) : Forall P l -> Forall P (tl l).
Proof. intros H. destruct H; [constructor | assumption]. Qed.

Lemma tl_NoDup {A} (l : list A) : NoDup l -> NoDup (tl l).
Proof. intros H. destruct H; [constructor | assumption]. Qed.

Lemma queueMessage_bound (message : ClientMessage.t) (g : Globals) :
  (length (pendingMessages (session g)) <= 50)%nat ->
  (length (pendingMessages (session (globals (queueMessage message g)))) <= 50)%nat.
Proof.
  intros Hlen. rewrite queueMessage_pending. cbv zeta.
  destruct (existsb _ (pendingMessages (session g))).
  - destruct (Nat.ltb_spec 50 (length (pendingMessages (session g)))); lia.
  - destruct (Nat.ltb_spec 50 (length (pendingMessages (session g) ++ [message])))
      as [Hover | Hfits]; [| exact Hfits].
    destruct (pendingMessages (session g)); cbn in *; rewrite ?length_app in *;
      cbn in *; lia.
Qed.

Lemma queueMessage_overflow (message : ClientMessage.t) (g : Globals) :
  length (pendingMessages (session g)) = 50%nat ->
  ~ In message (pendingMessages (session g)) ->
  pendingMessages (session (globals (queueMessage message g))) =
  tl (pendingMessages (session g)) ++ [message].
Proof.
  intros Hlen Hnew. rewrite queueMessage_pending. cbv zeta.
  destruct (existsb _ (pendingMessages (session g))) eqn:Hdup.
  { apply isDuplicate_iff in Hdup. contradiction. }
  destruct (Nat.ltb_spec 50 (length (pendingMessages (session g) ++ [message])))
    as [_ | Hfits].
  - destruct (pendingMessages (session g)); [discriminate | reflexivity].
  - rewrite length_app in Hfits. cbn in Hfits. lia.
Qed.

Lemma queueMessage_duplicate (message : ClientMessage.t) (g : Globals) :
  (length (pendingMessages (session g)) <= 50)%nat ->
  In message (pendingMessages (session g)) ->
  pendingMessages (session (globals (queueMessage message g))) =
  pendingMessages (session g).
Proof.
  intros Hlen Hin. rewrite queueMessage_pending. cbv zeta.
  apply isDuplicate_iff in Hin. rewrite Hin.
  destruct (Nat.ltb_spec 50 (length (pendingMessages (session g)))); [lia |].
  reflexivity.
Qed.

Lemma queueMessage_appends (message : ClientMessage.t) (g : Globals) :
  (length (pendingMessages (session g)) < 50)%nat ->
  ~ In message (pendingMessages (session g)) ->
  pendingMessages (session (globals (queueMessage message g))) =
  pendingMessages (session g) ++ [message].
Proof.
  intros Hlen Hnew. rewrite queueMessage_pending. cbv zeta.
  destruct (existsb _ (pendingMessages (session g))) eqn:Hdup.
  { apply isDuplicate_iff in Hdup. contradiction. }
  destruct (Nat.ltb_spec 50 (length (pendingMessages (session g) ++ [message])))
    as [Hover | _]; [| reflexivity].
  rewrite length_app in Hover. cbn in Hover. lia.
Qed.

Lemma queueMessage_durable (message : ClientMessage.t) (g : Globals) :
  shouldQueueMessage message = true ->
  Forall (fun m => shouldQueueMessage m = true) (pendingMessages (session g)) ->
  Forall (fun m => shouldQueueMessage m = true)
         (pendingMessages (session (globals (queueMessage message g)))).
Proof.
  intros Hm Hq. rewrite queueMessage_pending. cbv zeta.
  assert (Forall (fun m => shouldQueueMessage m = true)
                 (pendingMessages (session g) ++ [message])) as Hq1.
  { apply Forall_app. split; [exact Hq | repeat constructor; exact Hm]. }
  destruct (existsb _ (pendingMessages (session g)));
    match goal with |- context [if ?b then _ else _] => destruct b end;
    try apply tl_Forall; assumption.
Qed.

Lemma queueMessage_NoDup (message : ClientMessage.t) (g : Globals) :
  NoDup (pendingMessages (session g)) ->
  NoDup (pendingMessages (session (globals (queueMessage message g)))).
Proof.
  intros Hq. rewrite queueMessage_pending. cbv zeta.
  destruct (existsb _ (pendingMessages (session g))) eqn:Hdup.
  - destruct (50 <? length (pendingMessages (session g)))%nat;
      [apply tl_NoDup |]; exact Hq.
  - assert (NoDup (pendingMessages (session g) ++ [message])) as Hq1.
    { apply NoDup_app. repeat split.
      - exact Hq.
      - repeat constructor. intros [].
      - intros x Hx [<- | []].
        apply isDuplicate_iff in Hx. congruence. }
    destruct (50 <? length (pendingMessages (session g) ++ [message]))%nat;
      [apply tl_NoDup |]; exact Hq1.
Qed.

Lemma queueMessage_invariant (message : ClientMessage.t) (g : Globals) :
  shouldQueueMessage message = true ->
  queueInvariant (pendingMessages (session g)) ->
  queueInvariant (pendingMessages (session (globals (queueMessage message g)))).
Proof.
  intros Hm (Hlen & Hdur & Hnodup). repeat split.
  - apply queueMessage_bound. exact Hlen.
  - apply queueMessage_durable; assumption.
  - apply queueMessage_NoDup. exact Hnodup.
Qed.

(** Neither a connection failure nor [connect] touches the queue. *)
Lemma handleConnectionFailure_pending (reason : string) (g : Globals) :
  pendingMessages (session (globals (handleConnectionFailure reason g))) =
  pendingMessages (session g).
Proof.
  unfold handleConnectionFailure. run_trace.
  destruct (truthy (roomId (session g)) &&
            (reconnectAttempts (session g) <? MAX_RECONNECT_ATTEMPTS)%nat);
    run_trace; reflexivity.
Qed.

Lemma connect_pending (newWebSocketThrows : bool) (g : Globals) :
  pendingMessages (session (globals (connect newWebSocketThrows g))) =
  pendingMessages (session g).
Proof.
  unfold connect. run_handler.
  destruct (socketIs OPEN (session g)); run_handler; [reflexivity |].
  destruct (socketIs CONNECTING (session g)); run_handler; [reflexivity |].
  destruct newWebSocketThrows; run_handler;
    [apply handleConnectionFailure_pending | reflexivity].
Qed.

Section WithEnvironment.

Variable socketSendThrows : ClientMessage.t -> bool.
Variable newWebSocketThrows : bool.

Local Abbreviation sendMessage :=
  (Background.sendMessage socketSendThrows newWebSocketThrows).
Local Abbreviation flushPendingMessages :=
  (Background.flushPendingMessages socketSendThrows newWebSocketThrows).

(** [sendMessage] either leaves the queue alone or, for a durable message
    only, ends in a [queueMessage] on a state with the same queue. *)
Lemma sendMessage_queue (message : ClientMessage.t) (g : Globals) :
  pendingMessages (session (globals (sendMessage message g))) =
    pendingMessages (session g) \/
  (shouldQueueMessage message = true /\
   exists g1,
     pendingMessages (session g1) = pendingMessages (session g) /\
     pendingMessages (session (globals (sendMessage message g))) =
     pendingMessages (session (globals (queueMessage message g1)))).
Proof.
  unfold Background.sendMessage. run_handler.
  destruct (socketIs OPEN (session g)).
  - destruct (socketSendThrows message); run_handler; [| left; reflexivity].
    destruct (isReconnecting (session g)), (shouldQueueMessage message);
      cbn [andb]; run_handler; try (left; reflexivity).
    right. split; [reflexivity |]. exists g. split; reflexivity.
  - destruct (isReconnecting (session g)) eqn:Hre,
             (shouldQueueMessage message) eqn:Hdurable; cbn [andb negb];
      rewrite ?andb_false_r; run_handler.
    + right. split; [reflexivity |]. exists g. split; reflexivity.
    + left. reflexivity.
    + destruct (connected (session g)); cbn [negb]; run_handler;
        [left; reflexivity |].
      right. split; [reflexivity |].
      exists (globals (connect newWebSocketThrows g)).
      split; [apply connect_pending | reflexivity].
    + destruct (connected (session g)); cbn [negb]; run_handler;
        [left; reflexivity |].
      left. apply connect_pending.
Qed.

Lemma sendMessage_invariant (message : ClientMessage.t) (g : Globals) :
  queueInvariant (pendingMessages (session g)) ->
  queueInvariant (pendingMessages (session (globals (sendMessage message g)))).
Proof.
  intros Hq.
  destruct (sendMessage_queue message g) as [-> | (Hdurable & g1 & Hsame & ->)];
    [exact Hq |].
  apply queueMessage_invariant; [exact Hdurable |]. rewrite Hsame. exact Hq.
Qed.

Lemma sendMessage_not_durable (message : ClientMessage.t) (g : Globals) :
  shouldQueueMessage message = false ->
  pendingMessages (session (globals (sendMessage message g))) =
  pendingMessages (session g).
Proof.
  intros Hm.
  destruct (sendMessage_queue message g) as [E | (Hdurable & _)];
    [exact E | congruence].
Qed.

Lemma forEach_sendMessage_invariant (messages : list ClientMessage.t) (g : Globals) :
  queueInvariant (pendingMessages (session g)) ->
  queueInvariant
    (pendingMessages (session (globals (forEach messages sendMessage g)))).
Proof.
  revert g. induction messages as [| m messages IH]; intros g Hq; [exact Hq |].
  cbn [forEach]. rewrite bind_globals.
  apply IH. apply sendMessage_invariant. exact Hq.
Qed.

Lemma flushPendingMessages_invariant (g : Globals) :
  queueInvariant (pendingMessages (session g)) ->
  queueInvariant (pendingMessages (session (globals (flushPendingMessages g)))).
Proof.
  intros Hq. unfold Background.flushPendingMessages. run_handler.
  destruct (length (pendingMessages (session g)) =? 0)%nat; run_handler;
    [exact Hq |].
  apply forEach_sendMessage_invariant. unfold queueInvariant. run_handler.
  repeat split; [cbn; lia | constructor | constructor].
Qed.

End WithEnvironment.

(** C6.  [sendMessage] never changes the queue for a [HEARTBEAT] or a
    [STATE_RESPONSE]; [sendMessage] and [flushPendingMessages] keep the queue
    within 50 entries, all durable and without repetition; a [queueMessage]
    on a queue of at most 50 entries leaves at most 50, on a full queue it
    drops the oldest entry to append a new message, and it leaves the queue
    as it is when the message is already in it. *)
Theorem pendingMessages_invariant
    (socketSendThrows : ClientMessage.t -> bool) (newWebSocketThrows : bool) :
  (forall message g,
     (exists userId, message = ClientMessage.HEARTBEAT userId) \/
     (exists roomId userId isPlaying currentTime,
        message = ClientMessage.STATE_RESPONSE roomId userId isPlaying currentTime) ->
     pendingMessages (session (globals
       (sendMessage socketSendThrows newWebSocketThrows message g))) =
     pendingMessages (session g)) /\
  (forall message g,
     queueInvariant (pendingMessages (session g)) ->
     queueInvariant (pendingMessages (session (globals
       (sendMessage socketSendThrows newWebSocketThrows message g))))) /\
  (forall g,
     queueInvariant (pendingMessages (session g)) ->
     queueInvariant (pendingMessages (session (globals
       (flushPendingMessages socketSendThrows newWebSocketThrows g))))) /\
  (forall message g,
     (length (pendingMessages (session g)) <= 50)%nat ->
     (length (pendingMessages (session (globals (queueMessage message g)))) <= 50)%nat) /\
  (forall message g,
     length (pendingMessages (session g)) = 50%nat ->
     ~ In message (pendingMessages (session g)) ->
     pendingMessages (session (globals (queueMessage message g))) =
     tl (pendingMessages (session g)) ++ [message]) /\
  (forall message g,
     (length (pendingMessages (session g)) <= 50)%nat ->
     In message (pendingMessages (session g)) ->
     pendingMessages (session (globals (queueMessage message g))) =
     pendingMessages (session g)).
Proof.
  repeat split.
  - intros message g Hkind. apply sendMessage_not_durable.
    apply shouldQueueMessage_false_iff. exact Hkind.
  - apply sendMessage_invariant; assumption.
  - apply sendMessage_invariant; assumption.
  - apply sendMessage_invariant; assumption.
  - apply flushPendingMessages_invariant; assumption.
  - apply flushPendingMessages_invariant; assumption.
  - apply flushPendingMessages_invariant; assumption.
  - apply queueMessage_bound.
  - apply queueMessage_overflow.
  - apply queueMessage_duplicate.
Qed.

Lemma queueInvariant_nil : queueInvariant [].
Proof. repeat split; [cbn; lia | constructor | constructor]. Qed.

(** During a reconnect: a heartbeat is not queued, a leave request is; a
    fifty-first message pushes the oldest one out; a repeated one is
    ignored. *)
Lemma pendingMessages_invariant_witness :
  pendingMessages (session (globals
    (sendMessage (fun _ => false) false (ClientMessage.HEARTBEAT "user_1")
       (droppedGlobals [])))) = [] /\
  queueInvariant (pendingMessages (session (globals
    (sendMessage (fun _ => false) false
       (ClientMessage.LEAVE_ROOM "ABCD1234" "user_1") (droppedGlobals []))))) /\
  pendingMessages (session (globals
    (queueMessage (ClientMessage.LEAVE_ROOM "ABCD1234" "user_1")
       (droppedGlobals fullQueue)))) =
  tl fullQueue ++ [ClientMessage.LEAVE_ROOM "ABCD1234" "user_1"] /\
  pendingMessages (session (globals
    (queueMessage (ClientMessage.LEAVE_ROOM "ABCD1234" "user_1")
       (droppedGlobals [ClientMessage.LEAVE_ROOM "ABCD1234" "user_1"])))) =
  [ClientMessage.LEAVE_ROOM "ABCD1234" "user_1"].
Proof.
  pose proof (pendingMessages_invariant (fun _ => false) false)
    as (Hheartbeat & Hsend & _ & _ & Hoverflow & Hduplicate).
  split; [| split; [| split]].
  - apply (Hheartbeat (ClientMessage.HEARTBEAT "user_1") (droppedGlobals [])).
    left. exists "user_1"%string. reflexivity.
  - apply (Hsend (ClientMessage.LEAVE_ROOM "ABCD1234" "user_1") (droppedGlobals [])).
    exact queueInvariant_nil.
  - apply (Hoverflow (ClientMessage.LEAVE_ROOM "ABCD1234" "user_1")
             (droppedGlobals fullQueue)).
    + reflexivity.
    + intros Hin. vm_compute in Hin.
      repeat (destruct Hin as [Hin | Hin]; [discriminate |]). exact Hin.
  - apply (Hduplicate (ClientMessage.LEAVE_ROOM "ABCD1234" "user_1")
             (droppedGlobals [ClientMessage.LEAVE_ROOM "ABCD1234" "user_1"])).
    + cbn. lia.
    + left. reflexivity.
Defined.

End PendingQueue.

(** ** Connection manager: open *)

Section Open.

Import Background.

Variable socketSendThrows : ClientMessage.t -> bool.
Variable newWebSocketThrows : bool.

Local Abbreviation sendMessage :=
  (Background.sendMessage socketSendThrows newWebSocketThrows).
Local Abbreviation flushPendingMessages :=
  (Background.flushPendingMessages socketSendThrows newWebSocketThrows).
Local Abbreviation onopen :=
  (Background.onopen socketSendThrows newWebSocketThrows).
Local Abbreviation transmitted := (Background.transmitted socketSendThrows).

(** Connected and not reconnecting, [sendMessage] changes no global: it
    transmits or drops. *)
Lemma sendMessage_connected (message : ClientMessage.t) (g : Globals) :
  connected (session g) = true ->
  isReconnecting (session g) = false ->
  globals (sendMessage message g) = g /\
  sentToSocket (effects (sendMessage message g)) = transmitted (session g) [message].
Proof.
  intros Hconn Hre. unfold Background.sendMessage, Background.transmitted. run_handler.
  rewrite Hconn, Hre. cbn [andb negb filter].
  destruct (socketIs OPEN (session g)); run_handler; [| split; reflexivity].
  destruct (socketSendThrows message); run_handler; split; reflexivity.
Qed.

Lemma forEach_sendMessage_connected (messages : list ClientMessage.t) (g : Globals) :
  connected (session g) = true ->
  isReconnecting (session g) = false ->
  globals (forEach messages sendMessage g) = g /\
  sentToSocket (effects (forEach messages sendMessage g)) =
  transmitted (session g) messages.
Proof.
  intros Hconn Hre. induction messages as [| m messages [IHg IHe]].
  - split; [reflexivity |]. unfold Background.transmitted.
    destruct (socketIs OPEN (session g)); reflexivity.
  - destruct (sendMessage_connected m g Hconn Hre) as [Hg He].
    cbn [forEach]. rewrite bind_globals, bind_effects, sentToSocket_app.
    rewrite Hg, He, IHg, IHe. split; [reflexivity |].
    unfold Background.transmitted. destruct (socketIs OPEN (session g)); [| reflexivity].
    cbn [filter]. destruct (negb (socketSendThrows m)); reflexivity.
Qed.

Lemma startHeartbeat_sent (g : Globals) :
  sentToSocket (effects (startHeartbeat g)) = [].
Proof. unfold startHeartbeat. run_trace. reflexivity. Qed.

(** The open handler transmits the queue it finds and nothing else: the
    test that guards the rejoin reads [isReconnecting] after the handler has
    cleared it. *)
Lemma onopen_transmits_only_the_queue (now : Z) (g : Globals) :
  sentToSocket (effects (onopen now g)) =
  transmitted (session g) (pendingMessages (session g)).
Proof.
  unfold Background.onopen.
  repeat (rewrite bind_effects, sentToSocket_app).
  run_handler.
  set (g1 := mkGlobals _ (activeTabs g) (tabStates g) (pendingOperation g)).
  assert (isReconnecting (session (globals (flushPendingMessages g1))) = false /\
          sentToSocket (effects (flushPendingMessages g1)) =
          transmitted (session g) (pendingMessages (session g)))
    as [Hre Hsent].
  { unfold Background.flushPendingMessages. run_handler. subst g1. run_handler.
    destruct (pendingMessages (session g)) as [| m q] eqn:Hq; cbn [length Nat.eqb];
      run_handler.
    - split; [reflexivity |]. unfold Background.transmitted.
      destruct (socketIs OPEN (session g)); reflexivity.
    - match goal with
      | |- context [forEach _ _ ?g2] =>
          destruct (forEach_sendMessage_connected (m :: q) g2 eq_refl eq_refl)
            as [Hg He]
      end.
      rewrite Hg, He. split; reflexivity. }
  rewrite Hsent, Hre.
  rewrite andb_false_r.
  destruct (roomId (session (globals (flushPendingMessages g1))));
    run_handler; rewrite startHeartbeat_sent; autorewrite with trace;
    cbn [sentToSocket flat_map app]; rewrite ?app_nil_r; reflexivity.
Qed.

End Open.

Section Rejoin.

Import Background.

(** C2, on the code.  The replacement socket of a guest who is still in room
    ABCD1234 opens, [send] never throws.  The handler resets the attempt
    counter, records the time, starts the heartbeat and broadcasts the status,
    but puts nothing on the socket: no [JOIN_ROOM] is issued, although the room
    id is set and the session was reconnecting. *)
Theorem onopen_reconnect_does_not_rejoin :
  roomId (session reopenedGlobals) = Some "ABCD1234"%string /\
  isReconnecting (session reopenedGlobals) = true /\
  sentToSocket (effects (onopen (fun _ => false) false 5000 reopenedGlobals)) = [] /\
  existsb isJoinRoom
    (sentToSocket (effects (onopen (fun _ => false) false 5000 reopenedGlobals)))
  = false /\
  reconnectAttempts
    (session (globals (onopen (fun _ => false) false 5000 reopenedGlobals))) = 0%nat /\
  lastSuccessfulConnection
    (session (globals (onopen (fun _ => false) false 5000 reopenedGlobals))) = 5000%Z /\
  heartbeatInterval
    (session (globals (onopen (fun _ => false) false 5000 reopenedGlobals))) = true /\
  roomId (session (globals (onopen (fun _ => false) false 5000 reopenedGlobals)))
  = Some "ABCD1234"%string.
Proof. vm_compute. repeat split. Qed.

(** With a queue, the open handler transmits it oldest first, and still no
    rejoin follows. *)
Example onopen_flushes_in_order :
  sentToSocket
    (effects (onopen (fun _ => false) false 5000
                (mkGlobals
                   (set_pendingMessages
                      [ClientMessage.SET_NAME "user_1" "Ada";
                       ClientMessage.GET_USERS "ABCD1234" "user_1"]
                      (session reopenedGlobals))
                   [3%nat; 8%nat] [] None)))
  = [ClientMessage.SET_NAME "user_1" "Ada";
     ClientMessage.GET_USERS "ABCD1234" "user_1"].
Proof. vm_compute. reflexivity. Qed.

End Rejoin.

(* ===================================================================== *)
(** * Further properties of the adaptive sync controller *)
(* ===================================================================== *)

Section LatencyEstimate.

Import AdaptiveSync.
Local Open Scope Q_scope.

(** The clamp: whatever the clock offset, the reported latency is the
    adjusted latency cut to the interval from 0 to the ceiling. *)
Lemma calculateLatency_clamped (now ts : Q) (ctl : AdaptiveSyncController) :
  exists adjusted,
    fst (calculateLatency now ts ctl) =
    Qmax 0 (Qmin adjusted (maxLatencyCompensation (config ctl))).
Proof.
  unfold calculateLatency. cbn [fst].
  destruct (Qltb (now - ts) (- (100))); [eexists; reflexivity |].
  destruct (Qgtb (now - ts) (maxLatencyCompensation (config ctl)));
    eexists; reflexivity.
Qed.

(** X1.  Under a ceiling that is not negative, [calculateLatency] reports a
    latency between 0 and the ceiling, for every timestamp and every state
    of the estimator. *)
Theorem calculateLatency_range (now ts : Q) (ctl : AdaptiveSyncController) :
  0 <= maxLatencyCompensation (config ctl) ->
  0 <= fst (calculateLatency now ts ctl) /\
  fst (calculateLatency now ts ctl) <= maxLatencyCompensation (config ctl).
Proof.
  intros Hmax. destruct (calculateLatency_clamped now ts ctl) as [adjusted ->].
  split.
  - apply Q.le_max_l.
  - apply Q.max_lub; [exact Hmax | apply Q.le_min_r].
Qed.

Lemma calculateLatency_range_witness :
  0 <= fst (calculateLatency 1000 (-4000) (newController DEFAULT_SYNC_CONFIG)) /\
  fst (calculateLatency 1000 (-4000) (newController DEFAULT_SYNC_CONFIG)) <= 2000.
Proof.
  apply (calculateLatency_range 1000 (-4000) (newController DEFAULT_SYNC_CONFIG)).
  vm_compute. discriminate.
Defined.

(** [push_bounded] keeps a window within its capacity and puts the new
    sample last. *)
Lemma push_bounded_length (cap : nat) (x : Q) (arr : list Q) :
  (length arr <= cap)%nat -> (length (push_bounded cap x arr) <= cap)%nat.
Proof.
  intros Hlen. unfold push_bounded.
  destruct (Nat.ltb_spec cap (length (arr ++ [x]))) as [Hover | Hfits];
    [| exact Hfits].
  rewrite length_app in Hover. cbn in Hover.
  destruct arr; cbn in *; [lia |]. rewrite length_app. cbn. lia.
Qed.

Lemma push_bounded_last (cap : nat) (x : Q) (arr : list Q) :
  (0 < cap)%nat -> last (push_bounded cap x arr) 0 = x.
Proof.
  intros Hcap. unfold push_bounded.
  destruct (Nat.ltb_spec cap (length (arr ++ [x]))) as [Hover | _].
  - rewrite length_app in Hover. cbn in Hover.
    destruct arr as [| a arr]; [cbn in Hover; lia |].
    cbn [app tl]. apply last_last.
  - apply last_last.
Qed.

Lemma push_bounded_nonempty (cap : nat) (x : Q) (arr : list Q) :
  (0 < cap)%nat -> push_bounded cap x arr <> [].
Proof.
  intros Hcap E. apply (f_equal (@length Q)) in E. revert E.
  unfold push_bounded.
  destruct (Nat.ltb_spec cap (length (arr ++ [x]))) as [Hover | _];
    rewrite ?length_app in *; cbn in *.
  - destruct arr as [| a arr]; cbn in *; [lia |]. rewrite length_app. cbn. lia.
  - lia.
Qed.

(** X2.  Both rolling windows stay bounded: a call of [calculateLatency] on
    a controller with at most 10 clock-offset samples and at most 20 latency
    samples leaves at most 10 and at most 20, and the latency it returns is
    the newest latency sample. *)
Theorem calculateLatency_windows (now ts : Q) (ctl : AdaptiveSyncController) :
  (length (clockOffsetSamples ctl) <= maxClockSamples)%nat ->
  (length (latencySamples ctl) <= maxLatencySamples)%nat ->
  let r := calculateLatency now ts ctl in
  (length (clockOffsetSamples (snd r)) <= 10)%nat /\
  (length (latencySamples (snd r)) <= 20)%nat /\
  last (latencySamples (snd r)) 0 = fst r.
Proof.
  intros Hclock Hlat r. subst r. unfold calculateLatency. cbn [fst snd].
  set (c1 := if Qltb (now - ts) (- (100)) then _ else _).
  assert ((length (clockOffsetSamples c1) <= 10)%nat /\
          latencySamples c1 = latencySamples ctl) as [Hc1 Hl1].
  { subst c1.
    destruct (Qltb (now - ts) (- (100)));
      [| destruct (Qgtb (now - ts) (maxLatencyCompensation (config ctl)))];
      cbn [updateClockOffset set_clock clockOffsetSamples latencySamples];
      (split; [| reflexivity]); try exact Hclock;
      apply push_bounded_length; exact Hclock. }
  unfold recordLatency.
  cbn [set_latencySamples clockOffsetSamples latencySamples].
  rewrite Hl1. split; [exact Hc1 | split].
  - apply push_bounded_length. exact Hlat.
  - apply push_bounded_last. unfold maxLatencySamples. lia.
Qed.

(** On the controller whose windows are full, with a timestamp 500 ms ahead
    of the clock: both windows take the new sample and drop their oldest. *)
Lemma calculateLatency_windows_witness :
  length (clockOffsetSamples seasonedController) = 10%nat /\
  length (latencySamples seasonedController) = 20%nat /\
  hd 0 (clockOffsetSamples (snd (calculateLatency 1000 1500 seasonedController)))
  = -(130) /\
  hd 0 (latencySamples (snd (calculateLatency 1000 1500 seasonedController))) = 55 /\
  (length (clockOffsetSamples (snd (calculateLatency 1000 1500 seasonedController)))
   <= 10)%nat /\
  (length (latencySamples (snd (calculateLatency 1000 1500 seasonedController)))
   <= 20)%nat /\
  last (latencySamples (snd (calculateLatency 1000 1500 seasonedController))) 0
  = fst (calculateLatency 1000 1500 seasonedController).
Proof.
  pose proof (calculateLatency_windows 1000 1500 seasonedController) as H.
  specialize (H ltac:(vm_compute; lia) ltac:(vm_compute; lia)).
  split; [reflexivity | split; [reflexivity |]].
  split; [vm_compute; reflexivity | split; [vm_compute; reflexivity | exact H]].
Defined.

End LatencyEstimate.

Section ClockOffsetMedian.

Import AdaptiveSync.
Local Open Scope Q_scope.

(** The sort is a sort: a permutation of its input, in ascending order. *)
Lemma insert_sorted_perm (x : Q) (l : list Q) :
  Permutation (insert_sorted x l) (x :: l).
Proof.
  induction l as [| y l IH]; cbn; [reflexivity |].
  destruct (Qle_bool x y); [reflexivity |].
  rewrite IH. apply perm_swap.
Qed.

Lemma sort_ascending_perm (l : list Q) : Permutation (sort_ascending l) l.
Proof.
  induction l as [| x l IH]; cbn; [reflexivity |].
  rewrite insert_sorted_perm. now constructor.
Qed.

Lemma insert_sorted_sorted (x : Q) (l : list Q) :
  StronglySorted Qle l -> StronglySorted Qle (insert_sorted x l).
Proof.
  induction 1 as [| y l Hsorted IH Hall]; cbn.
  - repeat constructor.
  - destruct (Qle_bool x y) eqn:Hxy.
    + apply Qle_bool_iff in Hxy. constructor; [now constructor |].
      constructor; [exact Hxy |].
      eapply Forall_impl; [| exact Hall].
      intros z Hz. eapply Qle_trans; eassumption.
    + assert (y <= x) as Hyx.
      { apply Qlt_le_weak. apply Qnot_le_lt. intros H.
        apply Qle_bool_iff in H. congruence. }
      constructor; [exact IH |].
      eapply Permutation_Forall; [symmetry; apply insert_sorted_perm |].
      constructor; assumption.
Qed.

Lemma sort_ascending_sorted (l : list Q) : StronglySorted Qle (sort_ascending l).
Proof.
  induction l as [| x l IH]; cbn; [constructor | now apply insert_sorted_sorted].
Qed.

Lemma filter_none {A} (f : A -> bool) (l : list A) :
  Forall (fun x => f x = false) l -> filter f l = [].
Proof.
  induction 1 as [| x l Hx _ IH]; cbn; [reflexivity |]. now rewrite Hx.
Qed.

Lemma filter_length_perm {A} (f : A -> bool) (l l' : list A) :
  Permutation l l' -> length (filter f l) = length (filter f l').
Proof.
  induction 1 as [| x l l' _ IH | x y l | l l' l'' _ IH1 _ IH2]; cbn.
  - reflexivity.
  - destruct (f x); cbn; now rewrite IH.
  - destruct (f x), (f y); reflexivity.
  - now rewrite IH1.
Qed.

(** In a sorted list the elements from index [i] on are at least the one at
    index [i], and the elements up to index [i] are at most it. *)
Lemma sorted_skipn_ge (l : list Q) (i : nat) :
  StronglySorted Qle l -> (i < length l)%nat ->
  Forall (fun x => nth i l 0 <= x) (skipn i l).
Proof.
  intros Hsorted. revert i.
  induction Hsorted as [| y l Hsorted IH Hall]; intros i Hi; cbn in Hi; [lia |].
  destruct i as [| i]; cbn [nth skipn].
  - constructor; [apply Qle_refl | exact Hall].
  - apply IH. lia.
Qed.

Lemma sorted_firstn_le (l : list Q) (i : nat) :
  StronglySorted Qle l -> (i < length l)%nat ->
  Forall (fun x => x <= nth i l 0) (firstn (S i) l).
Proof.
  intros Hsorted. revert i.
  induction Hsorted as [| y l Hsorted IH Hall]; intros i Hi; cbn in Hi; [lia |].
  destruct i as [| i]; cbn [nth firstn].
  - repeat constructor. apply Qle_refl.
  - constructor; [| apply IH; lia].
    rewrite Forall_forall in Hall. apply Hall. apply nth_In. lia.
Qed.

Lemma sorted_count_below (l : list Q) (i : nat) :
  StronglySorted Qle l -> (i < length l)%nat ->
  (length (filter (fun x => Qltb x (nth i l 0%Q)) l) <= i)%nat.
Proof.
  intros Hsorted Hi.
  pose proof (sorted_skipn_ge l i Hsorted Hi) as Hge.
  set (m := nth i l 0) in *.
  rewrite <- (firstn_skipn i l). rewrite filter_app, length_app.
  rewrite (filter_none _ (skipn i l)).
  - cbn [length]. rewrite Nat.add_0_r.
    eapply Nat.le_trans; [apply filter_length_le |].
    rewrite length_firstn. lia.
  - eapply Forall_impl; [| exact Hge].
    intros x Hx. apply Qltb_ge. exact Hx.
Qed.

Lemma sorted_count_above (l : list Q) (i : nat) :
  StronglySorted Qle l -> (i < length l)%nat ->
  (length (filter (fun x => Qltb (nth i l 0%Q) x) l) <= length l - S i)%nat.
Proof.
  intros Hsorted Hi.
  pose proof (sorted_firstn_le l i Hsorted Hi) as Hle.
  set (m := nth i l 0) in *.
  rewrite <- (firstn_skipn (S i) l) at 1. rewrite filter_app, length_app.
  rewrite (filter_none _ (firstn (S i) l)).
  - cbn [length Nat.add]. eapply Nat.le_trans; [apply filter_length_le |].
    rewrite length_skipn. lia.
  - eapply Forall_impl; [| exact Hle].
    intros x Hx. apply Qltb_ge. exact Hx.
Qed.

(** The median index is inside the sorted window, which is never empty. *)
Lemma updateClockOffset_window (sample : Q) (ctl : AdaptiveSyncController) :
  let w := push_bounded maxClockSamples sample (clockOffsetSamples ctl) in
  clockOffsetSamples (updateClockOffset sample ctl) = w /\
  clockOffset (updateClockOffset sample ctl) =
    nth (length (sort_ascending w) / 2) (sort_ascending w) 0 /\
  (length (sort_ascending w) / 2 < length (sort_ascending w))%nat.
Proof.
  intros w. split; [reflexivity | split; [reflexivity |]].
  assert (w <> []) as Hne.
  { apply push_bounded_nonempty. unfold maxClockSamples. lia. }
  rewrite (Permutation_length (sort_ascending_perm w)).
  apply Nat.div_lt; [| lia].
  destruct w; [congruence | cbn; lia].
Qed.

Lemma updateClockOffset_in_window (sample : Q) (ctl : AdaptiveSyncController) :
  In (clockOffset (updateClockOffset sample ctl))
     (push_bounded maxClockSamples sample (clockOffsetSamples ctl)).
Proof.
  destruct (updateClockOffset_window sample ctl) as (_ & -> & Hidx).
  apply (Permutation_in _ (sort_ascending_perm _)). apply nth_In. exact Hidx.
Qed.

(** X3.  After [updateClockOffset] the clock offset is a median of the
    window: it is one of the samples, at most half of the samples lie
    strictly below it and fewer than half strictly above it.  The window is
    the old one with the sample appended and, past 10 entries, its oldest
    entry dropped. *)
Theorem updateClockOffset_median (sample : Q) (ctl : AdaptiveSyncController) :
  let c' := updateClockOffset sample ctl in
  let w := clockOffsetSamples c' in
  w = push_bounded 10 sample (clockOffsetSamples ctl) /\
  In (clockOffset c') w /\
  (length (filter (fun x => Qltb x (clockOffset c')) w) <= length w / 2)%nat /\
  (2 * length (filter (fun x => Qltb (clockOffset c') x) w) < length w)%nat.
Proof.
  intros c' w. subst c' w.
  destruct (updateClockOffset_window sample ctl) as (Hw & Hoff & Hidx).
  pose proof (updateClockOffset_in_window sample ctl) as Hin.
  rewrite Hw, Hoff in *. clear Hw Hoff.
  set (w := push_bounded maxClockSamples sample (clockOffsetSamples ctl)) in *.
  pose proof (sort_ascending_perm w) as Hperm.
  pose proof (sort_ascending_sorted w) as Hsorted.
  pose proof (Permutation_length Hperm) as Hlen.
  set (s := sort_ascending w) in *.
  split; [reflexivity | split; [exact Hin | split]].
  - rewrite <- (filter_length_perm _ _ _ Hperm), <- Hlen.
    apply sorted_count_below; assumption.
  - rewrite <- (filter_length_perm _ _ _ Hperm), <- Hlen.
    pose proof (sorted_count_above s (length s / 2) Hsorted Hidx) as Habove.
    pose proof (Nat.div_mod_eq (length s) 2) as Hdiv.
    pose proof (Nat.mod_upper_bound (length s) 2 ltac:(lia)) as Hmod.
    lia.
Qed.

(** X4.  The estimator is exact on agreeing samples: if every sample in the
    window is the same number as the new sample, that number is the
    offset. *)
Theorem updateClockOffset_constant (sample : Q) (ctl : AdaptiveSyncController) :
  Forall (fun x => x = sample) (clockOffsetSamples ctl) ->
  clockOffset (updateClockOffset sample ctl) = sample.
Proof.
  intros Hall.
  pose proof (updateClockOffset_in_window sample ctl) as Hin.
  assert (Forall (fun x => x = sample)
                 (push_bounded maxClockSamples sample (clockOffsetSamples ctl)))
    as Hall'.
  { unfold push_bounded.
    assert (Forall (fun x => x = sample) (clockOffsetSamples ctl ++ [sample])) as H1.
    { apply Forall_app. split; [exact Hall | repeat constructor]. }
    destruct (maxClockSamples <? length (clockOffsetSamples ctl ++ [sample]))%nat;
      [| exact H1].
    destruct H1; [constructor | assumption]. }
  rewrite Forall_forall in Hall'. apply Hall'. exact Hin.
Qed.

Lemma updateClockOffset_constant_witness :
  clockOffset
    (updateClockOffset (-(200))
       (updateClockOffset (-(200)) (newController DEFAULT_SYNC_CONFIG)))
  = -(200).
Proof.
  apply (updateClockOffset_constant (-(200))
           (updateClockOffset (-(200)) (newController DEFAULT_SYNC_CONFIG))).
  vm_compute. repeat constructor.
Defined.

(** X5.  On a controller whose clock-offset window is empty, an event
    stamped more than 100 ms in the future makes its raw latency the clock
    offset and is reported with latency 0; an event older than the ceiling
    makes the raw latency less 200 ms the clock offset and is reported with
    the 200 ms baseline (cut to the ceiling). *)
Theorem calculateLatency_clock_skew (now ts : Q) (ctl : AdaptiveSyncController) :
  clockOffsetSamples ctl = [] ->
  0 <= maxLatencyCompensation (config ctl) ->
  let raw := now - ts in
  let r := calculateLatency now ts ctl in
  (raw < -(100) ->
   clockOffset (snd r) = raw /\ clockOffsetSamples (snd r) = [raw] /\ fst r == 0) /\
  (maxLatencyCompensation (config ctl) < raw ->
   clockOffset (snd r) = raw - 200 /\ clockOffsetSamples (snd r) = [raw - 200] /\
   fst r == Qmin 200 (maxLatencyCompensation (config ctl))).
Proof.
  intros Hempty Hmax raw r. subst raw r. unfold calculateLatency. cbn [fst snd].
  split; intros Hraw.
  - rewrite (Qltb_lt _ _ Hraw).
    unfold updateClockOffset, recordLatency. rewrite Hempty.
    cbn [push_bounded app length Nat.ltb Nat.leb maxClockSamples tl
         sort_ascending insert_sorted Nat.div Nat.divmod fst nth
         set_clock set_latencySamples clockOffset clockOffsetSamples config].
    split; [reflexivity | split; [reflexivity |]].
    set (m := maxLatencyCompensation (config ctl)) in *.
    set (a := now - ts - (now - ts)). assert (a == 0) as Ha by (unfold a; lra).
    destruct (Q.min_spec a m) as [[H1 E1] | [H1 E1]];
    destruct (Q.max_spec 0 (Qmin a m)) as [[H2 E2] | [H2 E2]]; lra.
  - rewrite Qltb_ge by lra. unfold Qgtb. rewrite (Qltb_lt _ _ Hraw).
    unfold updateClockOffset, recordLatency. rewrite Hempty.
    cbn [push_bounded app length Nat.ltb Nat.leb maxClockSamples tl
         sort_ascending insert_sorted Nat.div Nat.divmod fst nth
         set_clock set_latencySamples clockOffset clockOffsetSamples config].
    split; [reflexivity | split; [reflexivity |]].
    set (m := maxLatencyCompensation (config ctl)) in *.
    set (a := now - ts - (now - ts - 200)).
    assert (a == 200) as Ha by (unfold a; lra).
    destruct (Q.min_spec a m) as [[H1 E1] | [H1 E1]];
    destruct (Q.min_spec 200 m) as [[H3 E3] | [H3 E3]];
    destruct (Q.max_spec 0 (Qmin a m)) as [[H2 E2] | [H2 E2]]; lra.
Qed.

Lemma calculateLatency_clock_skew_witness :
  clockOffset (snd (calculateLatency 1000 1500 (newController DEFAULT_SYNC_CONFIG)))
  = 1000 - 1500 /\
  fst (calculateLatency 1000 (-(2000)) (newController DEFAULT_SYNC_CONFIG))
  == Qmin 200 2000.
Proof.
  pose proof (calculateLatency_clock_skew 1000 1500
                (newController DEFAULT_SYNC_CONFIG) eq_refl)
    as Hahead.
  pose proof (calculateLatency_clock_skew 1000 (-(2000))
                (newController DEFAULT_SYNC_CONFIG) eq_refl)
    as Hbehind.
  specialize (Hahead ltac:(vm_compute; discriminate)).
  specialize (Hbehind ltac:(vm_compute; discriminate)).
  cbv zeta in Hahead, Hbehind.
  split.
  - exact (proj1 (proj1 Hahead ltac:(vm_compute; reflexivity))).
  - exact (proj2 (proj2 (proj2 Hbehind ltac:(vm_compute; reflexivity)))).
Defined.

End ClockOffsetMedian.

Section ActionsAndStatistics.

Import AdaptiveSync.
Local Open Scope Q_scope.

Local Abbreviation scaled d k := (Double.mul (Double.div d 1000) k).

Lemma scaled_nonneg (d k : Q) : 0 <= d -> 0 <= k -> 0 <= scaled d k.
Proof.
  intros Hd Hk. apply round_nonneg. apply Qmult_le_0_compat; [| exact Hk].
  apply round_nonneg. apply Qle_shift_div_l; lra.
Qed.

(** [1 + y] is at least 1 and [1 - y] at most 1, for [y >= 0], in doubles as
    well. *)
Lemma add_one_ge (y : Q) : 0 <= y -> 1 <= Double.add 1 y.
Proof.
  intro Hy. assert (Double.add 1 0 == 1) as E by reflexivity.
  apply (Qle_trans _ (Double.add 1 0)); [rewrite E; apply Qle_refl | apply add_mono; exact Hy].
Qed.

Lemma sub_one_le (y : Q) : 0 <= y -> Double.sub 1 y <= 1.
Proof.
  intro Hy. assert (Double.sub 1 0 == 1) as E by reflexivity.
  apply (Qle_trans _ (Double.sub 1 0)); [apply sub_mono; exact Hy | rewrite E; apply Qle_refl].
Qed.

(** X6.  For every configuration, with the drift [d] the code computes: a
    paused call gives [none]; any other result means playing with [d] at
    least 30 ms; a seek goes to the requested target, and a smooth one lasts
    between 7.5 and 400 ms; under a configuration with
    [minPlaybackRate <= 1 <= maxPlaybackRate] and a correction factor that is
    not negative, a speed adjustment stays between the smaller of
    [minPlaybackRate] and the double 0.95 and the larger of [maxPlaybackRate]
    and the double 1.05. *)
Theorem calculateSyncAction_wellformed (cfg : AdaptiveSyncConfig) (c t : Q)
    (playing : bool) :
  let a := calculateSyncAction cfg c t playing in
  (playing = false -> a = none) /\
  (a <> none -> playing = true /\ 30 <= driftMs c t) /\
  (forall target, a = hard_seek target -> target = t) /\
  (forall target duration,
     a = smooth_seek target duration ->
     target = t /\ 30 # 4 <= duration /\ duration <= 400) /\
  (forall rate,
     a = adjust_speed rate ->
     minPlaybackRate cfg <= 1 -> 1 <= maxPlaybackRate cfg ->
     0 <= correctionFactor cfg ->
     Qmin (minPlaybackRate cfg) (Double.round (95 # 100)) <= rate /\
     rate <= Qmax (maxPlaybackRate cfg) (Double.round (105 # 100))).
Proof.
  intros a. subst a. destruct playing.
  2:{ cbn. split; [reflexivity |]. split; [congruence |].
      split; [intros ? [=] | split; [intros ? ? [=] | intros ? [=]]]. }
  rewrite calculateSyncAction_playing. cbv zeta.
  set (d := driftMs c t).
  destruct (Qltb_spec d 30) as [Hsmall | Hbig].
  { split; [reflexivity |]. split; [congruence |].
    split; [intros ? [=] | split; [intros ? ? [=] | intros ? [=]]]. }
  apply Qnot_lt_le in Hbig.
  split; [intros [=] |]. split; [intros _; split; [reflexivity | exact Hbig] |].
  destruct (Qltb (largeDriftThreshold cfg) d).
  { split; [intros target [= <-]; reflexivity |].
    split; [intros ? ? [=] | intros ? [=]]. }
  destruct (Qltb (mediumDriftThreshold cfg) d).
  { split; [intros ? [=] | split; [| intros ? [=]]].
    intros target duration [= <- <-]. split; [reflexivity |].
    assert (30 # 4 <= Double.div d 4) as Hquarter.
    { assert (Double.div 30 4 == 30 # 4) as E by reflexivity.
      rewrite <- E. apply div_mono; [reflexivity | exact Hbig]. }
    split; [apply Q.min_glb; lra | apply Q.le_min_l]. }
  assert (forall lo hi k r,
            lo <= 1 -> 1 <= hi -> 0 <= k ->
            r = (if Qltb 0 (Double.sub t c)
                 then Qmin hi (Double.add 1 (scaled d k))
                 else Qmax lo (Double.sub 1 (scaled d k))) ->
            lo <= r /\ r <= hi) as Hrate.
  { intros lo hi k r Hlo Hhi Hk Hr. rewrite Hr. clear Hr.
    pose proof (scaled_nonneg d k ltac:(lra) Hk) as Hy.
    pose proof (add_one_ge _ Hy) as Hup. pose proof (sub_one_le _ Hy) as Hdown.
    destruct (Qltb 0 (Double.sub t c)).
    - split; [apply Q.min_glb; lra | apply Q.le_min_l].
    - split; [apply Q.le_max_l | apply Q.max_lub; lra]. }
  pose proof (Q.le_min_l (minPlaybackRate cfg) (Double.round (95 # 100))) as Hmin1.
  pose proof (Q.le_min_r (minPlaybackRate cfg) (Double.round (95 # 100))) as Hmin2.
  pose proof (Q.le_max_l (maxPlaybackRate cfg) (Double.round (105 # 100))) as Hmax1.
  pose proof (Q.le_max_r (maxPlaybackRate cfg) (Double.round (105 # 100))) as Hmax2.
  destruct (Qltb (smallDriftThreshold cfg) d).
  - split; [intros ? [=] | split; [intros ? ? [=] |]].
    intros rate [= <-] Hlo Hhi Hk.
    destruct (Hrate _ _ _ _ Hlo Hhi Hk eq_refl) as [H1 H2]. split; lra.
  - split; [intros ? [=] | split; [intros ? ? [=] |]].
    intros rate [= <-] _ _ _.
    destruct (Hrate (Double.round (95 # 100)) (Double.round (105 # 100))
                (Double.round (15 # 100)) _
                ltac:(vm_compute; discriminate) ltac:(vm_compute; discriminate)
                ltac:(vm_compute; discriminate) eq_refl) as [H1 H2].
    split; lra.
Qed.

(** A configuration with a wider speed range and a correction factor of one
    half, 750 ms behind: the rate is 1.375, above the default maximum. *)
Lemma calculateSyncAction_wellformed_witness :
  calculateSyncAction wideConfig 10 (1075 # 100) true = adjust_speed (11 # 8) /\
  Qmin (minPlaybackRate wideConfig) (Double.round (95 # 100)) <= 11 # 8 /\
  11 # 8 <= Qmax (maxPlaybackRate wideConfig) (Double.round (105 # 100)).
Proof.
  split; [vm_compute; reflexivity |].
  pose proof (calculateSyncAction_wellformed wideConfig 10 (1075 # 100) true)
    as (_ & _ & _ & _ & H).
  apply (H (11 # 8)).
  - vm_compute. reflexivity.
  - vm_compute. discriminate.
  - vm_compute. discriminate.
  - vm_compute. discriminate.
Defined.

Lemma push_bounded_Forall (P : Q -> Prop) (cap : nat) (x : Q) (arr : list Q) :
  Forall P arr -> P x -> Forall P (push_bounded cap x arr).
Proof.
  intros Harr Hx. unfold push_bounded.
  assert (Forall P (arr ++ [x])) as H1.
  { apply Forall_app. split; [exact Harr | repeat constructor; exact Hx]. }
  destruct (cap <? length (arr ++ [x]))%nat; [| exact H1].
  destruct H1; [constructor | assumption].
Qed.

(** The multiples of [m] up to the [n]-th are doubles. *)
Local Abbreviation multiplesExact n m :=
  (forall k : nat, (k <= n)%nat ->
     Double.round (inject_Z (Z.of_nat k) * m) == inject_Z (Z.of_nat k) * m).

(** The running sum of samples between 0 and [m], in doubles: as long as the
    multiples of [m] are doubles, no partial sum is rounded past them. *)
Lemma fold_left_add_bounds (m : Q) (l : list Q) (acc : Q) (j : nat) :
  Forall (fun x => 0 <= x /\ x <= m) l ->
  multiplesExact (j + length l)%nat m ->
  0 <= acc -> acc <= inject_Z (Z.of_nat j) * m ->
  0 <= fold_left Double.add l acc /\
  fold_left Double.add l acc <= inject_Z (Z.of_nat (j + length l)) * m.
Proof.
  intros Hall. revert acc j.
  induction Hall as [| x l [Hx0 Hxm] _ IH]; intros acc j Hexact Hacc0 Haccm.
  - cbn [fold_left length]. rewrite Nat.add_0_r. split; assumption.
  - cbn [fold_left length] in *.
    replace (j + S (length l))%nat with (S j + length l)%nat in * by lia.
    apply IH; [exact Hexact | apply round_nonneg; lra |].
    rewrite <- (Hexact (S j) ltac:(lia)).
    apply round_mono.
    rewrite Nat2Z.inj_succ. unfold Z.succ. rewrite inject_Z_plus.
    setoid_replace ((inject_Z (Z.of_nat j) + inject_Z 1) * m)
      with (inject_Z (Z.of_nat j) * m + m) by ring.
    lra.
Qed.

Lemma getAverageLatency_within (ctl : AdaptiveSyncController) :
  0 <= maxLatencyCompensation (config ctl) ->
  samplesWithin ctl ->
  multiplesExact (length (latencySamples ctl)) (maxLatencyCompensation (config ctl)) ->
  0 <= getAverageLatency ctl /\
  getAverageLatency ctl <= maxLatencyCompensation (config ctl).
Proof.
  intros Hmax Hall Hexact. unfold getAverageLatency, samplesWithin in *.
  set (m := maxLatencyCompensation (config ctl)) in *.
  destruct (latencySamples ctl) as [| x l] eqn:E; [split; [apply Qle_refl | exact Hmax] |].
  cbv zeta.
  destruct (fold_left_add_bounds m (x :: l) 0 0 Hall Hexact)
    as [Hlo Hhi];
    [apply Qle_refl | change (inject_Z (Z.of_nat 0)) with 0; lra |].
  cbn [Nat.add] in Hhi.
  set (sum := fold_left Double.add (x :: l) 0) in *.
  set (n := inject_Z (Z.of_nat (length (x :: l)))) in *.
  assert (0 < n) as Hn.
  { unfold n. change 0 with (inject_Z 0). rewrite <- Zlt_Qlt. cbn [length]. lia. }
  split.
  - apply round_nonneg. apply Qle_shift_div_l; [exact Hn | lra].
  - assert (Double.round m == m) as E1.
    { pose proof (Hexact 1%nat ltac:(cbn [length]; lia)) as H1.
      assert (inject_Z (Z.of_nat 1) * m == m) as E2 by (cbn; ring).
      rewrite <- E2 at 2. rewrite <- H1. apply Qle_antisym; apply round_mono; lra. }
    rewrite <- E1. apply round_mono.
    apply Qle_shift_div_r; [exact Hn | lra].
Qed.

(** X7.  [calculateLatency] keeps every latency sample between 0 and the
    ceiling.  The average, a sum and a quotient in double arithmetic, lies
    between 0 and the ceiling as well when the first 20 multiples of the
    ceiling are doubles, as those of the default 2000 are. *)
Theorem latency_statistics (now ts : Q) (ctl : AdaptiveSyncController) :
  0 <= maxLatencyCompensation (config ctl) ->
  samplesWithin ctl ->
  (length (latencySamples ctl) <= maxLatencySamples)%nat ->
  multiplesExact maxLatencySamples (maxLatencyCompensation (config ctl)) ->
  let c' := snd (calculateLatency now ts ctl) in
  samplesWithin c' /\
  0 <= getAverageLatency c' /\
  getAverageLatency c' <= maxLatencyCompensation (config ctl).
Proof.
  intros Hmax Hall Hlen Hexact c'.
  assert (samplesWithin c' /\ (length (latencySamples c') <= maxLatencySamples)%nat)
    as [Hall' Hlen'].
  { subst c'. unfold samplesWithin in *.
    rewrite calculateLatency_config.
    assert (0 <= fst (calculateLatency now ts ctl) /\
            fst (calculateLatency now ts ctl) <= maxLatencyCompensation (config ctl))
      as [Hlo Hhi].
    { destruct (calculateLatency_clamped now ts ctl) as [adjusted ->].
      split; [apply Q.le_max_l | apply Q.max_lub; [exact Hmax | apply Q.le_min_r]]. }
    unfold calculateLatency in *. cbn [fst snd] in *.
    unfold recordLatency. cbn [set_latencySamples latencySamples].
    split.
    - apply push_bounded_Forall; [| split; assumption].
      destruct (Qltb (now - ts) (- (100)));
        [| destruct (Qgtb (now - ts) (maxLatencyCompensation (config ctl)))];
        exact Hall.
    - apply push_bounded_length.
      destruct (Qltb (now - ts) (- (100)));
        [| destruct (Qgtb (now - ts) (maxLatencyCompensation (config ctl)))];
        exact Hlen. }
  split; [exact Hall' |].
  rewrite <- (calculateLatency_config now ts ctl).
  apply getAverageLatency_within; [| exact Hall' |].
  - subst c'. rewrite calculateLatency_config. exact Hmax.
  - intros k Hk. subst c'. rewrite calculateLatency_config.
    apply Hexact. lia.
Qed.

Lemma multiples_of_2000 (k : nat) :
  (k <= 20)%nat ->
  Double.round (inject_Z (Z.of_nat k) * 2000) == inject_Z (Z.of_nat k) * 2000.
Proof.
  intro Hk.
  do 21 (destruct k as [| k]; [vm_compute; reflexivity |]). lia.
Qed.

(** On the controller with twenty samples, two of them at the ceiling. *)
Lemma latency_statistics_witness :
  samplesWithin seasonedController /\
  0 <= getAverageLatency (snd (calculateLatency 1000 900 seasonedController)) /\
  getAverageLatency (snd (calculateLatency 1000 900 seasonedController)) <= 2000.
Proof.
  assert (samplesWithin seasonedController) as Hall.
  { repeat constructor; vm_compute; discriminate. }
  split; [exact Hall |].
  pose proof (latency_statistics 1000 900 seasonedController) as H.
  specialize (H ltac:(vm_compute; discriminate) Hall
                ltac:(vm_compute; lia) multiples_of_2000).
  exact (proj2 H).
Defined.

(** The bound on the average needs its hypothesis: with a ceiling of 0.1,
    three samples at the ceiling have an average above it. *)
Example getAverageLatency_above_ceiling :
  let ceiling := Double.round (1 # 10) in
  let ctl := set_latencySamples [ceiling; ceiling; ceiling]
               (newController (mkConfig 300 1500 5000 1 1 0 ceiling 0)) in
  samplesWithin ctl /\
  maxLatencyCompensation (config ctl) < getAverageLatency ctl.
Proof.
  cbv zeta. split; [repeat constructor; vm_compute; discriminate |].
  vm_compute. reflexivity.
Qed.

End ActionsAndStatistics.

Section SpeedAndSeek.

Import AdaptiveSync.
Local Open Scope Q_scope.

(** The rate a reset goes back to does not change while adjustments are
    applied: it is the rate the video had before the first of them. *)
Lemma applySpeedAdjustment_restore_rate (handle : positive)
    (v : HTMLVideoElement.t) (rate : Q) (ctl : TimedController) :
  let s := applySpeedAdjustment handle v rate ctl in
  isAdjustingSpeed (fields (this s)) = true /\
  originalPlaybackRate (fields (this s)) =
    (if isAdjustingSpeed (fields ctl)
     then originalPlaybackRate (fields ctl)
     else HTMLVideoElement.playbackRate v) /\
  HTMLVideoElement.playbackRate (video s) = rate /\
  HTMLVideoElement.currentTime (video s) = HTMLVideoElement.currentTime v /\
  speedResetTimeout (handles (this s)) = Some handle /\
  smoothSeekInterval (handles (this s)) = smoothSeekInterval (handles ctl).
Proof.
  unfold applySpeedAdjustment. cbn.
  destruct (isAdjustingSpeed (fields ctl)) eqn:E; cbn; rewrite ?E; repeat split.
Qed.

Lemma applySpeedAdjustments_restore_rate (adjustments : list (positive * Q))
    (v : HTMLVideoElement.t) (ctl : TimedController) :
  let s := applySpeedAdjustments adjustments v ctl in
  (if isAdjustingSpeed (fields (this s))
   then originalPlaybackRate (fields (this s))
   else HTMLVideoElement.playbackRate (video s)) =
  (if isAdjustingSpeed (fields ctl)
   then originalPlaybackRate (fields ctl)
   else HTMLVideoElement.playbackRate v) /\
  HTMLVideoElement.currentTime (video s) = HTMLVideoElement.currentTime v.
Proof.
  revert v ctl. induction adjustments as [| [handle rate] rest IH]; intros v ctl.
  - split; reflexivity.
  - cbn [applySpeedAdjustments this video].
    destruct (IH (video (applySpeedAdjustment handle v rate ctl))
                 (this (applySpeedAdjustment handle v rate ctl))) as [IH1 IH2].
    destruct (applySpeedAdjustment_restore_rate handle v rate ctl)
      as (Hadj & Horig & _ & Htime & _).
    cbv zeta in *. rewrite IH1, IH2, Hadj, Horig, Htime. split; reflexivity.
Qed.

(** X8.  A reset undoes a whole episode of speed adjustments: after any run
    of [applySpeedAdjustment] on a video followed by [resetSpeed], the
    playback rate is the one the video had before the first adjustment (or,
    if the controller was already adjusting, the rate it had recorded), the
    position is untouched, and the controller is no longer adjusting. *)
Theorem resetSpeed_restores (adjustments : list (positive * Q))
    (v : HTMLVideoElement.t) (ctl : TimedController) :
  let s1 := applySpeedAdjustments adjustments v ctl in
  let s2 := resetSpeed (video s1) (this s1) in
  HTMLVideoElement.playbackRate (video s2) =
    (if isAdjustingSpeed (fields ctl)
     then originalPlaybackRate (fields ctl)
     else HTMLVideoElement.playbackRate v) /\
  HTMLVideoElement.currentTime (video s2) = HTMLVideoElement.currentTime v /\
  isAdjustingSpeed (fields (this s2)) = false /\
  speedResetTimeout (handles (this s2)) = None.
Proof.
  intros s1 s2.
  destruct (applySpeedAdjustments_restore_rate adjustments v ctl) as [Hrate Htime].
  fold s1 in Hrate, Htime. subst s2. unfold resetSpeed.
  rewrite <- Hrate, <- Htime.
  destruct (isAdjustingSpeed (fields (this s1))) eqn:E;
    destruct (speedResetTimeout (handles (this s1))) eqn:E2;
    cbn; rewrite ?E, ?E2; repeat split.
Qed.

Lemma pendingResetTimeouts_app (pending : list positive) (cs1 cs2 : list TimerCall) :
  pendingResetTimeouts pending (cs1 ++ cs2) =
  pendingResetTimeouts (pendingResetTimeouts pending cs1) cs2.
Proof.
  revert pending. induction cs1 as [| c cs1 IH]; intros pending; [reflexivity |].
  destruct c; cbn; apply IH.
Qed.

Lemma applySpeedAdjustment_pending (handle : positive) (v : HTMLVideoElement.t)
    (rate : Q) (ctl : TimedController) :
  pendingResetTimeouts (heldResetTimeout ctl)
    (calls (applySpeedAdjustment handle v rate ctl)) =
  heldResetTimeout (this (applySpeedAdjustment handle v rate ctl)).
Proof.
  unfold applySpeedAdjustment, heldResetTimeout. cbn.
  destruct (speedResetTimeout (handles ctl)) as [old |]; cbn; [| reflexivity].
  rewrite Pos.eqb_refl. reflexivity.
Qed.

Lemma applySpeedAdjustments_pending (adjustments : list (positive * Q))
    (v : HTMLVideoElement.t) (ctl : TimedController) :
  pendingResetTimeouts (heldResetTimeout ctl)
    (calls (applySpeedAdjustments adjustments v ctl)) =
  heldResetTimeout (this (applySpeedAdjustments adjustments v ctl)).
Proof.
  revert v ctl. induction adjustments as [| [handle rate] rest IH]; intros v ctl.
  - reflexivity.
  - cbn [applySpeedAdjustments this calls].
    rewrite pendingResetTimeouts_app, applySpeedAdjustment_pending. apply IH.
Qed.

(** X9.  Speed adjustments never leave more than one reset timeout pending:
    each [applySpeedAdjustment] clears the timeout the controller holds
    before it sets its own, so after any run the only pending timeout is the
    one in the handle field, and after [resetSpeed] or [destroy] none is
    pending. *)
Theorem speedResetTimeout_single (adjustments : list (positive * Q))
    (v : HTMLVideoElement.t) (ctl : TimedController) :
  let s1 := applySpeedAdjustments adjustments v ctl in
  let held := match speedResetTimeout (handles ctl) with
              | Some h => [h]
              | None => []
              end in
  (length (pendingResetTimeouts held (calls s1)) <= 1)%nat /\
  pendingResetTimeouts held (calls s1) =
    match speedResetTimeout (handles (this s1)) with
    | Some h => [h]
    | None => []
    end /\
  pendingResetTimeouts held (calls s1 ++ calls (resetSpeed (video s1) (this s1))) = [] /\
  pendingResetTimeouts held (calls s1 ++ snd (destroy (this s1))) = [].
Proof.
  intros s1 held.
  pose proof (applySpeedAdjustments_pending adjustments v ctl) as Hp.
  unfold heldResetTimeout in Hp. fold s1 held in Hp.
  split; [| split; [exact Hp | split]].
  - rewrite Hp. destruct (speedResetTimeout (handles (this s1))); cbn; lia.
  - rewrite pendingResetTimeouts_app, Hp. unfold resetSpeed.
    destruct (isAdjustingSpeed (fields (this s1)));
      destruct (speedResetTimeout (handles (this s1))); cbn;
      rewrite ?Pos.eqb_refl; reflexivity.
  - rewrite pendingResetTimeouts_app, Hp. unfold destroy. cbn [snd].
    rewrite pendingResetTimeouts_app.
    destruct (speedResetTimeout (handles (this s1)));
      destruct (smoothSeekInterval (handles (this s1))); cbn;
      rewrite ?Pos.eqb_refl; reflexivity.
Qed.

(** The progress of a seek is a fraction, complete from [duration] on. *)
Lemma seekProgress_range (k : SeekClosure) (now : Q) :
  0 < seekDuration k -> startTs k <= now ->
  0 <= seekProgress k now /\ seekProgress k now <= 1 /\
  (seekDuration k <= now - startTs k -> seekProgress k now == 1) /\
  (now - startTs k < seekDuration k -> seekProgress k now < 1).
Proof.
  intros Hd Hnow. unfold seekProgress.
  set (x := (now - startTs k) / seekDuration k).
  assert (0 <= x) as Hx by (apply Qle_shift_div_l; lra).
  pose proof (Q.le_min_l 1 x) as Hl. pose proof (Q.le_min_r 1 x) as Hr.
  split; [apply Q.min_glb; lra | split; [exact Hl | split]].
  - intros Hdone. assert (1 <= x) as H1 by (apply Qle_shift_div_l; lra).
    apply Q.min_l. exact H1.
  - intros Hearly. assert (x < 1) as H1 by (apply Qlt_shift_div_r; lra). lra.
Qed.

Lemma easeOutQuad_range (p : Q) :
  0 <= p -> p <= 1 -> 0 <= easeOutQuad p /\ easeOutQuad p <= 1.
Proof.
  intros H0 H1. unfold easeOutQuad.
  assert (0 <= (1 - p) * (1 - p)) as Hsq by (apply Qmult_le_0_compat; lra).
  assert ((1 - p) * (1 - p) <= 1 * (1 - p)) as Hle.
  { apply Qmult_le_compat_r; lra. }
  split; lra.
Qed.

(** X10.  One step of a smooth seek started from [start] at time [now0]
    toward [target] over [duration > 0]: the position it writes lies between
    [start] and [target]; from [duration] on it is the target, the interval
    is cleared and the promise resolved; before that the step changes nothing
    but the position.  The playback rate is never touched. *)
Theorem smoothSeekStep_position (handle : positive) (now0 now : Q)
    (v : HTMLVideoElement.t) (target duration : Q) (ctl : TimedController) :
  0 < duration -> now0 <= now ->
  let k := fst (smoothSeek handle now0 v target duration ctl) in
  let s0 := snd (smoothSeek handle now0 v target duration ctl) in
  let s := smoothSeekStep k now (video s0) (this s0) in
  let start := HTMLVideoElement.currentTime v in
  let cur := HTMLVideoElement.currentTime (video s) in
  (start <= target -> start <= cur /\ cur <= target) /\
  (target <= start -> target <= cur /\ cur <= start) /\
  (duration <= now - now0 ->
   cur == target /\
   smoothSeekInterval (handles (this s)) = None /\
   calls s = [clearInterval handle; resolve]) /\
  (now - now0 < duration -> this s = this s0 /\ calls s = []) /\
  HTMLVideoElement.playbackRate (video s) = HTMLVideoElement.playbackRate v.
Proof.
  intros Hd Hnow k s0 s start cur.
  destruct (seekProgress_range k now Hd Hnow) as (Hp0 & Hp1 & Hdone & Hearly).
  destruct (easeOutQuad_range _ Hp0 Hp1) as [He0 He1].
  assert (cur = start + (target - start) * easeOutQuad (seekProgress k now)) as Hcur.
  { subst cur s. unfold smoothSeekStep.
    destruct (Qle_bool 1 (seekProgress k now));
      [destruct (smoothSeekInterval (handles (this s0))) |]; reflexivity. }
  set (e := easeOutQuad (seekProgress k now)) in *.
  split; [| split; [| split; [| split]]].
  - intros Hdir. rewrite Hcur.
    assert (0 <= (target - start) * e) by (apply Qmult_le_0_compat; lra).
    assert (0 <= (target - start) * (1 - e)) by (apply Qmult_le_0_compat; lra).
    assert ((target - start) * (1 - e) == (target - start) - (target - start) * e)
      as E by ring.
    split; lra.
  - intros Hdir. rewrite Hcur.
    assert (0 <= (start - target) * e) by (apply Qmult_le_0_compat; lra).
    assert (0 <= (start - target) * (1 - e)) by (apply Qmult_le_0_compat; lra).
    assert ((start - target) * (1 - e) == (start - target) - (start - target) * e)
      as E1 by ring.
    assert ((target - start) * e == - ((start - target) * e)) as E2 by ring.
    split; lra.
  - intros Hlate. specialize (Hdone Hlate).
    assert (Qle_bool 1 (seekProgress k now) = true) as Hb.
    { apply Qle_bool_iff. rewrite Hdone. apply Qle_refl. }
    split; [| subst s; unfold smoothSeekStep; rewrite Hb; cbn; split; reflexivity].
    rewrite Hcur. subst e. unfold easeOutQuad. rewrite Hdone. ring.
  - intros Hshort. specialize (Hearly Hshort).
    assert (Qle_bool 1 (seekProgress k now) = false) as Hb.
    { apply not_true_is_false. intros Hb. apply Qle_bool_iff in Hb. lra. }
    subst s. unfold smoothSeekStep. rewrite Hb. split; reflexivity.
  - subst s. unfold smoothSeekStep.
    destruct (Qle_bool 1 (seekProgress k now));
      [destruct (smoothSeekInterval (handles (this s0))) |]; reflexivity.
Qed.

Lemma smoothSeekStep_position_witness :
  HTMLVideoElement.currentTime
    (video (smoothSeekStep
              (fst (smoothSeek 1 0 (HTMLVideoElement.mk 1 10) 12 100
                      (mkTimed (newController DEFAULT_SYNC_CONFIG)
                               (mkHandles None None))))
              100
              (video (snd (smoothSeek 1 0 (HTMLVideoElement.mk 1 10) 12 100
                             (mkTimed (newController DEFAULT_SYNC_CONFIG)
                                      (mkHandles None None)))))
              (this (snd (smoothSeek 1 0 (HTMLVideoElement.mk 1 10) 12 100
                            (mkTimed (newController DEFAULT_SYNC_CONFIG)
                                     (mkHandles None None)))))))
  == 12.
Proof.
  pose proof (smoothSeekStep_position 1 0 100 (HTMLVideoElement.mk 1 10) 12 100
                (mkTimed (newController DEFAULT_SYNC_CONFIG) (mkHandles None None)))
    as H.
  specialize (H ltac:(vm_compute; reflexivity) ltac:(vm_compute; discriminate)).
  cbv zeta in H.
  exact (proj1 (proj1 (proj2 (proj2 H)) ltac:(vm_compute; discriminate))).
Defined.

Lemma runSeekSteps_stopped (handle : positive) (k : SeekClosure) (times : list Q)
    (v : HTMLVideoElement.t) (ctl : TimedController) :
  smoothSeekInterval (handles ctl) = None ->
  runSeekSteps handle k times v ctl = mkStep ctl v [].
Proof.
  intros Hnone. destruct times; cbn; [| rewrite Hnone]; reflexivity.
Qed.

Lemma smoothSeekStep_held (h : positive) (k : SeekClosure) (now : Q)
    (v : HTMLVideoElement.t) (ctl : TimedController) :
  smoothSeekInterval (handles ctl) = Some h ->
  smoothSeekStep k now v ctl =
  let v1 := HTMLVideoElement.mk (HTMLVideoElement.playbackRate v)
              (startTime k + diff k * easeOutQuad (seekProgress k now)) in
  if Qle_bool 1 (seekProgress k now)
  then mkStep (mkTimed (fields ctl)
                 (mkHandles (speedResetTimeout (handles ctl)) None))
              v1 [clearInterval h; resolve]
  else mkStep ctl v1 [].
Proof. intros Hheld. unfold smoothSeekStep. rewrite Hheld. reflexivity. Qed.

(** While the interval fires, either it is still held and nothing has been
    resolved, or it has completed: cleared, at the target, resolved once. *)
Lemma runSeekSteps_progress (handle : positive) (k : SeekClosure) (times : list Q)
    (v : HTMLVideoElement.t) (ctl : TimedController) :
  0 < seekDuration k ->
  seekTarget k == startTime k + diff k ->
  Forall (fun t => startTs k <= t) times ->
  smoothSeekInterval (handles ctl) = Some handle ->
  let s := runSeekSteps handle k times v ctl in
  (smoothSeekInterval (handles (this s)) = Some handle /\
   filter (fun c => match c with resolve => true | _ => false end) (calls s) = []) \/
  (smoothSeekInterval (handles (this s)) = None /\
   HTMLVideoElement.currentTime (video s) == seekTarget k /\
   filter (fun c => match c with resolve => true | _ => false end) (calls s)
   = [resolve]).
Proof.
  intros Hd Htarget Htimes. revert v ctl.
  induction Htimes as [| now rest Hnow _ IH]; intros v ctl Hheld.
  - left. split; [exact Hheld | reflexivity].
  - cbn [runSeekSteps]. rewrite Hheld, Pos.eqb_refl. cbn [this video calls].
    destruct (seekProgress_range k now Hd Hnow) as (Hp0 & Hp1 & _ & _).
    rewrite (smoothSeekStep_held handle k now v ctl Hheld). cbv zeta.
    destruct (Qle_bool 1 (seekProgress k now)) eqn:Hb; cbn [this video calls].
    + right. apply Qle_bool_iff in Hb.
      assert (seekProgress k now == 1) as Hone by lra.
      rewrite runSeekSteps_stopped by reflexivity.
      cbn [this video calls handles smoothSeekInterval app filter
           HTMLVideoElement.currentTime].
      split; [reflexivity | split; [| reflexivity]].
      unfold easeOutQuad. rewrite Hone, Htarget. ring.
    + apply (IH _ ctl Hheld).
Qed.

(** A seek that no other seek interferes with ends at its target: after
    [smoothSeek] with a positive duration, whatever times its interval fires
    at, once its safety timeout has run the position is the target, the
    interval handle is cleared and the promise has been resolved exactly
    once. *)
Lemma smoothSeek_alone (handle : positive) (now0 : Q)
    (v : HTMLVideoElement.t) (target duration : Q) (ctl : TimedController)
    (times : list Q) :
  0 < duration ->
  Forall (fun t => now0 <= t) times ->
  let k := fst (smoothSeek handle now0 v target duration ctl) in
  let s0 := snd (smoothSeek handle now0 v target duration ctl) in
  let s1 := runSeekSteps handle k times (video s0) (this s0) in
  let s2 := smoothSeekSafety k (video s1) (this s1) in
  HTMLVideoElement.currentTime (video s2) == target /\
  smoothSeekInterval (handles (this s2)) = None /\
  filter (fun c => match c with resolve => true | _ => false end)
         (calls s0 ++ calls s1 ++ calls s2) = [resolve].
Proof.
  intros Hd Htimes k s0 s1 s2.
  assert (filter (fun c => match c with resolve => true | _ => false end) (calls s0)
          = []) as Hs0.
  { subst s0. unfold smoothSeek. cbn [snd calls].
    destruct (smoothSeekInterval (handles ctl)); reflexivity. }
  destruct (runSeekSteps_progress handle k times (video s0) (this s0))
    as [[Hheld Hnone] | (Hcleared & Hat & Hone)];
    try exact Hd; try exact Htimes; try reflexivity.
  { subst k. cbn. ring. }
  - fold s1 in Hheld, Hnone. subst s2. unfold smoothSeekSafety. rewrite Hheld.
    cbn [video this calls handles smoothSeekInterval HTMLVideoElement.currentTime].
    split; [reflexivity | split; [reflexivity |]].
    rewrite !filter_app, Hs0, Hnone. reflexivity.
  - fold s1 in Hcleared, Hat, Hone. subst s2. unfold smoothSeekSafety.
    rewrite Hcleared. cbn [video this calls].
    split; [exact Hat | split; [exact Hcleared |]].
    rewrite !filter_app, Hs0, Hone. reflexivity.
Qed.

(** While every firing of the interval comes before the duration has
    elapsed, the interval stays held and nothing is resolved. *)
Lemma runSeekSteps_early (handle : positive) (k : SeekClosure) (times : list Q)
    (v : HTMLVideoElement.t) (ctl : TimedController) :
  0 < seekDuration k ->
  Forall (fun t => startTs k <= t /\ t - startTs k < seekDuration k) times ->
  smoothSeekInterval (handles ctl) = Some handle ->
  let s := runSeekSteps handle k times v ctl in
  this s = ctl /\ calls s = [].
Proof.
  intros Hd Htimes. revert v.
  induction Htimes as [| now rest [Hnow Hearly] _ IH]; intros v Hheld.
  - split; reflexivity.
  - cbn [runSeekSteps]. rewrite Hheld, Pos.eqb_refl. cbn [this video calls].
    destruct (seekProgress_range k now Hd Hnow) as (_ & _ & _ & Hlt).
    specialize (Hlt Hearly).
    rewrite (smoothSeekStep_held handle k now v ctl Hheld). cbv zeta.
    assert (Qle_bool 1 (seekProgress k now) = false) as Hb.
    { apply not_true_is_false. intros Hb. apply Qle_bool_iff in Hb. lra. }
    rewrite Hb. cbn [this video calls app]. apply (IH _ Hheld).
Qed.

(** X11.  A smooth seek that runs alone ends at its target and resolves its
    promise exactly once.  But the safety timeout is not tied to the
    interval of its own seek: when a second seek has been started and is
    still under way as the safety timeout of the first fires, that timeout
    clears the second seek's interval and puts the video at the first
    target; the second seek's interval then never fires again, its own
    safety timeout finds nothing to do, and none of its callbacks has
    resolved its promise. *)
Theorem smoothSeek_outcome (h1 h2 : positive) (now1 now2 : Q)
    (v : HTMLVideoElement.t) (target1 duration1 target2 duration2 : Q)
    (ctl : TimedController) (times1 times2 times3 : list Q) :
  0 < duration1 -> 0 < duration2 ->
  Forall (fun t => now1 <= t) times1 ->
  Forall (fun t => now2 <= t /\ t - now2 < duration2) times2 ->
  let k1 := fst (smoothSeek h1 now1 v target1 duration1 ctl) in
  let s0 := snd (smoothSeek h1 now1 v target1 duration1 ctl) in
  let s1 := runSeekSteps h1 k1 times1 (video s0) (this s0) in
  (* alone: the safety timeout of the first seek comes next *)
  let alone := smoothSeekSafety k1 (video s1) (this s1) in
  (* overlapped: a second seek is started first *)
  let k2 := fst (smoothSeek h2 now2 (video s1) target2 duration2 (this s1)) in
  let s2 := snd (smoothSeek h2 now2 (video s1) target2 duration2 (this s1)) in
  let s3 := runSeekSteps h2 k2 times2 (video s2) (this s2) in
  let s4 := smoothSeekSafety k1 (video s3) (this s3) in
  let s5 := runSeekSteps h2 k2 times3 (video s4) (this s4) in
  let s6 := smoothSeekSafety k2 (video s5) (this s5) in
  (HTMLVideoElement.currentTime (video alone) == target1 /\
   smoothSeekInterval (handles (this alone)) = None /\
   filter (fun c => match c with resolve => true | _ => false end)
          (calls s0 ++ calls s1 ++ calls alone) = [resolve]) /\
  (calls s3 = [] /\
   calls s4 = [clearInterval h2; resolve] /\
   calls s5 = [] /\
   calls s6 = [] /\
   HTMLVideoElement.currentTime (video s6) = target1 /\
   smoothSeekInterval (handles (this s6)) = None).
Proof.
  intros Hd1 Hd2 Htimes1 Htimes2 k1 s0 s1 alone k2 s2 s3 s4 s5 s6.
  split; [exact (smoothSeek_alone h1 now1 v target1 duration1 ctl times1 Hd1 Htimes1) |].
  assert (smoothSeekInterval (handles (this s2)) = Some h2) as Hheld2 by reflexivity.
  destruct (runSeekSteps_early h2 k2 times2 (video s2) (this s2) Hd2 Htimes2 Hheld2)
    as [Hthis3 Hcalls3].
  fold s3 in Hthis3, Hcalls3.
  assert (s4 = mkStep (mkTimed (fields (this s3))
                         (mkHandles (speedResetTimeout (handles (this s3))) None))
                      (HTMLVideoElement.mk
                         (HTMLVideoElement.playbackRate (video s3)) target1)
                      [clearInterval h2; resolve]) as H4.
  { subst s4. unfold smoothSeekSafety. rewrite Hthis3, Hheld2. reflexivity. }
  assert (s5 = mkStep (this s4) (video s4) []) as H5.
  { subst s5. apply runSeekSteps_stopped. rewrite H4. reflexivity. }
  assert (s6 = mkStep (this s4) (video s4) []) as H6.
  { subst s6. rewrite H5. cbn [video this]. unfold smoothSeekSafety.
    rewrite H4. reflexivity. }
  rewrite H6, H5, H4, Hcalls3. repeat split.
Qed.

(** The first seek completes at 400 ms; the second, started at 450 ms, is
    stopped at 500 ms by the safety timeout of the first: the video is at
    12 s, not on its way to 20 s. *)
Lemma smoothSeek_outcome_witness :
  calls afterSafety1 = [clearInterval 2; resolve] /\
  HTMLVideoElement.currentTime (video afterSafety1) = 12 /\
  calls (smoothSeekSafety (fst seekRun2) (video afterSafety1) (this afterSafety1))
  = [].
Proof.
  pose proof (smoothSeek_outcome 1 2 0 450 (HTMLVideoElement.mk 1 10) 12 400 20 400
                freshTimed [16; 32; 400] [466; 482] []) as H.
  specialize (H ltac:(vm_compute; reflexivity) ltac:(vm_compute; reflexivity)
                ltac:(repeat constructor; vm_compute; discriminate)
                ltac:(repeat constructor; vm_compute; first [discriminate | reflexivity])).
  cbv zeta in H. destruct H as [_ (_ & H4 & _ & H6 & Hpos & _)].
  split; [exact H4 | split; [| exact H6]].
  vm_compute. reflexivity.
Defined.

End SpeedAndSeek.

(* ===================================================================== *)
(** * Further properties of the background session *)
(* ===================================================================== *)

Section PrimaryTab.

Import Background.
Local Open Scope Z_scope.

(** The head of the sorted list is one of the elements, and none is more
    recent. *)
Lemma sortByActivity_head (l : list TabState.t) :
  match sortByActivity l with
  | [] => l = []
  | first :: _ =>
      In first l /\
      Forall (fun st => TabState.lastActivity st <= TabState.lastActivity first) l
  end.
Proof.
  induction l as [| x l IH]; [reflexivity |].
  cbn [sortByActivity].
  destruct (sortByActivity l) as [| first rest].
  - subst l. cbn. split; [now left | repeat constructor; lia].
  - destruct IH as [Hin Hall]. cbn [insertByActivity].
    destruct (Z.leb_spec (TabState.lastActivity first) (TabState.lastActivity x)).
    + split; [now left |]. constructor; [lia |].
      eapply Forall_impl; [| exact Hall]. cbn. intros. lia.
    + split; [now right |]. constructor; [lia | exact Hall].
Qed.

(** X12.  [getPrimaryTab] finds no tab exactly when no registered tab has an
    adapter.  The tab it returns has an adapter; it is visible whenever some
    tab with an adapter is visible; and among the tabs it was chosen from -
    the visible ones with an adapter if there are any, else all those with
    an adapter - none has a later [lastActivity]. *)
Theorem getPrimaryTab_choice (states : list TabState.t) :
  (getPrimaryTab states = None <->
   forall st, In st states -> TabState.hasAdapter st = false) /\
  (forall tab,
     getPrimaryTab states = Some tab ->
     exists chosen,
       In chosen states /\ TabState.tabId chosen = tab /\
       TabState.hasAdapter chosen = true /\
       forall st,
         In st states -> TabState.hasAdapter st = true ->
         (TabState.visible st = true ->
          TabState.visible chosen = true /\
          TabState.lastActivity st <= TabState.lastActivity chosen) /\
         (TabState.visible chosen = false ->
          TabState.lastActivity st <= TabState.lastActivity chosen)).
Proof.
  unfold getPrimaryTab.
  pose proof (sortByActivity_head
                (filter (fun st => TabState.visible st && TabState.hasAdapter st)
                        states)) as Hvis.
  pose proof (sortByActivity_head
                (filter (fun st => TabState.hasAdapter st) states)) as Hall.
  destruct (sortByActivity
              (filter (fun st => TabState.visible st && TabState.hasAdapter st)
                      states)) as [| v vs].
  - destruct (sortByActivity (filter (fun st => TabState.hasAdapter st) states))
      as [| a rest].
    + split; [| discriminate].
      split; [| reflexivity]. intros _ st Hin.
      destruct (TabState.hasAdapter st) eqn:E; [| reflexivity].
      assert (In st (filter (fun st => TabState.hasAdapter st) states)) as H
        by (apply filter_In; split; assumption).
      rewrite Hall in H. contradiction.
    + destruct Hall as [Hin Hmax]. apply filter_In in Hin as [Hin Ha].
      split.
      * split; [discriminate |]. intros Hnone. rewrite (Hnone a Hin) in Ha.
        discriminate.
      * intros tab [= <-]. exists a. repeat split; try assumption.
        -- exfalso.
           assert (In st (filter (fun st => TabState.visible st &&
                                            TabState.hasAdapter st) states)) as Hst.
           { apply filter_In. split; [assumption |]. now rewrite H1, H0. }
           rewrite Hvis in Hst. contradiction.
        -- exfalso.
           assert (In st (filter (fun st => TabState.visible st &&
                                            TabState.hasAdapter st) states)) as Hst.
           { apply filter_In. split; [assumption |]. now rewrite H1, H0. }
           rewrite Hvis in Hst. contradiction.
        -- intros _. rewrite Forall_forall in Hmax. apply Hmax.
           apply filter_In. split; assumption.
  - destruct Hvis as [Hin Hmax]. apply filter_In in Hin as [Hin Hva].
    apply andb_true_iff in Hva as [Hv Ha].
    split.
    + split; [discriminate |]. intros Hnone. rewrite (Hnone v Hin) in Ha.
      discriminate.
    + intros tab [= <-]. exists v. repeat split; try assumption.
      * rewrite Forall_forall in Hmax. apply Hmax.
        apply filter_In. split; [assumption |]. now rewrite H1, H0.
      * intros Hhidden. congruence.
Qed.

Lemma getPrimaryTab_choice_witness :
  exists chosen,
    In chosen [TabState.mk 3 false None true 50; TabState.mk 8 true None true 20] /\
    TabState.tabId chosen = 8%nat /\ TabState.hasAdapter chosen = true.
Proof.
  destruct (proj2 (getPrimaryTab_choice
                     [TabState.mk 3 false None true 50;
                      TabState.mk 8 true None true 20]) 8%nat eq_refl)
    as (chosen & Hin & Hid & Ha & _).
  exists chosen. repeat split; assumption.
Defined.

End PrimaryTab.

Section ConnectionManager.

Import Background.
Local Open Scope Z_scope.

(** X13.  The reconnect delay of attempt [n >= 1] lies between 3 s and
    30 s, does not decrease with [n], and is 30 s from the fifth attempt
    on. *)
Theorem reconnectDelay_bounds (n m : nat) :
  (1 <= n)%nat ->
  3000 <= reconnectDelay n <= 30000 /\
  ((n <= m)%nat -> reconnectDelay n <= reconnectDelay m) /\
  ((5 <= n)%nat -> reconnectDelay n = 30000).
Proof.
  intros Hn. unfold reconnectDelay, RECONNECT_DELAY_MS.
  assert (1 <= 2 ^ (Z.of_nat n - 1)) as Hpow.
  { change 1 with (2 ^ 0). apply Z.pow_le_mono_r; lia. }
  split; [lia | split].
  - intros Hnm.
    assert (2 ^ (Z.of_nat n - 1) <= 2 ^ (Z.of_nat m - 1))
      by (apply Z.pow_le_mono_r; lia).
    lia.
  - intros H5.
    assert (2 ^ 4 <= 2 ^ (Z.of_nat n - 1)) by (apply Z.pow_le_mono_r; lia).
    change (2 ^ 4) with 16 in *. lia.
Qed.

Lemma reconnectDelay_bounds_witness :
  3000 <= reconnectDelay 2 <= 30000 /\ reconnectDelay 2 <= reconnectDelay 7.
Proof.
  pose proof (reconnectDelay_bounds 2 7 ltac:(lia)) as (Hrange & Hmono & _).
  split; [exact Hrange | apply Hmono; lia].
Defined.

(** X14.  [connect] does nothing while the session's socket is open or
    connecting.  Otherwise, if the constructor does not throw, it creates
    exactly one socket, which is then connecting, so that a second [connect]
    does nothing more. *)
Theorem connect_once (g : Globals) :
  (socketIs OPEN (session g) = true \/ socketIs CONNECTING (session g) = true ->
   forall throws, globals (connect throws g) = g /\ effects (connect throws g) = []) /\
  (socketIs OPEN (session g) = false -> socketIs CONNECTING (session g) = false ->
   effects (connect false g) = [NewWebSocket] /\
   socket (session (globals (connect false g))) = Some CONNECTING /\
   effects ((connect false ;; connect false)%handler g) = [NewWebSocket]).
Proof.
  split.
  - intros Hbusy throws. unfold connect. run_handler.
    destruct (socketIs OPEN (session g)); run_handler; [split; reflexivity |].
    destruct Hbusy as [Hopen | ->]; [discriminate |]. run_handler.
    split; reflexivity.
  - intros Hopen Hconn. unfold connect. run_handler.
    rewrite Hopen, Hconn. run_handler. repeat split.
Qed.

Lemma connect_once_witness :
  effects ((connect false ;; connect false)%handler
             (initialGlobals "user_1" "c-1")) = [NewWebSocket] /\
  effects (connect false guestGlobals) = [].
Proof.
  split.
  - apply (proj2 (connect_once (initialGlobals "user_1" "c-1")));
      reflexivity.
  - apply (proj1 (connect_once guestGlobals)). left. reflexivity.
Defined.

(** X15.  A connection failure marks the session disconnected, drops the
    socket and stops the heartbeat.  In a room with attempts left it counts
    one attempt and schedules one [connect] after that attempt's delay;
    otherwise it schedules nothing.  In no case does it touch the room, the
    queue or the operation lock, or notify the tabs of a failure. *)
Theorem handleConnectionFailure_effect (reason : string) (g : Globals) :
  let r := handleConnectionFailure reason g in
  let s' := session (globals r) in
  connected s' = false /\ socket s' = None /\ heartbeatInterval s' = false /\
  roomId s' = roomId (session g) /\ users s' = users (session g) /\
  isHost s' = isHost (session g) /\
  pendingMessages s' = pendingMessages (session g) /\
  pendingOperation (globals r) = pendingOperation g /\
  forwarded (effects r) = [] /\
  (if truthy (roomId (session g)) &&
      (reconnectAttempts (session g) <? MAX_RECONNECT_ATTEMPTS)%nat
   then reconnectAttempts s' = S (reconnectAttempts (session g)) /\
        isReconnecting s' = true /\
        scheduledReconnects (effects r) =
          [reconnectDelay (S (reconnectAttempts (session g)))]
   else reconnectAttempts s' = reconnectAttempts (session g) /\
        isReconnecting s' = isReconnecting (session g) /\
        scheduledReconnects (effects r) = []).
Proof.
  intros r s'. subst r s'. unfold handleConnectionFailure. run_trace.
  destruct (truthy (roomId (session g)) &&
            (reconnectAttempts (session g) <? MAX_RECONNECT_ATTEMPTS)%nat);
    run_trace; repeat split.
Qed.

End ConnectionManager.

(* ===================================================================== *)
(** * Frame reasoning for handlers *)

Section KeepsCalculus.

Import Background.

Context {R : Globals -> Globals -> Prop} {T : list Effect -> Prop}.
Context {F : Frame R T}.

Lemma keeps_ret {A} (a : A) : keeps R T (ret a).
Proof. intro g. split; [apply frame_refl | apply frame_nil]. Qed.

Lemma keeps_get : keeps R T get.
Proof. intro g. split; [apply frame_refl | apply frame_nil]. Qed.

Lemma keeps_getSession : keeps R T getSession.
Proof. intro g. split; [apply frame_refl | apply frame_nil]. Qed.

Lemma keeps_bind {A B} (m : M A) (f : A -> M B) :
  keeps R T m -> (forall a, keeps R T (f a)) -> keeps R T (bind m f).
Proof.
  intros Hm Hf g. destruct (Hm g) as [HR HT].
  destruct (Hf (value (m g)) (globals (m g))) as [HR' HT'].
  split; [exact (frame_trans _ _ _ HR HR') | exact (frame_app _ _ HT HT')].
Qed.

Lemma keeps_when (b : bool) (m : M unit) :
  keeps R T m -> keeps R T (when b m).
Proof. intro Hm. destruct b; [exact Hm | apply keeps_ret]. Qed.

Lemma keeps_forEach {A} (xs : list A) (body : A -> M unit) :
  (forall x, keeps R T (body x)) -> keeps R T (forEach xs body).
Proof.
  intro Hb. induction xs as [|x xs IH]; [apply keeps_ret|].
  apply keeps_bind; [apply Hb | intros _; exact IH].
Qed.

Lemma keeps_emit (e : Effect) : T [e] -> keeps R T (emit e).
Proof. intros He g. split; [apply frame_refl | exact He]. Qed.

Lemma keeps_updateSession (f : SessionState -> SessionState) :
  (forall g, R g (mkGlobals (f (session g)) (activeTabs g) (tabStates g)
                            (pendingOperation g))) ->
  keeps R T (updateSession f).
Proof. intros Hf g. split; [apply Hf | apply frame_nil]. Qed.

Lemma keeps_setPendingOperation (p : option PendingOperation.t) :
  (forall g, R g (mkGlobals (session g) (activeTabs g) (tabStates g) p)) ->
  keeps R T (setPendingOperation p).
Proof. intros Hp g. split; [apply Hp | apply frame_nil]. Qed.

Lemma keeps_setTabs (tabs : list nat) (states : list TabState.t) :
  (forall g, R g (mkGlobals (session g) tabs states (pendingOperation g))) ->
  keeps R T (setTabs tabs states).
Proof. intros Hp g. split; [apply Hp | apply frame_nil]. Qed.

(** Reading the globals and acting on what was read, followed on the state
    that was read. *)
Lemma keeps_bind_get {B} (f : Globals -> M B) :
  (forall g, R g (globals (f g g)) /\ T (effects (f g g))) ->
  keeps R T (bind get f).
Proof. intros Hf g. exact (Hf g). Qed.

End KeepsCalculus.

Lemma keeps_weaken {A} (R R' : Background.Globals -> Background.Globals -> Prop)
    (T T' : list Background.Effect -> Prop) (m : Background.M A) :
  (forall g g', R g g' -> R' g g') ->
  (forall es, T es -> T' es) ->
  Background.keeps R T m -> Background.keeps R' T' m.
Proof. intros HR HT Hm g. destruct (Hm g). split; auto. Qed.

(** Following a handler's structure, splitting on the tests it makes;
    [leaf] settles the steps that change the state or leave an effect. *)
Ltac keeps_walk leaf :=
  repeat first
    [ leaf
    | lazymatch goal with
      | |- Background.keeps _ _ (Background.bind _ _) =>
          apply keeps_bind; [| intro]
      | |- Background.keeps _ _ (Background.ret _) => apply keeps_ret
      | |- Background.keeps _ _ (Background.respond _) => apply keeps_ret
      | |- Background.keeps _ _ Background.get => apply keeps_get
      | |- Background.keeps _ _ Background.getSession => apply keeps_getSession
      | |- Background.keeps _ _ (Background.when _ _) => apply keeps_when
      | |- Background.keeps _ _ (Background.forEach _ _) =>
          apply keeps_forEach; intro
      | |- Background.keeps _ _ (let _ := _ in _) => cbv zeta
      | |- Background.keeps _ _ (match ?x with _ => _ end) => destruct x
      end ].

Section RouterFrames.

Import Background.
Local Open Scope string_scope.

#[local] Instance sameConnection_offTheWire : Frame sameConnection offTheWire.
Proof.
  split.
  - intro g. repeat split.
  - unfold sameConnection. intros g1 g2 g3 H1 H2.
    repeat match goal with H : _ /\ _ |- _ => destruct H end.
    repeat split; congruence.
  - split; reflexivity.
  - intros es1 es2 [H1 H2] [H3 H4]. split.
    + rewrite sentToSocket_app, H1, H3. reflexivity.
    + rewrite scheduledReconnects_app, H2, H4. reflexivity.
Qed.

Ltac connection_leaf :=
  first
    [ apply keeps_updateSession; intro; repeat split
    | apply keeps_setPendingOperation; intro; repeat split
    | apply keeps_emit; split; reflexivity
    | progress unfold releaseRoomLock, broadcastStatusToAllTabs ].

Lemma handleServerMessage_keeps_connection (now : Z) (message : ServerMessage.t) :
  keeps sameConnection offTheWire (handleServerMessage now message).
Proof.
  destruct message; unfold handleServerMessage; keeps_walk connection_leaf.
Qed.

(** X16.  The message router never acts on the connection: whatever the
    relay sends, the run of [handleServerMessage] leaves the socket, the
    connected and reconnecting flags, the attempt counter, the heartbeat,
    the outbound queue, the user name and the tab registry as they were,
    writes nothing to the socket and schedules no reconnect.  (The
    asynchronous functions it starts are calls in its trace; their bodies
    run later.) *)
Theorem handleServerMessage_connection_frame (now : Z) (message : ServerMessage.t)
    (g : Globals) :
  let r := handleServerMessage now message g in
  let s' := session (globals r) in
  socket s' = socket (session g) /\
  connected s' = connected (session g) /\
  isReconnecting s' = isReconnecting (session g) /\
  reconnectAttempts s' = reconnectAttempts (session g) /\
  heartbeatInterval s' = heartbeatInterval (session g) /\
  lastSuccessfulConnection s' = lastSuccessfulConnection (session g) /\
  pendingMessages s' = pendingMessages (session g) /\
  userName s' = userName (session g) /\
  activeTabs (globals r) = activeTabs g /\
  tabStates (globals r) = tabStates g /\
  sentToSocket (effects r) = [] /\
  scheduledReconnects (effects r) = [].
Proof.
  intros r s'. subst r s'.
  destruct (handleServerMessage_keeps_connection now message g) as [HR [Hs Ht]].
  unfold sameConnection in HR. intuition.
Qed.

Ltac split_tests :=
  repeat (match goal with
          | |- context [when ?b _] => destruct b
          | |- context [if ?b then _ else _] => destruct b
          | |- context [match findUser ?id ?us with _ => _ end] =>
              destruct (findUser id us)
          | |- context [match ?x with Some _ => _ | None => _ end] =>
              destruct x
          end; run_trace).

(** X17.  The operation lock is released by the four replies that end a
    room operation - [ROOM_CREATED], [ROOM_JOINED], [ROOM_LEFT] and [ERROR] -
    and by no other relay message. *)
Theorem handleServerMessage_lock (now : Z) (message : ServerMessage.t)
    (g : Globals) :
  pendingOperation (globals (handleServerMessage now message g)) =
  match message with
  | ServerMessage.ROOM_CREATED _ _ _
  | ServerMessage.ROOM_JOINED _ _ _ _ _
  | ServerMessage.ROOM_LEFT _
  | ServerMessage.ERROR _ _ => None
  | _ => pendingOperation g
  end.
Proof.
  destruct message; unfold handleServerMessage, releaseRoomLock;
    run_trace; split_tests; reflexivity.
Qed.

End RouterFrames.

(** ** Connection manager: the state a handler leaves *)

Section ConnectionLifecycle.

Import Background.

Variable socketSendThrows : ClientMessage.t -> bool.
Variable newWebSocketThrows : bool.

Local Abbreviation sendMessage :=
  (Background.sendMessage socketSendThrows newWebSocketThrows).
Local Abbreviation flushPendingMessages :=
  (Background.flushPendingMessages socketSendThrows newWebSocketThrows).
Local Abbreviation onopen :=
  (Background.onopen socketSendThrows newWebSocketThrows).

Lemma startHeartbeat_globals (g : Globals) :
  globals (startHeartbeat g) =
  mkGlobals (set_heartbeatInterval true (session g))
            (activeTabs g) (tabStates g) (pendingOperation g).
Proof. unfold startHeartbeat. run_trace. reflexivity. Qed.

(** On a session marked connected and not reconnecting, a flush empties the
    queue and changes nothing else. *)
Lemma flushPendingMessages_connected (g : Globals) :
  connected (session g) = true ->
  isReconnecting (session g) = false ->
  globals (flushPendingMessages g) =
  mkGlobals (set_pendingMessages [] (session g))
            (activeTabs g) (tabStates g) (pendingOperation g).
Proof.
  intros Hconn Hre. unfold Background.flushPendingMessages. run_handler.
  destruct (pendingMessages (session g)) as [| m q] eqn:Hq; cbn [length Nat.eqb];
    run_handler.
  - destruct g as [s tabs states pending]. destruct s. cbn in Hq. subst.
    reflexivity.
  - match goal with
    | |- context [forEach _ _ ?g2] =>
        destruct (forEach_sendMessage_connected socketSendThrows newWebSocketThrows
                    (m :: q) g2 Hconn Hre) as [Hg _]
    end.
    exact Hg.
Qed.

Lemma onopen_globals (now : Z) (g : Globals) :
  globals (onopen now g) =
  mkGlobals
    (set_heartbeatInterval true
       (set_pendingMessages []
          (set_lastSuccessfulConnection now
             (set_isReconnecting false
                (set_reconnectAttempts 0 (set_connected true (session g)))))))
    (activeTabs g) (tabStates g) (pendingOperation g).
Proof.
  unfold Background.onopen. run_handler.
  set (g1 := mkGlobals _ (activeTabs g) (tabStates g) (pendingOperation g)).
  rewrite (flushPendingMessages_connected g1 eq_refl eq_refl).
  subst g1. run_handler.
  rewrite andb_false_r.
  destruct (roomId (session g)); run_handler;
    rewrite broadcastStatusToAllTabs_globals, startHeartbeat_globals;
    reflexivity.
Qed.

(** X18.  The open handler always ends connected, with the attempt counter
    at 0, the reconnecting flag down, the heartbeat running and an empty
    queue, whatever [send] did; so a queued message on which [send] throws
    is lost: it is neither transmitted nor kept. *)
Theorem onopen_state (now : Z) (g : Globals) :
  globals (onopen now g) =
  mkGlobals
    (set_heartbeatInterval true
       (set_pendingMessages []
          (set_lastSuccessfulConnection now
             (set_isReconnecting false
                (set_reconnectAttempts 0 (set_connected true (session g)))))))
    (activeTabs g) (tabStates g) (pendingOperation g) /\
  forall m,
    In m (pendingMessages (session g)) ->
    socketSendThrows m = true ->
    ~ In m (sentToSocket (effects (onopen now g))) /\
    ~ In m (pendingMessages (session (globals (onopen now g)))).
Proof.
  split; [apply onopen_globals |].
  intros m Hin Hthrows. split.
  - rewrite onopen_transmits_only_the_queue. unfold transmitted.
    destruct (socketIs OPEN (session g)); [| intros []].
    rewrite filter_In. rewrite Hthrows. intros [_ H]. discriminate.
  - rewrite onopen_globals. intros [].
Qed.

End ConnectionLifecycle.

Section ConnectionLifecycleWitnesses.

Import Background.
Local Open Scope string_scope.

(** The socket is open and every [send] throws: the queued name change is
    neither written nor kept. *)
Lemma onopen_state_witness :
  socketIs OPEN (session reopenedWithQueue) = true /\
  In (ClientMessage.SET_NAME "user_1" "Ada")
     (pendingMessages (session reopenedWithQueue)) /\
  ~ In (ClientMessage.SET_NAME "user_1" "Ada")
      (sentToSocket (effects (onopen (fun _ => true) false 5000 reopenedWithQueue))) /\
  ~ In (ClientMessage.SET_NAME "user_1" "Ada")
      (pendingMessages (session (globals
         (onopen (fun _ => true) false 5000 reopenedWithQueue)))).
Proof.
  pose proof (onopen_state (fun _ => true) false 5000 reopenedWithQueue) as [_ H].
  specialize (H (ClientMessage.SET_NAME "user_1" "Ada")
                ltac:(left; reflexivity) ltac:(reflexivity)).
  split; [reflexivity | split; [left; reflexivity | exact H]].
Defined.

(** With a [send] that does not throw, the same message is written. *)
Example onopen_sends_the_queue :
  sentToSocket (effects (onopen (fun _ => false) false 5000 reopenedWithQueue))
  = [ClientMessage.SET_NAME "user_1" "Ada"].
Proof. vm_compute. reflexivity. Qed.

End ConnectionLifecycleWitnesses.

(** ** An invariant of the background script *)

Section SessionInvariant.

Import Background.

(** Keeping a property of the globals is a frame. *)
#[local] Instance invariant_frame (P : Globals -> Prop) :
  Frame (fun g g' => P g -> P g') (fun _ => True).
Proof. split; auto. Qed.

Local Abbreviation stays := (keeps (fun g g' => sessionInvariant g -> sessionInvariant g')
                                   (fun _ => True)).

Lemma stays_intro {A} (m : M A) :
  (forall g, sessionInvariant g -> sessionInvariant (globals (m g))) -> stays m.
Proof. intros H g. split; [apply H | exact I]. Qed.

Lemma handleConnectionFailure_stays (reason : string) :
  stays (handleConnectionFailure reason).
Proof.
  apply stays_intro. intros g (Hq & Hn & Hh).
  unfold handleConnectionFailure, sessionInvariant. run_trace.
  destruct (truthy (roomId (session g))); cbn [andb]; run_trace;
    [| split; [exact Hq | split; [exact Hn | reflexivity]]].
  destruct (Nat.ltb_spec (reconnectAttempts (session g)) MAX_RECONNECT_ATTEMPTS)
    as [Hlt | Hge]; run_trace;
    (split; [exact Hq | split; [| reflexivity]]); [exact Hlt | exact Hn].
Qed.

Lemma connect_stays (newWebSocketThrows : bool) : stays (connect newWebSocketThrows).
Proof.
  unfold connect.
  keeps_walk ltac:(idtac; lazymatch goal with
                   | |- keeps _ _ (handleConnectionFailure _) =>
                       apply handleConnectionFailure_stays
                   | |- keeps _ _ (updateSession _) =>
                       apply keeps_updateSession; intros g H; exact H
                   | |- keeps _ _ (emit _) => apply keeps_emit; exact I
                   end).
Qed.

(** [queueMessage] changes the queue and nothing else. *)
Lemma queueMessage_session (message : ClientMessage.t) (g : Globals) :
  globals (queueMessage message g) =
  mkGlobals
    (set_pendingMessages
       (pendingMessages (session (globals (queueMessage message g)))) (session g))
    (activeTabs g) (tabStates g) (pendingOperation g).
Proof.
  destruct g as [s tabs states pending]. destruct s.
  unfold queueMessage. run_handler.
  match goal with |- context [when (negb ?b) _] => destruct b end;
    cbn [negb]; run_handler;
    match goal with |- context [when ?b _] => destruct b end;
    run_handler; reflexivity.
Qed.

Lemma queueMessage_stays (message : ClientMessage.t) :
  shouldQueueMessage message = true -> stays (queueMessage message).
Proof.
  intro Hm. apply stays_intro. intros g (Hq & Hn & Hh).
  pose proof (queueMessage_invariant message g Hm Hq) as Hq'.
  rewrite queueMessage_session. split; [exact Hq' | split; [exact Hn | exact Hh]].
Qed.

(** The steps that touch none of the three facts. *)
Ltac stays_leaf :=
  idtac; lazymatch goal with
  | |- keeps _ _ (emit _) => apply keeps_emit; exact I
  | |- keeps _ _ (updateSession _) =>
      apply keeps_updateSession; intros ? H; exact H
  | |- keeps _ _ (setPendingOperation _) =>
      apply keeps_setPendingOperation; intros ? H; exact H
  | |- keeps _ _ (setTabs _ _) => apply keeps_setTabs; intros ? H; exact H
  end.

Lemma broadcastStatusToAllTabs_stays : stays broadcastStatusToAllTabs.
Proof. unfold broadcastStatusToAllTabs. keeps_walk stays_leaf. Qed.

Lemma acquireRoomLock_stays (now : Z) (operation : PendingOperation.t) :
  stays (acquireRoomLock now operation).
Proof. unfold acquireRoomLock. keeps_walk stays_leaf. Qed.

Lemma releaseRoomLock_stays : stays releaseRoomLock.
Proof. unfold releaseRoomLock. keeps_walk stays_leaf. Qed.

Section WithEnvironment.

Variable socketSendThrows : ClientMessage.t -> bool.
Variable newWebSocketThrows : bool.
Variable toUpperCase : string -> string.
Variable validURL : string -> bool.
Variable tabsSendMessageRejects : nat -> bool.

Local Abbreviation sendMessage :=
  (Background.sendMessage socketSendThrows newWebSocketThrows).

Lemma sendMessage_stays (message : ClientMessage.t) : stays (sendMessage message).
Proof.
  unfold Background.sendMessage.
  destruct (shouldQueueMessage message) eqn:Hm.
  - keeps_walk ltac:(idtac; lazymatch goal with
                     | |- keeps _ _ (connect _) => apply connect_stays
                     | |- keeps _ _ (queueMessage _) =>
                         apply (queueMessage_stays message Hm)
                     | _ => stays_leaf
                     end).
  - apply keeps_bind; [apply keeps_getSession | intro s].
    rewrite !andb_false_r.
    change (when false (queueMessage message)) with (ret tt). cbv iota.
    keeps_walk ltac:(idtac; lazymatch goal with
                     | |- keeps _ _ (connect _) => apply connect_stays
                     | _ => stays_leaf
                     end).
Qed.

Lemma flushPendingMessages_stays :
  stays (flushPendingMessages socketSendThrows newWebSocketThrows).
Proof.
  unfold flushPendingMessages.
  keeps_walk ltac:(idtac; lazymatch goal with
                   | |- keeps _ _ (Background.sendMessage _ _ _) =>
                       apply sendMessage_stays
                   | |- keeps _ _ (updateSession _) =>
                       apply keeps_updateSession; intros ? (_ & Hn & Hh);
                       split; [apply queueInvariant_nil | split; [exact Hn | exact Hh]]
                   end).
Qed.

Lemma onopen_stays (now : Z) :
  stays (onopen socketSendThrows newWebSocketThrows now).
Proof.
  apply stays_intro. intros g _. rewrite onopen_globals.
  split; [apply queueInvariant_nil | split; [cbn; lia | reflexivity]].
Qed.

Lemma onclose_stays (code : Z) : stays (onclose code).
Proof.
  apply stays_intro. intros g (Hq & Hn & Hh).
  unfold onclose, sessionInvariant. run_trace.
  destruct ((code =? 1000)%Z || negb (truthy (roomId (session g)))); run_trace;
    [split; [exact Hq | split; [exact Hn | reflexivity]] |].
  destruct (Nat.ltb_spec (reconnectAttempts (session g)) MAX_RECONNECT_ATTEMPTS)
    as [Hlt | Hge]; run_trace;
    (split; [exact Hq | split; [| reflexivity]]); [exact Hlt | exact Hn].
Qed.

Lemma disconnect_stays : stays disconnect.
Proof.
  apply stays_intro. intros g (Hq & Hn & Hh).
  unfold disconnect, sessionInvariant. run_trace.
  destruct (socket (session g)); run_trace;
    (split; [exact Hq | split; [exact Hn | reflexivity]]).
Qed.

Lemma handleServerMessage_stays (now : Z) (message : ServerMessage.t) :
  stays (handleServerMessage now message).
Proof.
  apply stays_intro. intros g (Hq & Hn & Hh).
  destruct (handleServerMessage_keeps_connection now message g)
    as [(_ & Hc & _ & Ha & Hb & _ & Hp & _) _].
  unfold sessionInvariant. rewrite Hc, Ha, Hb, Hp.
  split; [exact Hq | split; [exact Hn | exact Hh]].
Qed.

Lemma forwardToAllTabs_stays (message : TabMessage.t) :
  stays (forwardToAllTabs tabsSendMessageRejects message).
Proof. unfold forwardToAllTabs. keeps_walk stays_leaf. Qed.

(** The steps of the request handlers. *)
Ltac request_leaf :=
  idtac; lazymatch goal with
  | |- keeps _ _ (Background.sendMessage _ _ _) => apply sendMessage_stays
  | |- keeps _ _ (connect _) => apply connect_stays
  | |- keeps _ _ disconnect => apply disconnect_stays
  | |- keeps _ _ (acquireRoomLock _ _) => apply acquireRoomLock_stays
  | |- keeps _ _ releaseRoomLock => apply releaseRoomLock_stays
  | |- keeps _ _ broadcastStatusToAllTabs => apply broadcastStatusToAllTabs_stays
  | _ => stays_leaf
  end.

Lemma handleMessage_stays (now : Z) (tabId : option nat) (message : Request.t) :
  stays (handleMessage socketSendThrows newWebSocketThrows toUpperCase validURL
           now tabId message).
Proof.
  destruct message; unfold handleMessage, leaveCurrentRoom, sendWhenConnected,
    runDeferred; keeps_walk request_leaf.
Qed.

Lemma checkAndLeaveRoom_stays :
  stays (checkAndLeaveRoom socketSendThrows newWebSocketThrows).
Proof. unfold checkAndLeaveRoom. keeps_walk request_leaf. Qed.

Ltac entry_leaf :=
  idtac; lazymatch goal with
  | |- keeps _ _ (onopen _ _ _) => apply onopen_stays
  | |- keeps _ _ (onclose _) => apply onclose_stays
  | |- keeps _ _ (handleServerMessage _ _) => apply handleServerMessage_stays
  | |- keeps _ _ (handleMessage _ _ _ _ _ _ _) => apply handleMessage_stays
  | |- keeps _ _ (checkAndLeaveRoom _ _) => apply checkAndLeaveRoom_stays
  | |- keeps _ _ (forwardToAllTabs _ _) => apply forwardToAllTabs_stays
  | _ => request_leaf
  end.

Lemma enter_stays (entry : EntryPoint) :
  stays (enter socketSendThrows newWebSocketThrows toUpperCase validURL
           tabsSendMessageRejects entry).
Proof.
  destruct entry; cbn [enter];
    unfold onMessage, checkConnection, runDeferred, connectDeadline, onRemoved,
      onUpdated;
    keeps_walk entry_leaf.
Qed.

End WithEnvironment.

Lemma sessionInvariant_initially (generatedUserId randomUUID : string) :
  sessionInvariant (initialGlobals generatedUserId randomUUID).
Proof.
  split; [apply queueInvariant_nil | split; [cbn; lia | reflexivity]].
Qed.

(** X19.  Three facts about the session are kept by every callback of
    [EntryPoint], in any order and whatever the socket, the tabs and the
    clock do: the outbound queue holds at most 50 messages, all durable and
    none twice; the attempt counter does not pass [MAX_RECONNECT_ATTEMPTS];
    and the heartbeat interval is held exactly while the session is marked
    connected.  They hold of the initial state. *)
Theorem sessionInvariant_always
    (socketSendThrows : ClientMessage.t -> bool) (newWebSocketThrows : bool)
    (toUpperCase : string -> string) (validURL : string -> bool)
    (tabsSendMessageRejects : nat -> bool)
    (entries : list EntryPoint) (g : Globals) :
  sessionInvariant g ->
  sessionInvariant
    (enterAll socketSendThrows newWebSocketThrows toUpperCase validURL
       tabsSendMessageRejects entries g).
Proof.
  revert g. induction entries as [| entry entries IH]; intros g Hg; [exact Hg |].
  cbn [enterAll]. apply IH.
  apply (enter_stays socketSendThrows newWebSocketThrows toUpperCase validURL
           tabsSendMessageRejects entry g). exact Hg.
Qed.

(** A session that creates a room, sees its socket open and then drop, and
    reconnects. *)
Lemma sessionInvariant_always_witness :
  sessionInvariant (initialGlobals "user_1" "c-1") /\
  sessionInvariant
    (enterAll (fun _ => false) false (fun r => r) (fun _ => true) (fun _ => false)
       [runtime_onMessage 0 (Some 3%nat) (Request.CREATE_ROOM (Some "Ada"%string));
        socket_onopen 100; socket_onclose 1006; timer_reconnect]
       (initialGlobals "user_1" "c-1")).
Proof.
  pose proof (sessionInvariant_initially "user_1" "c-1") as H0.
  split; [exact H0 |].
  apply (sessionInvariant_always (fun _ => false) false (fun r => r)
           (fun _ => true) (fun _ => false)). exact H0.
Defined.

End SessionInvariant.

(** ** Requests *)

Section RequestHandlers.

Import Background.
Local Open Scope string_scope.

Variable socketSendThrows : ClientMessage.t -> bool.
Variable newWebSocketThrows : bool.
Variable toUpperCase : string -> string.
Variable validURL : string -> bool.

Local Abbreviation sendMessage :=
  (Background.sendMessage socketSendThrows newWebSocketThrows).
Local Abbreviation handleMessage :=
  (Background.handleMessage socketSendThrows newWebSocketThrows toUpperCase validURL).

Lemma handleConnectionFailure_sent (reason : string) (g : Globals) :
  sentToSocket (effects (handleConnectionFailure reason g)) = [].
Proof.
  unfold handleConnectionFailure. run_trace.
  destruct (truthy (roomId (session g)) &&
            (reconnectAttempts (session g) <? MAX_RECONNECT_ATTEMPTS)%nat);
    run_trace; reflexivity.
Qed.

Lemma connect_sent (g : Globals) :
  sentToSocket (effects (connect newWebSocketThrows g)) = [].
Proof.
  unfold connect. run_trace.
  destruct (socketIs OPEN (session g)); run_trace; [reflexivity |].
  destruct (socketIs CONNECTING (session g)); run_trace; [reflexivity |].
  destruct newWebSocketThrows; run_trace;
    [apply handleConnectionFailure_sent | reflexivity].
Qed.

(** What one [sendMessage] writes to the socket: the message itself, when
    the socket is open and [send] does not throw, and otherwise nothing. *)
Lemma sendMessage_sent (message : ClientMessage.t) (g : Globals) :
  sentToSocket (effects (sendMessage message g)) =
  if socketIs OPEN (session g) && negb (socketSendThrows message)
  then [message] else [].
Proof.
  unfold Background.sendMessage. run_trace.
  destruct (socketIs OPEN (session g)); cbn [andb].
  - destruct (socketSendThrows message); cbn [negb]; run_trace; [| reflexivity].
    destruct (isReconnecting (session g) && shouldQueueMessage message);
      run_trace; [rewrite queueMessage_effects |]; reflexivity.
  - destruct (isReconnecting (session g) && shouldQueueMessage message);
      run_trace; [rewrite queueMessage_effects; reflexivity |].
    destruct (negb (connected (session g)) && negb (isReconnecting (session g)));
      run_trace; [| reflexivity].
    rewrite connect_sent.
    destruct (shouldQueueMessage message); run_trace;
      [rewrite queueMessage_effects |]; reflexivity.
Qed.

Lemma setTabs_globals (tabs : list nat) (states : list TabState.t) (g : Globals) :
  globals (setTabs tabs states g) =
  mkGlobals (session g) tabs states (pendingOperation g).
Proof. reflexivity. Qed.

Lemma setTabs_effects (tabs : list nat) (states : list TabState.t) (g : Globals) :
  effects (setTabs tabs states g) = [].
Proof. reflexivity. Qed.

Lemma respond_value (r : Response.t) (g : Globals) :
  value (respond r g) = mkReply r [].
Proof. reflexivity. Qed.

Lemma respond_globals (r : Response.t) (g : Globals) : globals (respond r g) = g.
Proof. reflexivity. Qed.

Lemma respond_effects (r : Response.t) (g : Globals) : effects (respond r g) = [].
Proof. reflexivity. Qed.

(** A lock younger than 5 s makes [acquireRoomLock] refuse without a
    trace; a free lock is taken. *)
Lemma acquireRoomLock_held (now : Z) (op held : PendingOperation.t) (g : Globals) :
  pendingOperation g = Some held ->
  (now - PendingOperation.timestamp held <= 5000)%Z ->
  acquireRoomLock now op g = mkOutcome false g [].
Proof.
  intros Hheld Hage. unfold acquireRoomLock, bind, get. cbn.
  rewrite Hheld.
  destruct (Z.gtb_spec (now - PendingOperation.timestamp held) 5000); [lia |].
  reflexivity.
Qed.

Lemma acquireRoomLock_free (now : Z) (op : PendingOperation.t) (g : Globals) :
  pendingOperation g = None ->
  acquireRoomLock now op g =
  mkOutcome true (mkGlobals (session g) (activeTabs g) (tabStates g) (Some op)) [].
Proof.
  intros Hfree. unfold acquireRoomLock, bind, get. cbn.
  rewrite Hfree. reflexivity.
Qed.

End RequestHandlers.

#[global] Hint Rewrite
  setTabs_globals setTabs_effects respond_value respond_globals respond_effects
  : handler.

(** Symbolic execution of a request handler. *)
Ltac run_request :=
  repeat (progress
    (run_handler; autorewrite with trace;
     cbn [Background.value Background.globals Background.effects
          Background.response Background.scheduled
          Background.session Background.activeTabs Background.tabStates
          Background.pendingOperation
          Background.oderId Background.socket Background.roomId Background.isHost
          Background.userCount Background.users Background.connected
          Background.reconnectAttempts Background.heartbeatInterval
          Background.userName Background.canControl Background.isReconnecting
          Background.lastSuccessfulConnection Background.pendingMessages
          Background.connectionId Background.currentUrl Background.currentPlatform
          Background.set_oderId Background.set_socket Background.set_roomId
          Background.set_isHost Background.set_userCount Background.set_users
          Background.set_connected Background.set_reconnectAttempts
          Background.set_heartbeatInterval Background.set_canControl
          Background.set_isReconnecting Background.set_lastSuccessfulConnection
          Background.set_pendingMessages Background.set_currentUrl
          Background.set_currentPlatform Background.set_userName
          Background.clearRoomState
          app negb andb orb])).

Section RoomRequests.

Import Background.
Local Open Scope string_scope.

Variable socketSendThrows : ClientMessage.t -> bool.
Variable newWebSocketThrows : bool.
Variable toUpperCase : string -> string.
Variable validURL : string -> bool.

Local Abbreviation sendMessage :=
  (Background.sendMessage socketSendThrows newWebSocketThrows).
Local Abbreviation handleMessage :=
  (Background.handleMessage socketSendThrows newWebSocketThrows toUpperCase validURL).

(** X20.  While a room operation younger than 5 s is pending, a request to
    create or join a room is refused with an error, and it changes nothing
    and causes nothing: no state is touched, nothing is sent, no callback is
    registered. *)
Theorem handleMessage_lock_held (now : Z) (tabId : option nat)
    (message : Request.t) (held : PendingOperation.t) (g : Globals) :
  pendingOperation g = Some held ->
  (now - PendingOperation.timestamp held <= 5000)%Z ->
  match message with
  | Request.CREATE_ROOM _ => True
  | Request.JOIN_ROOM room _ | Request.AUTO_JOIN_ROOM room => truthy room = true
  | _ => False
  end ->
  handleMessage now tabId message g =
  mkOutcome
    (mkReply (Response.failure "Another room operation is in progress") [])
    g [].
Proof.
  intros Hheld Hage Hop.
  destruct message; try contradiction; unfold Background.handleMessage.
  - unfold bind at 1. rewrite (acquireRoomLock_held _ _ _ _ Hheld Hage).
    reflexivity.
  - destruct roomId0 as [r |]; [| discriminate]. rewrite Hop. cbn [negb].
    unfold bind at 1. rewrite (acquireRoomLock_held _ _ _ _ Hheld Hage).
    reflexivity.
  - destruct roomId0 as [r |]; [| discriminate]. rewrite Hop. cbn [negb].
    unfold bind at 1. rewrite (acquireRoomLock_held _ _ _ _ Hheld Hage).
    reflexivity.
Qed.

End RoomRequests.

Section RoomSwitch.

Import Background.
Local Open Scope string_scope.

Variable socketSendThrows : ClientMessage.t -> bool.
Variable newWebSocketThrows : bool.
Variable toUpperCase : string -> string.
Variable validURL : string -> bool.

Local Abbreviation sendMessage :=
  (Background.sendMessage socketSendThrows newWebSocketThrows).
Local Abbreviation handleMessage :=
  (Background.handleMessage socketSendThrows newWebSocketThrows toUpperCase validURL).
Local Abbreviation leaveCurrentRoom :=
  (Background.leaveCurrentRoom socketSendThrows newWebSocketThrows).
Local Abbreviation sendWhenConnected :=
  (Background.sendWhenConnected socketSendThrows newWebSocketThrows).

Lemma leaveCurrentRoom_connected (old : string) (g : Globals) :
  roomId (session g) = Some old ->
  truthy (Some old) = true ->
  connected (session g) = true ->
  isReconnecting (session g) = false ->
  globals (leaveCurrentRoom g) =
    mkGlobals (clearRoomState (session g)) (activeTabs g) (tabStates g)
              (pendingOperation g) /\
  sentToSocket (effects (leaveCurrentRoom g)) =
    transmitted socketSendThrows (session g)
      [ClientMessage.LEAVE_ROOM old (oderId (session g))].
Proof.
  intros Hin Hold Hconn Hre.
  destruct (sendMessage_connected socketSendThrows newWebSocketThrows
              (ClientMessage.LEAVE_ROOM old (oderId (session g))) g Hconn Hre)
    as [Hg He].
  unfold Background.leaveCurrentRoom. run_request. rewrite Hin. rewrite Hold.
  run_request. rewrite Hg, He. run_request.
  cbn [sentToSocket flat_map]; rewrite !app_nil_r. split; reflexivity.
Qed.

Lemma sendWhenConnected_connected (action : Deferred) (g : Globals) :
  connected (session g) = true ->
  isReconnecting (session g) = false ->
  value (sendWhenConnected action g) = mkReply Response.success [] /\
  globals (sendWhenConnected action g) = g /\
  sentToSocket (effects (sendWhenConnected action g)) =
    transmitted socketSendThrows (session g) [match action with
       | doCreate =>
           ClientMessage.CREATE_ROOM (oderId (session g)) (Some (userName (session g)))
       | doJoin target =>
           ClientMessage.JOIN_ROOM target (oderId (session g))
             (Some (userName (session g)))
       end].
Proof.
  intros Hconn Hre.
  unfold Background.sendWhenConnected, runDeferred. run_request. rewrite Hconn.
  run_request.
  destruct action; run_request;
    match goal with
    | |- context [Background.sendMessage _ _ ?m g] =>
        destruct (sendMessage_connected socketSendThrows newWebSocketThrows
                    m g Hconn Hre) as [Hg He]
    end;
    rewrite Hg, He; cbn [sentToSocket flat_map]; rewrite !app_nil_r;
    repeat split.
Qed.

(** X21.  Joining another room from inside a room, on a connected session
    with an open socket on which [send] does not throw and with no room
    operation pending: the relay is told to leave the old room first and to
    join the new one second, under the name given with the request if there
    is one; the local room state is cleared at once and the operation lock
    stays held until the relay answers. *)
Theorem handleMessage_JOIN_ROOM_switch (now : Z) (tabId : option nat)
    (room old : string) (name : option string) (g : Globals) :
  pendingOperation g = None ->
  truthy (Some room) = true ->
  roomId (session g) = Some old ->
  truthy (Some old) = true ->
  old <> toUpperCase room ->
  connected (session g) = true ->
  isReconnecting (session g) = false ->
  socketIs OPEN (session g) = true ->
  (forall m, socketSendThrows m = false) ->
  let r := handleMessage now tabId (Request.JOIN_ROOM (Some room) name) g in
  sentToSocket (effects r) =
    [ClientMessage.LEAVE_ROOM old (oderId (session g));
     ClientMessage.JOIN_ROOM (toUpperCase room) (oderId (session g))
       (Some (match name with
              | Some n => if truthy name then n else userName (session g)
              | None => userName (session g)
              end))] /\
  value r = mkReply Response.success [] /\
  roomId (session (globals r)) = None /\
  pendingOperation (globals r) =
    Some (PendingOperation.mk OP_JOIN_ROOM now (Some (toUpperCase room))).
Proof.
  intros Hfree Hroom Hin Hold Hother Hconn Hre Hopen Hsend r. subst r.
  unfold Background.handleMessage. rewrite Hroom. cbn [negb].
  run_request. rewrite (acquireRoomLock_free _ _ _ Hfree). run_request.
  rewrite Hin. apply String.eqb_neq in Hother. rewrite Hother.
  run_request.
  set (g1 := mkGlobals (session g) _ _ _).
  assert (globals ((match name with
                    | Some n => when (truthy name) (updateSession (set_userName n))
                    | None => ret tt
                    end) g1) =
          mkGlobals
            (set_userName (match name with
                           | Some n => if truthy name then n else userName (session g)
                           | None => userName (session g)
                           end) (session g))
            (activeTabs g) (tabStates g)
            (Some (PendingOperation.mk OP_JOIN_ROOM now (Some (toUpperCase room)))) /\
          effects ((match name with
                    | Some n => when (truthy name) (updateSession (set_userName n))
                    | None => ret tt
                    end) g1) = [])
    as [Hg2 He2].
  { subst g1.
    destruct name as [n |]; [destruct (truthy (Some n)) |];
      run_request; (split; [| reflexivity]);
      destruct g as [s tabs states pending]; destruct s; reflexivity. }
  rewrite Hg2, He2.
  set (g2 := mkGlobals (set_userName _ (session g)) _ _ _).
  assert (roomId (session g2) = Some old) as Hin2 by (subst g2; exact Hin).
  assert (connected (session g2) = true) as Hconn2 by (subst g2; exact Hconn).
  assert (isReconnecting (session g2) = false) as Hre2 by (subst g2; exact Hre).
  destruct (leaveCurrentRoom_connected old g2 Hin2 Hold Hconn2 Hre2) as [Hg3 He3].
  rewrite Hg3, He3.
  set (g3 := mkGlobals (clearRoomState (session g2)) _ _ _).
  assert (connected (session g3) = true) as Hconn3 by (subst g3 g2; exact Hconn).
  assert (isReconnecting (session g3) = false) as Hre3 by (subst g3 g2; exact Hre).
  destruct (sendWhenConnected_connected (doJoin (toUpperCase room)) g3 Hconn3 Hre3)
    as (Hv4 & Hg4 & He4).
  rewrite Hv4, Hg4, He4.
  unfold transmitted.
  assert (socketIs OPEN (session g2) = true) as Hopen2 by (subst g2; exact Hopen).
  assert (socketIs OPEN (session g3) = true) as Hopen3 by (subst g3 g2; exact Hopen).
  rewrite Hopen2, Hopen3. cbn [filter]. rewrite !Hsend. cbn [negb].
  subst g3 g2. repeat split.
Qed.

(** X22.  A [PLAYER_EVENT] puts on the socket nothing but a [SYNC_EVENT]
    for the current room, signed with the local id, carrying the payload's
    own event with a finite time that is not negative - and only while the
    session has control, in which case the request is answered with
    success. *)
Theorem handleMessage_PLAYER_EVENT_sanitized (now : Z) (tabId : option nat)
    (payload : option RawSyncEvent.t) (g : Globals) (m : ClientMessage.t) :
  In m (sentToSocket (effects (handleMessage now tabId (Request.PLAYER_EVENT payload) g))) ->
  exists room type time timestamp videoId,
    m = ClientMessage.SYNC_EVENT room (oderId (session g))
          (SyncEvent.mk type time timestamp videoId) /\
    payload = Some (RawSyncEvent.mk (Some type) (Some (Finite time)) timestamp videoId) /\
    (0 <= time)%Q /\
    roomId (session g) = Some room /\
    canControl (session g) = true /\
    value (handleMessage now tabId (Request.PLAYER_EVENT payload) g) =
      mkReply Response.success [].
Proof.
  unfold Background.handleMessage. run_request.
  destruct (roomId (session g)) as [room |] eqn:Hroom; run_request; [| intros []].
  destruct (truthy (Some room)); run_request; [| intros []].
  destruct (canControl (session g)) eqn:Hctl; run_request; [| intros []].
  destruct payload as [[[type |] [[time | | |] |] timestamp videoId] |];
    run_request; try (intros []).
  destruct (Qltb_spec time 0) as [Hneg | Hpos]; run_request;
    [intros [] |].
  rewrite sendMessage_sent.
  destruct (socketIs OPEN (session g) && negb (socketSendThrows _));
    cbn [app]; [| intros []].
  intros [<- | []].
  exists room, type, time, timestamp, videoId.
  repeat split. apply Qnot_lt_le. exact Hpos.
Qed.

(** X23.  [KICK_USER] and [SET_PERMISSION] are for the host: from a session
    that is not the host they change nothing and send nothing - and still
    answer success. *)
Theorem handleMessage_host_only (now : Z) (tabId : option nat)
    (message : Request.t) (g : Globals) :
  isHost (session g) = false ->
  match message with
  | Request.KICK_USER _ | Request.SET_PERMISSION _ _ => True
  | _ => False
  end ->
  handleMessage now tabId message g = mkOutcome (mkReply Response.success []) g [].
Proof.
  intros Hhost Hop.
  destruct message; try contradiction; unfold Background.handleMessage;
    unfold bind, getSession; cbn; rewrite Hhost;
    destruct (roomId (session g)); cbn; rewrite ?andb_false_r; reflexivity.
Qed.

End RoomSwitch.

(** ** Disconnecting *)

Section Disconnecting.

Import Background.
Local Open Scope string_scope.

Variable socketSendThrows : ClientMessage.t -> bool.
Variable newWebSocketThrows : bool.

Local Abbreviation sendMessage :=
  (Background.sendMessage socketSendThrows newWebSocketThrows).

Lemma disconnect_globals (g : Globals) :
  globals (disconnect g) =
  mkGlobals
    (set_heartbeatInterval false
       (clearRoomState (set_connected false (set_socket None (session g)))))
    (activeTabs g) (tabStates g) (pendingOperation g).
Proof.
  unfold disconnect. run_request.
  destruct (socket (session g)) eqn:E; run_request; [reflexivity |].
  f_equal. unfold set_heartbeatInterval. run_request. rewrite E. reflexivity.
Qed.

(** Writing nothing to the socket is a frame. *)
#[local] Instance silent_frame :
  Frame (fun _ _ => True) (fun es => sentToSocket es = []).
Proof.
  split; auto.
  intros es1 es2 H1 H2. rewrite sentToSocket_app, H1, H2. reflexivity.
Qed.

Lemma disconnect_sent (g : Globals) : sentToSocket (effects (disconnect g)) = [].
Proof.
  assert (keeps (fun _ _ => True) (fun es => sentToSocket es = []) disconnect) as H.
  { unfold disconnect, stopHeartbeat, broadcastStatusToAllTabs.
    keeps_walk ltac:(idtac; lazymatch goal with
                     | |- keeps _ _ (emit _) => apply keeps_emit; reflexivity
                     | |- keeps _ _ (updateSession _) =>
                         apply keeps_updateSession; intro; exact I
                     end). }
  apply H.
Qed.

(** X24.  [disconnect] ends with no socket, not connected, no heartbeat and
    no room; it tells the relay nothing ([LEAVE_ROOM] is not sent), and it
    leaves the reconnecting flag, the attempt counter and the queue as they
    were.  Whatever close event follows, no reconnect is scheduled and no
    connection notice is forwarded. *)
Theorem disconnect_final (g : Globals) :
  let r := disconnect g in
  let s' := session (globals r) in
  socket s' = None /\
  connected s' = false /\
  heartbeatInterval s' = false /\
  roomId s' = None /\
  isHost s' = false /\
  userCount s' = 0%Z /\
  users s' = [] /\
  isReconnecting s' = isReconnecting (session g) /\
  reconnectAttempts s' = reconnectAttempts (session g) /\
  pendingMessages s' = pendingMessages (session g) /\
  sentToSocket (effects r) = [] /\
  forall code,
    scheduledReconnects (effects (onclose code (globals r))) = [] /\
    forwarded (effects (onclose code (globals r))) = [].
Proof.
  intros r s'. subst r s'. rewrite disconnect_globals, disconnect_sent.
  repeat (split; [reflexivity |]).
  intro code. apply onclose_no_reconnect. right. reflexivity.
Qed.

End Disconnecting.

(** ** The tab registry *)

Section TabRegistry.

Import Background.
Local Open Scope string_scope.

Variable socketSendThrows : ClientMessage.t -> bool.
Variable newWebSocketThrows : bool.
Variable toUpperCase : string -> string.
Variable validURL : string -> bool.

Local Abbreviation sendMessage :=
  (Background.sendMessage socketSendThrows newWebSocketThrows).
Local Abbreviation onRemoved :=
  (Background.onRemoved socketSendThrows newWebSocketThrows).
Local Abbreviation handleMessage :=
  (Background.handleMessage socketSendThrows newWebSocketThrows toUpperCase validURL).
Local Abbreviation onMessage :=
  (Background.onMessage socketSendThrows newWebSocketThrows toUpperCase validURL).

(** Leaving the tab registry alone is a frame. *)
Local Abbreviation sameTabs :=
  (fun g g' : Globals => activeTabs g' = activeTabs g /\ tabStates g' = tabStates g).

#[local] Instance sameTabs_frame : Frame sameTabs (fun _ => True).
Proof.
  split; auto.
  intros g1 g2 g3 [H1 H2] [H3 H4]. split; congruence.
Qed.

Ltac tabs_leaf :=
  idtac; lazymatch goal with
  | |- keeps _ _ (emit _) => apply keeps_emit; exact I
  | |- keeps _ _ (updateSession _) =>
      apply keeps_updateSession; intro; split; reflexivity
  | |- keeps _ _ (setPendingOperation _) =>
      apply keeps_setPendingOperation; intro; split; reflexivity
  end.

Lemma sendMessage_sameTabs (message : ClientMessage.t) :
  keeps sameTabs (fun _ => True) (sendMessage message).
Proof.
  unfold Background.sendMessage, connect, handleConnectionFailure, queueMessage,
    stopHeartbeat, broadcastStatusToAllTabs.
  keeps_walk tabs_leaf.
Qed.

Lemma connect_sameTabs : keeps sameTabs (fun _ => True) (connect newWebSocketThrows).
Proof.
  unfold connect, handleConnectionFailure, stopHeartbeat, broadcastStatusToAllTabs.
  keeps_walk tabs_leaf.
Qed.

Lemma disconnect_sameTabs : keeps sameTabs (fun _ => True) disconnect.
Proof.
  unfold disconnect, stopHeartbeat, broadcastStatusToAllTabs.
  keeps_walk tabs_leaf.
Qed.

Lemma acquireRoomLock_sameTabs (now : Z) (operation : PendingOperation.t) :
  keeps sameTabs (fun _ => True) (acquireRoomLock now operation).
Proof. unfold acquireRoomLock. keeps_walk tabs_leaf. Qed.

Lemma broadcastStatusToAllTabs_sameTabs :
  keeps sameTabs (fun _ => True) broadcastStatusToAllTabs.
Proof. unfold broadcastStatusToAllTabs. keeps_walk tabs_leaf. Qed.

(** X25.  Closing the only registered tab while in a room leaves the room:
    the registry is empty, the local room state is cleared, the listener
    hands the room on for the [ROOM_LEFT] notice, and [LEAVE_ROOM] goes to
    the relay exactly when the socket is open and [send] does not throw. *)
Theorem onRemoved_last_tab (tabId : nat) (room : string) (g : Globals) :
  activeTabs g = [tabId] ->
  roomId (session g) = Some room ->
  truthy (Some room) = true ->
  let r := onRemoved tabId g in
  value r = Some room /\
  activeTabs (globals r) = [] /\
  roomId (session (globals r)) = None /\
  isHost (session (globals r)) = false /\
  userCount (session (globals r)) = 0%Z /\
  users (session (globals r)) = [] /\
  sentToSocket (effects r) =
    if socketIs OPEN (session g) &&
       negb (socketSendThrows (ClientMessage.LEAVE_ROOM room (oderId (session g))))
    then [ClientMessage.LEAVE_ROOM room (oderId (session g))]
    else [].
Proof.
  intros Htabs Hroom Htruthy r. subst r.
  unfold Background.onRemoved, checkAndLeaveRoom. run_request.
  rewrite Htabs. cbn [existsb setDelete filter]. rewrite Nat.eqb_refl.
  cbn [orb negb]. run_request. rewrite Hroom. cbn [length Nat.eqb andb].
  rewrite Htruthy. run_request.
  rewrite sendMessage_sent. cbn [session].
  match goal with
  | |- context [Background.sendMessage _ _ ?m ?g1] =>
      destruct (sendMessage_sameTabs m g1) as [[Ht _] _]
  end.
  rewrite Ht. cbn [activeTabs sentToSocket flat_map]. rewrite !app_nil_r.
  repeat split.
Qed.

(** X26.  [forwardToAllTabs], run without interruption, removes from the
    registry exactly the tabs whose send was rejected, and touches nothing
    else. *)
Theorem forwardToAllTabs_prunes (rejects : nat -> bool) (message : TabMessage.t)
    (g : Globals) :
  let r := forwardToAllTabs rejects message g in
  session (globals r) = session g /\
  pendingOperation (globals r) = pendingOperation g /\
  (forall tab, In tab (activeTabs (globals r)) <->
               In tab (activeTabs g) /\ rejects tab = false) /\
  (forall st, In st (tabStates (globals r)) <->
              In st (tabStates g) /\
              ~ (In (TabState.tabId st) (activeTabs g) /\
                 rejects (TabState.tabId st) = true)).
Proof.
  intros r. subst r. unfold forwardToAllTabs. run_request.
  rewrite !forEach_emit_globals. cbn [session pendingOperation activeTabs tabStates].
  assert (forall t, existsb (Nat.eqb t) (filter rejects (activeTabs g)) = true <->
                    In t (activeTabs g) /\ rejects t = true) as Hdead.
  { intro t. rewrite existsb_exists. split.
    - intros (x & Hx & E). apply Nat.eqb_eq in E. subst x.
      apply filter_In in Hx. exact Hx.
    - intros H. exists t. split; [apply filter_In; exact H | apply Nat.eqb_refl]. }
  repeat split.
  - apply filter_In in H. apply H.
  - apply filter_In in H as [Hin Hlive].
    destruct (rejects tab) eqn:E; [| reflexivity].
    apply negb_true_iff in Hlive.
    assert (existsb (Nat.eqb tab) (filter rejects (activeTabs g)) = true) as C
      by (apply Hdead; split; assumption).
    congruence.
  - intros [Hin Hlive]. apply filter_In. split; [exact Hin |].
    apply negb_true_iff. apply not_true_is_false. intro C.
    apply Hdead in C as [_ C]. congruence.
  - apply filter_In in H. apply H.
  - apply filter_In in H as [_ Hlive]. intro C. apply Hdead in C.
    rewrite C in Hlive. discriminate.
  - intros [Hin Hlive]. apply filter_In. split; [exact Hin |].
    apply negb_true_iff. apply not_true_is_false. intro C.
    apply Hdead in C. contradiction.
Qed.


(** No tab leaves the registry. *)
Local Abbreviation tabsKept :=
  (fun g g' : Globals => incl (activeTabs g) (activeTabs g')).

#[local] Instance tabsKept_frame : Frame tabsKept (fun _ => True).
Proof.
  split; auto.
  - intro g. apply incl_refl.
  - intros g1 g2 g3. apply incl_tran.
Qed.

Lemma setAdd_incl (tabId : nat) (tabs : list nat) : incl tabs (setAdd tabId tabs).
Proof.
  unfold setAdd. destruct (existsb (Nat.eqb tabId) tabs);
    [apply incl_refl | apply incl_appl, incl_refl].
Qed.

Lemma setAdd_In (tabId : nat) (tabs : list nat) : In tabId (setAdd tabId tabs).
Proof.
  unfold setAdd. destruct (existsb (Nat.eqb tabId) tabs) eqn:E.
  - apply existsb_exists in E as (x & Hx & E). apply Nat.eqb_eq in E. now subst.
  - apply in_or_app. right. left. reflexivity.
Qed.

Lemma sameTabs_tabsKept {A} (m : M A) :
  keeps sameTabs (fun _ => True) m -> keeps tabsKept (fun _ => True) m.
Proof.
  apply keeps_weaken; [| auto].
  intros g g' [H _]. rewrite H. apply incl_refl.
Qed.

Ltac registry_leaf :=
  idtac; lazymatch goal with
  | |- keeps _ _ (Background.sendMessage _ _ _) =>
      apply sameTabs_tabsKept, sendMessage_sameTabs
  | |- keeps _ _ (connect _) => apply sameTabs_tabsKept, connect_sameTabs
  | |- keeps _ _ disconnect => apply sameTabs_tabsKept, disconnect_sameTabs
  | |- keeps _ _ (acquireRoomLock _ _) =>
      apply sameTabs_tabsKept, acquireRoomLock_sameTabs
  | |- keeps _ _ broadcastStatusToAllTabs =>
      apply sameTabs_tabsKept, broadcastStatusToAllTabs_sameTabs
  | |- keeps _ _ (emit _) => apply keeps_emit; exact I
  | |- keeps _ _ (updateSession _) =>
      apply keeps_updateSession; intro; apply incl_refl
  | |- keeps _ _ (setPendingOperation _) =>
      apply keeps_setPendingOperation; intro; apply incl_refl
  | |- keeps _ _ (bind get _) =>
      apply keeps_bind_get; intro; split; [| exact I];
      try match goal with
          | |- context [when ?b _] => destruct b
          end;
      first [apply incl_refl | apply setAdd_incl]
  end.

Lemma handleMessage_tabsKept (now : Z) (tabId : option nat) (message : Request.t) :
  keeps tabsKept (fun _ => True) (handleMessage now tabId message).
Proof.
  destruct message;
    unfold Background.handleMessage, leaveCurrentRoom, sendWhenConnected,
      runDeferred, releaseRoomLock;
    keeps_walk registry_leaf.
Qed.

(** X27.  No request removes a tab from the registry, and a request that
    comes from a tab leaves that tab registered. *)
Theorem onMessage_registers_sender (now : Z) (sender : option nat)
    (message : Request.t) (g : Globals) :
  incl (activeTabs g) (activeTabs (globals (onMessage now sender message g))) /\
  forall tab,
    sender = Some tab -> tab <> 0%nat ->
    In tab (activeTabs (globals (onMessage now sender message g))).
Proof.
  unfold Background.onMessage. rewrite bind_globals.
  match goal with
  | |- context [Background.handleMessage _ _ _ _ now sender message ?g0] =>
      set (g1 := g0)
  end.
  destruct (handleMessage_tabsKept now sender message g1) as [Hkept _].
  assert (incl (activeTabs g) (activeTabs g1)) as Hfirst.
  { subst g1. destruct sender as [tab |]; [| apply incl_refl].
    destruct (truthyTab (Some tab)); [apply setAdd_incl | apply incl_refl]. }
  split.
  - eapply incl_tran; [exact Hfirst | exact Hkept].
  - intros tab -> Hpos. apply Hkept. subst g1.
    destruct tab as [| n]; [contradiction |]. apply setAdd_In.
Qed.

End TabRegistry.

(** ** Sending while offline *)

Section OfflineSend.

Import Background.
Local Open Scope string_scope.

Variable socketSendThrows : ClientMessage.t -> bool.

(** X28.  A durable message sent from a session that has no socket and is
    neither connected nor reconnecting opens a socket and waits in the
    queue, with nothing written yet; when that socket opens, the message is
    the one thing transmitted, provided [send] does not throw on it. *)
Theorem sendMessage_offline_then_open (now : Z) (message : ClientMessage.t)
    (g : Globals) :
  socket (session g) = None ->
  connected (session g) = false ->
  isReconnecting (session g) = false ->
  pendingMessages (session g) = [] ->
  shouldQueueMessage message = true ->
  socketSendThrows message = false ->
  let r := sendMessage socketSendThrows false message g in
  effects r = [NewWebSocket] /\
  socket (session (globals r)) = Some CONNECTING /\
  pendingMessages (session (globals r)) = [message] /\
  sentToSocket
    (effects
       (onopen socketSendThrows false now
          (mkGlobals (set_socket (Some OPEN) (session (globals r)))
             (activeTabs (globals r)) (tabStates (globals r))
             (pendingOperation (globals r))))) = [message].
Proof.
  intros Hsock Hconn Hre Hq Hdur Hsend r.
  assert (globals r =
          mkGlobals (set_pendingMessages [message]
                       (set_socket (Some CONNECTING) (session g)))
                    (activeTabs g) (tabStates g) (pendingOperation g) /\
          effects r = [NewWebSocket]) as [Hg He].
  { subst r. unfold sendMessage, connect, socketIs. run_request.
    rewrite Hsock, Hre, Hconn, Hdur. run_request.
    rewrite queueMessage_effects, queueMessage_session, queueMessage_pending.
    repeat (progress (rewrite ?Hsock; run_request)).
    rewrite Hq. cbn. split; reflexivity. }
  rewrite Hg, He. cbn [session activeTabs tabStates pendingOperation].
  rewrite onopen_transmits_only_the_queue. unfold transmitted, socketIs.
  run_request. cbn. rewrite Hsend. repeat split.
Qed.

End OfflineSend.

(** ** Identity and expulsion *)

Section IdentityAndExpulsion.

Import Background.
Local Open Scope string_scope.

(** X29.  [ROOM_JOINED] installs what the relay says: the participant id,
    the room, the member list, the count and the host flag of the message,
    and the control flag of the participant's own entry in the list; from
    then on a [SYNC_EVENT] or a [NAVIGATE] signed with that id is taken for
    an echo and produces nothing. *)
Theorem handleServerMessage_ROOM_JOINED_identity (now : Z) (room : string)
    (count : Z) (host : bool) (us : list UserInfo.t) (id : string) (g : Globals) :
  let g' := globals (handleServerMessage now
                       (ServerMessage.ROOM_JOINED room count host us id) g) in
  oderId (session g') = id /\
  roomId (session g') = Some room /\
  users (session g') = us /\
  userCount (session g') = count /\
  isHost (session g') = host /\
  canControl (session g') =
    match findUser id us with
    | Some me => UserInfo.canControl me
    | None => canControl (session g)
    end /\
  forall now' room' event navigation,
    effects (handleServerMessage now' (ServerMessage.SYNC_EVENT room' id event) g')
      = [] /\
    effects (handleServerMessage now' (ServerMessage.NAVIGATE room' id navigation) g')
      = [].
Proof.
  intros g'.
  assert (g' =
          mkGlobals
            (set_canControl
               match findUser id us with
               | Some me => UserInfo.canControl me
               | None => canControl (session g)
               end
               (set_users us
                  (set_userCount count
                     (set_isHost host
                        (set_roomId (Some room) (set_oderId id (session g)))))))
            (activeTabs g) (tabStates g) None) as Hg.
  { subst g'. unfold handleServerMessage, releaseRoomLock. run_request.
    destruct (findUser id us); run_request; reflexivity. }
  rewrite Hg. clear Hg g'.
  repeat (split; [reflexivity |]).
  intros now' room' event navigation.
  unfold handleServerMessage. run_request. rewrite String.eqb_refl.
  split; reflexivity.
Qed.

(** X30.  [USER_KICKED] concerns the participant it names: for anyone else
    the router does nothing at all; for the local participant it clears the
    room, keeps the connection, and forwards one [KICKED] notice with the
    reason. *)
Theorem handleServerMessage_USER_KICKED (now : Z) (room id reason : string)
    (g : Globals) :
  let r := handleServerMessage now (ServerMessage.USER_KICKED room id reason) g in
  (id <> oderId (session g) -> globals r = g /\ effects r = []) /\
  (id = oderId (session g) ->
   globals r =
     mkGlobals (clearRoomState (session g)) (activeTabs g) (tabStates g)
               (pendingOperation g) /\
   forwarded (effects r) = [TabMessage.KICKED reason]).
Proof.
  intros r. subst r. unfold handleServerMessage. split.
  - intros Hother. apply String.eqb_neq in Hother. run_request. rewrite Hother.
    run_request. split; reflexivity.
  - intros ->. run_request. rewrite String.eqb_refl. run_request.
    split; reflexivity.
Qed.

End IdentityAndExpulsion.

(** ** Sample runs of the request handlers *)

Section RequestWitnesses.

Import Background.
Local Open Scope string_scope.

(** A second join request 3 s after the first is refused. *)
Lemma handleMessage_lock_held_witness :
  handleMessage (fun _ => false) false (fun r => r) (fun _ => true)
    4000 (Some 3%nat) (Request.JOIN_ROOM (Some "WXYZ5678") None) lockedGlobals =
  mkOutcome
    (mkReply (Response.failure "Another room operation is in progress") [])
    lockedGlobals [].
Proof.
  apply (handleMessage_lock_held (fun _ => false) false (fun r => r) (fun _ => true)
           4000 (Some 3%nat) (Request.JOIN_ROOM (Some "WXYZ5678") None)
           (PendingOperation.mk OP_JOIN_ROOM 1000 (Some "ABCD1234")) lockedGlobals).
  - reflexivity.
  - cbn. lia.
  - reflexivity.
Defined.

(** The guest of room ABCD1234 joins WXYZ5678 as Eve. *)
Lemma handleMessage_JOIN_ROOM_switch_witness :
  sentToSocket
    (effects (handleMessage (fun _ => false) false (fun r => r) (fun _ => true)
                7000 (Some 3%nat)
                (Request.JOIN_ROOM (Some "WXYZ5678") (Some "Eve")) guestGlobals)) =
  [ClientMessage.LEAVE_ROOM "ABCD1234" "user_1";
   ClientMessage.JOIN_ROOM "WXYZ5678" "user_1" (Some "Eve")].
Proof.
  pose proof (handleMessage_JOIN_ROOM_switch (fun _ => false) false (fun r => r)
                (fun _ => true) 7000 (Some 3%nat) "WXYZ5678" "ABCD1234" (Some "Eve")
                guestGlobals) as H.
  specialize (H ltac:(reflexivity) ltac:(reflexivity) ltac:(reflexivity)
                ltac:(reflexivity) ltac:(discriminate) ltac:(reflexivity)
                ltac:(reflexivity) ltac:(reflexivity) ltac:(reflexivity)).
  exact (proj1 H).
Defined.

(** A play event at 12 s from the guest, who has control. *)
Lemma handleMessage_PLAYER_EVENT_sanitized_witness :
  exists room type time timestamp videoId,
    ClientMessage.SYNC_EVENT "ABCD1234" "user_1" (SyncEvent.mk PLAY 12 1000 None) =
    ClientMessage.SYNC_EVENT room (oderId (session guestGlobals))
      (SyncEvent.mk type time timestamp videoId) /\
    Some (RawSyncEvent.mk (Some PLAY) (Some (Finite 12)) 1000 None) =
    Some (RawSyncEvent.mk (Some type) (Some (Finite time)) timestamp videoId) /\
    (0 <= time)%Q /\
    roomId (session guestGlobals) = Some room /\
    canControl (session guestGlobals) = true /\
    value (handleMessage (fun _ => false) false (fun r => r) (fun _ => true)
             7000 (Some 3%nat)
             (Request.PLAYER_EVENT
                (Some (RawSyncEvent.mk (Some PLAY) (Some (Finite 12)) 1000 None)))
             guestGlobals) =
    mkReply Response.success [].
Proof.
  apply (handleMessage_PLAYER_EVENT_sanitized (fun _ => false) false (fun r => r)
           (fun _ => true) 7000 (Some 3%nat)
           (Some (RawSyncEvent.mk (Some PLAY) (Some (Finite 12)) 1000 None))
           guestGlobals
           (ClientMessage.SYNC_EVENT "ABCD1234" "user_1"
              (SyncEvent.mk PLAY 12 1000 None))).
  left. reflexivity.
Defined.

(** The guest is not the host: a kick request is answered and dropped. *)
Lemma handleMessage_host_only_witness :
  handleMessage (fun _ => false) false (fun r => r) (fun _ => true)
    7000 (Some 3%nat) (Request.KICK_USER "user_0") guestGlobals =
  mkOutcome (mkReply Response.success []) guestGlobals [].
Proof.
  apply (handleMessage_host_only (fun _ => false) false (fun r => r) (fun _ => true)
           7000 (Some 3%nat) (Request.KICK_USER "user_0") guestGlobals).
  - reflexivity.
  - exact I.
Defined.

(** The guest's only tab is closed. *)
Lemma onRemoved_last_tab_witness :
  value (onRemoved (fun _ => false) false 3
           (mkGlobals guestSession [3%nat] [] None)) = Some "ABCD1234" /\
  sentToSocket (effects (onRemoved (fun _ => false) false 3
                           (mkGlobals guestSession [3%nat] [] None))) =
  [ClientMessage.LEAVE_ROOM "ABCD1234" "user_1"].
Proof.
  pose proof (onRemoved_last_tab (fun _ => false) false 3%nat "ABCD1234"
                (mkGlobals guestSession [3%nat] [] None)
                ltac:(reflexivity) ltac:(reflexivity) ltac:(reflexivity))
    as (Hv & _ & _ & _ & _ & _ & Hs).
  split; [exact Hv | exact Hs].
Defined.

(** Of the guest's tabs 3 and 8, tab 8 is gone. *)
Lemma forwardToAllTabs_prunes_witness :
  In 3%nat (activeTabs (globals
    (forwardToAllTabs (Nat.eqb 8) (TabMessage.KICKED "bye") guestGlobals))) /\
  ~ In 8%nat (activeTabs (globals
    (forwardToAllTabs (Nat.eqb 8) (TabMessage.KICKED "bye") guestGlobals))).
Proof.
  pose proof (forwardToAllTabs_prunes (Nat.eqb 8) (TabMessage.KICKED "bye")
                guestGlobals) as (_ & _ & Htabs & _).
  split.
  - apply (proj2 (Htabs 3%nat)). split; [left; reflexivity | reflexivity].
  - intro Hin. apply (proj1 (Htabs 8%nat)) in Hin as [_ Hlive]. discriminate.
Defined.

(** A status request from tab 5, which was not registered. *)
Lemma onMessage_registers_sender_witness :
  In 5%nat (activeTabs (globals
    (onMessage (fun _ => false) false (fun r => r) (fun _ => true)
       7000 (Some 5%nat) Request.GET_STATUS guestGlobals))).
Proof.
  apply (proj2 (onMessage_registers_sender (fun _ => false) false (fun r => r)
                  (fun _ => true) 7000 (Some 5%nat) Request.GET_STATUS guestGlobals)
           5%nat).
  - reflexivity.
  - discriminate.
Defined.

(** A name change sent before any connection exists. *)
Lemma sendMessage_offline_then_open_witness :
  effects (sendMessage (fun _ => false) false (ClientMessage.SET_NAME "user_1" "Ada")
             (initialGlobals "user_1" "c-1")) = [NewWebSocket] /\
  pendingMessages (session (globals
    (sendMessage (fun _ => false) false (ClientMessage.SET_NAME "user_1" "Ada")
       (initialGlobals "user_1" "c-1")))) = [ClientMessage.SET_NAME "user_1" "Ada"].
Proof.
  pose proof (sendMessage_offline_then_open (fun _ => false) 100
                (ClientMessage.SET_NAME "user_1" "Ada") (initialGlobals "user_1" "c-1")
                ltac:(reflexivity) ltac:(reflexivity) ltac:(reflexivity)
                ltac:(reflexivity) ltac:(reflexivity) ltac:(reflexivity))
    as (He & _ & Hq & _).
  split; [exact He | exact Hq].
Defined.

(** The guest is expelled; the host's expulsion does not concern the guest. *)
Lemma handleServerMessage_USER_KICKED_witness :
  roomId (session (globals
    (handleServerMessage 7000 (ServerMessage.USER_KICKED "ABCD1234" "user_1" "spam")
       guestGlobals))) = None /\
  globals (handleServerMessage 7000
             (ServerMessage.USER_KICKED "ABCD1234" "user_0" "spam") guestGlobals)
  = guestGlobals.
Proof.
  pose proof (handleServerMessage_USER_KICKED 7000 "ABCD1234" "user_1" "spam"
                guestGlobals) as [_ Hme].
  pose proof (handleServerMessage_USER_KICKED 7000 "ABCD1234" "user_0" "spam"
                guestGlobals) as [Hother _].
  specialize (Hme ltac:(reflexivity)). specialize (Hother ltac:(discriminate)).
  split.
  - rewrite (proj1 Hme). reflexivity.
  - exact (proj1 Hother).
Defined.

End RequestWitnesses.
